(** * Tunnel service and terminal bridge of the workbench

    A shallow embedding of
    - [src/vs/platform/remote/common/tunnel.ts] (module [Tunnel]), and
    - [src/vs/workbench/api/browser/mainThreadTerminalService.ts]
      (modules [Terminal] and [DataEvents]).

    JavaScript objects that are mutated in place (the inner [Map]s of
    [_tunnels] and the [{ refcount, value }] records) live in an explicit
    store and are named by references, so that two paths to one object see
    each other's writes.  An [async] method is cut at each [await] / [.then]:
    the code up to the cut keeps the method's name, the code after it is a
    definition named [..._then] or [..._resume]. *)

From Stdlib Require Import Ascii.
From stdpp Require Import gmap strings list fin_maps pretty.

Open Scope Z_scope.

(** ** Strings and regular-expression pieces *)

(** [s] starts with [p]: the rest of [s] after [p]. *)
Fixpoint strip_prefix (p s : string) : option string :=
  match p, s with
  | EmptyString, _ => Some s
  | String a p', String b s' => if decide (a = b) then strip_prefix p' s' else None
  | String _ _, EmptyString => None
  end.

(** The character class [\d] of a JavaScript regular expression: [0-9]. *)
Definition is_digit (c : ascii) : bool := bool_decide (is_Some (Ascii.is_nat c)).

(** [\d+$]: one or more digits up to the end of the input. *)
Fixpoint all_digits (s : string) : bool :=
  match s with
  | EmptyString => true
  | String c r => is_digit c && all_digits r
  end.

Definition digits1 (s : string) : bool :=
  match s with
  | EmptyString => false
  | String _ _ => all_digits s
  end.

(** Unary [+] on a string of decimal digits. *)
Fixpoint number_of_digits (acc : Z) (s : string) : Z :=
  match s with
  | EmptyString => acc
  | String c r => number_of_digits (10 * acc + Z.of_nat (default 0%nat (Ascii.is_nat c))) r
  end.

(** A decimal numeral, as the claims speak of it: not empty, and each
    character one of ["0"] .. ["9"]. *)
Inductive decimal : string → Prop :=
  | decimal_one c : (48 ≤ nat_of_ascii c ≤ 57)%nat → decimal (String c EmptyString)
  | decimal_more c s : (48 ≤ nat_of_ascii c ≤ 57)%nat → decimal s → decimal (String c s).

Module Tunnel.

(** ** Data of [tunnel.ts] *)

(** The numbers of this module are ports and counts: they are integers,
    and [Z] stands for them. *)

(** The fields of [URI] that the module reads. *)
Record URI := {
  scheme : string;
  authority : string;
  path : string;
  query : string;
  fragment : string;
}.

Record RemoteTunnel := {
  tunnelRemotePort : Z;
  tunnelRemoteHost : string;
  tunnelLocalPort : option Z;
  localAddress : string;
  public : bool;
}.

Record RemoteAddress := { port : Z; host : string }.

Record TunnelOptions := {
  remoteAddress : RemoteAddress;
  localAddressPort : option Z;
  label : option string;
  opt_public : option bool;
}.

Record TunnelCreationOptions := { elevationRequired : option bool }.

Record TunnelProviderFeatures := { elevation : bool; feat_public : bool }.

(** Modelled from the spec: [OperatingSystem] is declared in
    [vs/base/common/platform], which is not part of the sources at hand.
    It is an enumeration of the three desktop systems whose members are the
    numbers 1, 2 and 3, so each member is truthy. *)
Inductive OperatingSystem := Windows | Macintosh | Linux.

Definition OperatingSystem_value (os : OperatingSystem) : Z :=
  match os with Windows => 1 | Macintosh => 2 | Linux => 3 end.

Global Instance OperatingSystem_eq_dec : EqDecision OperatingSystem.
Proof. solve_decision. Defined.

Global Instance RemoteTunnel_eq_dec : EqDecision RemoteTunnel.
Proof. solve_decision. Defined.

(** *** [extractLocalHostUriMetaDataForPortMapping] *)

(** One alternative [h] of the group, then [:(\d+)$]. The pair is
    [(localhostMatch[1], localhostMatch[2])]. *)
Definition match_alternative (input h : string) : option (string * string) :=
  rest ← strip_prefix h input;
  ds ← strip_prefix ":" rest;
  if digits1 ds then Some (h, ds) else None.

(** [/^(localhost|127\.0\.0\.1|0\.0\.0\.0):(\d+)$/.exec(input)]: the
    alternatives are tried from left to right. *)
Definition localhost_alternatives : list string := ["localhost"; "127.0.0.1"; "0.0.0.0"].

Definition localhostMatch_exec (input : string) : option (string * string) :=
  head (omap (match_alternative input) localhost_alternatives).

Definition extractLocalHostUriMetaDataForPortMapping (uri : URI) : option (string * Z) :=
  if bool_decide (scheme uri ≠ "http") && bool_decide (scheme uri ≠ "https") then None
  else
    match localhostMatch_exec (authority uri) with
    | None => None
    | Some (address, digits) => Some (address, number_of_digits 0 digits)
    end.

Definition LOCALHOST_ADDRESSES : list string :=
  ["localhost"; "127.0.0.1"; "0:0:0:0:0:0:0:1"; "::1"].

Definition isLocalhost (host : string) : bool :=
  bool_decide (host ∈ LOCALHOST_ADDRESSES).

Definition ALL_INTERFACES_ADDRESSES : list string := ["0.0.0.0"; "0:0:0:0:0:0:0:0"; "::"].

Definition isAllInterfaces (host : string) : bool :=
  bool_decide (host ∈ ALL_INTERFACES_ADDRESSES).

Definition getOtherLocalhost (host : string) : option string :=
  if decide (host = "localhost") then Some "127.0.0.1"
  else if decide (host = "127.0.0.1") then Some "localhost"
  else None.

(** [canTunnel] does not read the service's state. *)
Definition canTunnel (uri : URI) : bool :=
  bool_decide (is_Some (extractLocalHostUriMetaDataForPortMapping uri)).

(** ** The store of [AbstractTunnelService] *)

(** References to the inner [Map] objects, to the [{ refcount, value }]
    record objects, and to promises of a tunnel. *)
Abbreviation MapRef := nat (only parsing).
Abbreviation RecRef := nat (only parsing).
Abbreviation PromiseId := nat (only parsing).

(** [{ refcount: number, readonly value: Promise<RemoteTunnel | undefined> }] *)
Record TunnelRecord := { refcount : Z; value : PromiseId }.

(** [forwardPort] answers with a promise or with [undefined]. *)
Record ITunnelProvider := {
  forwardPort : TunnelOptions → TunnelCreationOptions → option PromiseId;
}.

Inductive IAddressProvider := AddressProvider (id : nat).

(** What the service does to its collaborators, in the order it does it:
    lines handed to [logService], calls of the provider, firings of the two
    emitters, and [dispose(silent)] on a tunnel the provider made. *)
Inductive Effect :=
  | LogTrace (msg : string)
  | LogWarn (msg : string)
  | ForwardPort (tunnelOptions : TunnelOptions) (creationInfo : TunnelCreationOptions)
  | TunnelOpened (tunnel : RemoteTunnel)
  | TunnelClosed (host : string) (port : Z)
  | UnderlyingDispose (tunnel : RemoteTunnel) (silent : bool).

(** The calls of [forwardPort], the tunnels whose [dispose] was called and
    the firings of [onTunnelClosed] among some effects. *)
Definition forwardPort_calls (es : list Effect) : list (TunnelOptions * TunnelCreationOptions) :=
  omap (λ e, match e with ForwardPort o c => Some (o, c) | _ => None end) es.

Definition disposed_tunnels (es : list Effect) : list RemoteTunnel :=
  omap (λ e, match e with UnderlyingDispose t _ => Some t | _ => None end) es.

Definition closed_events (es : list Effect) : list (string * Z) :=
  omap (λ e, match e with TunnelClosed h p => Some (h, p) | _ => None end) es.

Record TunnelService := {
  _tunnels : gmap string MapRef;
  portMaps : gmap MapRef (gmap Z RecRef);
  records : gmap RecRef TunnelRecord;
  _tunnelProvider : option ITunnelProvider;
  _canElevate : bool;
  _canMakePublic : bool;
  effects : list Effect;
}.

Definition new_service : TunnelService :=
  {| _tunnels := ∅; portMaps := ∅; records := ∅; _tunnelProvider := None;
     _canElevate := false; _canMakePublic := false; effects := [] |}.

Definition set_tunnels (f : gmap string MapRef → gmap string MapRef) (st : TunnelService) :=
  {| _tunnels := f (_tunnels st); portMaps := portMaps st; records := records st;
     _tunnelProvider := _tunnelProvider st; _canElevate := _canElevate st;
     _canMakePublic := _canMakePublic st; effects := effects st |}.

Definition set_portMaps (f : gmap MapRef (gmap Z RecRef) → gmap MapRef (gmap Z RecRef))
    (st : TunnelService) :=
  {| _tunnels := _tunnels st; portMaps := f (portMaps st); records := records st;
     _tunnelProvider := _tunnelProvider st; _canElevate := _canElevate st;
     _canMakePublic := _canMakePublic st; effects := effects st |}.

Definition set_records (f : gmap RecRef TunnelRecord → gmap RecRef TunnelRecord)
    (st : TunnelService) :=
  {| _tunnels := _tunnels st; portMaps := portMaps st; records := f (records st);
     _tunnelProvider := _tunnelProvider st; _canElevate := _canElevate st;
     _canMakePublic := _canMakePublic st; effects := effects st |}.

Definition set_provider (p : option ITunnelProvider) (e pub : bool) (st : TunnelService) :=
  {| _tunnels := _tunnels st; portMaps := portMaps st; records := records st;
     _tunnelProvider := p; _canElevate := e; _canMakePublic := pub;
     effects := effects st |}.

Definition emit (e : Effect) (st : TunnelService) :=
  {| _tunnels := _tunnels st; portMaps := portMaps st; records := records st;
     _tunnelProvider := _tunnelProvider st; _canElevate := _canElevate st;
     _canMakePublic := _canMakePublic st; effects := effects st ++ [e] |}.

(** The inner map behind a reference. The references that the service
    holds are those it got from [new Map()]; one that the store does not
    have reads as the empty map. *)
Definition portMap (st : TunnelService) (m : MapRef) : gmap Z RecRef :=
  default ∅ (portMaps st !! m).

(** [new Map()] *)
Definition new_Map (st : TunnelService) : MapRef * TunnelService :=
  let m := fresh (dom (portMaps st)) in (m, set_portMaps (insert m ∅) st).

(** [new Map(entries)]: the entries are set one after the other, a later
    entry replaces an earlier one with the same key. *)
Definition Map_of_entries (entries : list (Z * RecRef)) : gmap Z RecRef :=
  foldl (λ m e, <[e.1 := e.2]> m) ∅ entries.

(** [m.set(k, r)] and [m.delete(k)] on the object behind [m] *)
Definition Map_set (m : MapRef) (k : Z) (r : RecRef) (st : TunnelService) :=
  set_portMaps (insert m (<[k := r]> (portMap st m))) st.

Definition Map_delete (m : MapRef) (k : Z) (st : TunnelService) :=
  set_portMaps (insert m (delete k (portMap st m))) st.

(** The object literal [{ refcount, value }] *)
Definition new_record (rec : TunnelRecord) (st : TunnelService) : RecRef * TunnelService :=
  let r := fresh (dom (records st)) in (r, set_records (insert r rec) st).

(** An assignment to [r.refcount] *)
Definition update_refcount (r : RecRef) (f : Z → Z) (st : TunnelService) :=
  set_records (alter (λ rec, {| refcount := f (refcount rec); value := value rec |}) r) st.

(** The record stored for [(host, port)], read through both levels. *)
Definition stored_ref (st : TunnelService) (host : string) (port : Z) : option RecRef :=
  m ← _tunnels st !! host; portMap st m !! port.

Definition stored_record (st : TunnelService) (host : string) (port : Z) : option TunnelRecord :=
  r ← stored_ref st host port; records st !! r.

(** Template literals print a missing value as [undefined]. *)
Definition show_string (s : option string) : string := default "undefined" s.
Definition show_number (n : option Z) : string := from_option pretty "undefined" n.

Section Service.

(** [isWindows] of [vs/base/common/platform]: the platform the code runs on. *)
Variable isWindows : bool.

Definition isPortPrivileged (port : Z) (os : option OperatingSystem) : bool :=
  match os with
  | Some o =>
      if bool_decide (OperatingSystem_value o ≠ 0)
      then bool_decide (o ≠ Windows) && bool_decide (port < 1024)
      else negb isWindows && bool_decide (port < 1024)
  | None => negb isWindows && bool_decide (port < 1024)
  end.

(** *** [setTunnelProvider] *)

(** The result says which of the two disposables is handed back: [true] for
    the one that clears the provider again ([setTunnelProvider_dispose]),
    [false] for the empty one. *)
Definition setTunnelProvider (provider : option ITunnelProvider)
    (features : TunnelProviderFeatures) (st : TunnelService) : bool * TunnelService :=
  match provider with
  | None => (false, set_provider None false false st)
  | Some _ => (true, set_provider provider (elevation features) (feat_public features) st)
  end.

Definition setTunnelProvider_dispose (st : TunnelService) : TunnelService :=
  set_provider None false false st.

(** *** [addTunnelToMap] *)
Definition addTunnelToMap (remoteHost : string) (remotePort : Z) (tunnel : PromiseId)
    (st : TunnelService) : TunnelService :=
  let st1 :=
    if bool_decide (is_Some (_tunnels st !! remoteHost)) then st
    else let '(m, st') := new_Map st in set_tunnels (insert remoteHost m) st' in
  match _tunnels st1 !! remoteHost with
  | Some m =>
      let '(r, st2) := new_record {| refcount := 1; value := tunnel |} st1 in
      Map_set m remotePort r st2
  | None => st1
  end.

(** *** [getTunnelFromMap] *)
Definition getTunnelFromMap (remoteHost : string) (remotePort : Z)
    (st : TunnelService) : option RecRef :=
  let otherLocalhost := getOtherLocalhost remoteHost in
  let portMap' : option (gmap Z RecRef) :=
    match otherLocalhost with
    | Some other =>
        let firstMap := _tunnels st !! remoteHost in
        let secondMap := _tunnels st !! other in
        match firstMap, secondMap with
        | Some f, Some s =>
            Some (Map_of_entries (map_to_list (portMap st f) ++ map_to_list (portMap st s)))
        | Some f, None => Some (portMap st f)
        | None, _ => portMap st <$> secondMap
        end
    | None => portMap st <$> (_tunnels st !! remoteHost)
    end in
  match portMap' with
  | Some pm => pm !! remotePort
  | None => None
  end.

(** *** [createWithProvider] *)
Definition createWithProvider (tunnelProvider : ITunnelProvider) (remoteHost : string)
    (remotePort : Z) (localPort : option Z) (elevateIfNeeded isPublic : bool)
    (st : TunnelService) : option PromiseId * TunnelService :=
  let st := emit (LogTrace ("Creating tunnel with provider " +:+ remoteHost +:+ ":" +:+
               pretty remotePort +:+ " on local port " +:+ show_number localPort +:+ ".")) st in
  let preferredLocalPort := match localPort with None => remotePort | Some l => l end in
  let creationInfo :=
    {| elevationRequired :=
         Some (if elevateIfNeeded then isPortPrivileged preferredLocalPort None else false) |} in
  let tunnelOptions :=
    {| remoteAddress := {| host := remoteHost; port := remotePort |};
       localAddressPort := localPort; label := None; opt_public := Some isPublic |} in
  let tunnel := forwardPort tunnelProvider tunnelOptions creationInfo in
  let st := emit (ForwardPort tunnelOptions creationInfo) st in
  let st := emit (LogTrace "Tunnel created by provider.") st in
  match tunnel with
  | Some p => (tunnel, addTunnelToMap remoteHost remotePort p st)
  | None => (tunnel, st)
  end.

(** *** [retainOrCreateTunnel] *)

(** Modelled from the spec: [retainOrCreateTunnel] is abstract in
    [AbstractTunnelService] and the subclass that implements it is not part
    of the sources at hand.  The spec has [openTunnel] idempotent per (host,
    port): a caller that finds a record increments its refcount and shares
    the stored promise; otherwise the tunnel is created with the provider,
    when there is one. *)
Definition retainOrCreateTunnel (addressProvider : IAddressProvider) (remoteHost : string)
    (remotePort : Z) (localPort : option Z) (elevateIfNeeded isPublic : bool)
    (st : TunnelService) : option PromiseId * TunnelService :=
  match getTunnelFromMap remoteHost remotePort st with
  | Some existing =>
      (value <$> records st !! existing, update_refcount existing (λ n, n + 1) st)
  | None =>
      match _tunnelProvider st with
      | Some provider =>
          createWithProvider provider remoteHost remotePort localPort elevateIfNeeded isPublic st
      | None => (None, st)
      end
  end.

(** *** [tryDisposeTunnel] *)

(** Up to [return disposePromise]. [Some (tunnel, p)] stands for
    [disposePromise], the promise [tunnel.value.then(...)] with [p] the
    promise in [tunnel.value]; [None] is the path that does nothing. *)
Definition tryDisposeTunnel (remoteHost : string) (remotePort : Z) (tunnel : RecRef)
    (st : TunnelService) : option (RecRef * PromiseId) * TunnelService :=
  match records st !! tunnel with
  | Some rec =>
      if bool_decide (refcount rec ≤ 0) then
        let st := emit (LogTrace ("Tunnel is being disposed " +:+ remoteHost +:+ ":" +:+
                     pretty remotePort +:+ ".")) st in
        let st :=
          match _tunnels st !! remoteHost with
          | Some m => Map_delete m remotePort st
          | None => st
          end in
        (Some (tunnel, value rec), st)
      else (None, st)
  | None => (None, st)
  end.

(** The callback given to [tunnel.value.then], up to [await
    tunnel.dispose(true)]: the result is the tunnel whose disposal is
    awaited. *)
Definition tryDisposeTunnel_then (tunnel : option RemoteTunnel) (st : TunnelService)
    : option RemoteTunnel * TunnelService :=
  match tunnel with
  | Some t => (Some t, emit (UnderlyingDispose t true) st)
  | None => (None, st)
  end.

(** The rest of that callback, once [tunnel.dispose(true)] has settled. *)
Definition tryDisposeTunnel_resume (tunnel : RemoteTunnel) (st : TunnelService) : TunnelService :=
  emit (TunnelClosed (tunnelRemoteHost tunnel) (tunnelRemotePort tunnel)) st.

(** *** [makeTunnel] *)

(** The data of the object literal; its [dispose] member is
    [makeTunnel_dispose tunnel]. *)
Definition makeTunnel (tunnel : RemoteTunnel) : RemoteTunnel :=
  {| tunnelRemotePort := tunnelRemotePort tunnel;
     tunnelRemoteHost := tunnelRemoteHost tunnel;
     tunnelLocalPort := tunnelLocalPort tunnel;
     localAddress := localAddress tunnel;
     public := public tunnel |}.

Definition makeTunnel_dispose (tunnel : RemoteTunnel) (st : TunnelService)
    : option (RecRef * PromiseId) * TunnelService :=
  match _tunnels st !! tunnelRemoteHost tunnel with
  | Some existingHost =>
      match portMap st existingHost !! tunnelRemotePort tunnel with
      | Some existing =>
          let st := update_refcount existing (λ n, n - 1) st in
          tryDisposeTunnel (tunnelRemoteHost tunnel) (tunnelRemotePort tunnel) existing st
      | None => (None, st)
      end
  | None => (None, st)
  end.

(** *** [closeTunnel] *)
Definition closeTunnel (remoteHost : string) (remotePort : Z) (st : TunnelService)
    : option (RecRef * PromiseId) * TunnelService :=
  match _tunnels st !! remoteHost with
  | Some portMap' =>
      match portMap st portMap' !! remotePort with
      | Some value' =>
          let st := update_refcount value' (λ _, 0) st in
          tryDisposeTunnel remoteHost remotePort value' st
      | None => (None, st)
      end
  | None => (None, st)
  end.

(** *** [removeEmptyTunnelFromMap] *)

(** [await v] on a value [v] that is no promise and has no [then] member
    resumes with [v] itself.  The value awaited in
    [removeEmptyTunnelFromMap] is what [hostMap.get(remotePort)] gives: a
    [{ refcount, value }] record or [undefined]. *)
Definition await_value {A} (v : A) : A := v.

(** Up to the [await]: what the suspended call holds on to, the inner map
    and the record found in it. Nothing is written yet. *)
Definition removeEmptyTunnelFromMap (remoteHost : string) (remotePort : Z)
    (st : TunnelService) : option (MapRef * option RecRef) :=
  match _tunnels st !! remoteHost with
  | Some hostMap => Some (hostMap, portMap st hostMap !! remotePort)
  | None => None
  end.

(** After the [await]. A record object is truthy, [undefined] is not. *)
Definition removeEmptyTunnelFromMap_resume (remoteHost : string) (remotePort : Z)
    (hostMap : MapRef) (tunnel : option RecRef) (st : TunnelService) : TunnelService :=
  let tunnelResult := await_value tunnel in
  let st := if bool_decide (tunnelResult = None) then Map_delete hostMap remotePort st else st in
  if bool_decide (size (portMap st hostMap) = 0%nat)
  then set_tunnels (delete remoteHost) st
  else st.

(** *** [openTunnel] *)

(** What [openTunnel] hands back: [undefined], or the promise
    [resolvedTunnel.then(...)] whose callback is [openTunnel_then remoteHost
    remotePort]. *)
Inductive OpenResult :=
  | OpenUndefined
  | OpenThen (resolvedTunnel : PromiseId) (remoteHost : string) (remotePort : Z).

(** [if (!remoteHost) { remoteHost = 'localhost'; }]: a missing host and
    the empty string are falsy. *)
Definition default_host (remoteHost : option string) : string :=
  match remoteHost with
  | None | Some "" => "localhost"
  | Some h => h
  end.

Definition openTunnel (addressProvider : option IAddressProvider) (remoteHost : option string)
    (remotePort : Z) (localPort : option Z) (elevateIfNeeded isPublic : option bool)
    (st : TunnelService) : OpenResult * TunnelService :=
  let elevateIfNeeded := default false elevateIfNeeded in
  let isPublic := default false isPublic in
  let st := emit (LogTrace ("openTunnel request for " +:+ show_string remoteHost +:+ ":" +:+
               pretty remotePort +:+ " on local port " +:+ show_number localPort +:+ ".")) st in
  match addressProvider with
  | None => (OpenUndefined, st)
  | Some addressProvider =>
      let remoteHost := default_host remoteHost in
      let '(resolvedTunnel, st) :=
        retainOrCreateTunnel addressProvider remoteHost remotePort localPort
          elevateIfNeeded isPublic st in
      match resolvedTunnel with
      | None => (OpenUndefined, emit (LogTrace "Tunnel was not created.") st)
      | Some p => (OpenThen p remoteHost remotePort, st)
      end
  end.

(** The callback of [resolvedTunnel.then]. The first component is what
    the promise handed to the caller resolves to; the second is the call of
    [removeEmptyTunnelFromMap] left suspended at its [await], when there is
    one. *)
Definition openTunnel_then (remoteHost : string) (remotePort : Z)
    (tunnel : option RemoteTunnel) (st : TunnelService)
    : option RemoteTunnel * option (MapRef * option RecRef) * TunnelService :=
  match tunnel with
  | None =>
      let st := emit (LogTrace "New tunnel is undefined.") st in
      (None, removeEmptyTunnelFromMap remoteHost remotePort st, st)
  | Some tunnel =>
      let st := emit (LogTrace "New tunnel established.") st in
      let newTunnel := makeTunnel tunnel in
      let st :=
        if bool_decide (tunnelRemoteHost tunnel ≠ remoteHost) ||
           bool_decide (tunnelRemotePort tunnel ≠ remotePort)
        then emit (LogWarn "Created tunnel does not match requirements of requested tunnel. Host or port mismatch.") st
        else st in
      let st := emit (TunnelOpened newTunnel) st in
      (Some newTunnel, None, st)
  end.

(** *** Calls run to their end *)

(** [closeTunnel] together with the code it leaves waiting, [v] being what
    the promise of the record settles to. *)
Definition run_dispose (k : option (RecRef * PromiseId)) (v : option RemoteTunnel)
    (st : TunnelService) : TunnelService :=
  match k with
  | None => st
  | Some _ =>
      let '(awaited, st) := tryDisposeTunnel_then v st in
      match awaited with
      | Some t => tryDisposeTunnel_resume t st
      | None => st
      end
  end.

Definition closeTunnel_run (remoteHost : string) (remotePort : Z) (v : option RemoteTunnel)
    (st : TunnelService) : TunnelService :=
  let '(k, st) := closeTunnel remoteHost remotePort st in run_dispose k v st.


(** The callback of [openTunnel] with the call of
    [removeEmptyTunnelFromMap] it starts. *)
Definition openTunnel_then_run (remoteHost : string) (remotePort : Z)
    (tunnel : option RemoteTunnel) (st : TunnelService) : option RemoteTunnel * TunnelService :=
  let '(result, suspended, st) := openTunnel_then remoteHost remotePort tunnel st in
  match suspended with
  | Some (hostMap, found) =>
      (result, removeEmptyTunnelFromMap_resume remoteHost remotePort hostMap found st)
  | None => (result, st)
  end.

(** ** The service among its callers *)

(** Code that waits for a promise: the callbacks registered with [.then]
    and the calls suspended at an [await]. *)
Inductive Continuation :=
  | KOpenTunnel (resolvedTunnel : PromiseId) (remoteHost : string) (remotePort : Z)
  | KRemoveEmpty (remoteHost : string) (remotePort : Z) (hostMap : MapRef)
      (tunnel : option RecRef)
  | KTryDispose (tunnel : RecRef) (value : PromiseId)
  | KDisposed (tunnel : RemoteTunnel).

(** The service, the promises of the provider that have settled with
    their values, and the code waiting to run. *)
Record Config := {
  service : TunnelService;
  settled : gmap PromiseId (option RemoteTunnel);
  pending : list Continuation;
}.

Definition initial : Config :=
  {| service := new_service; settled := ∅; pending := [] |}.

Definition open_continuation (r : OpenResult) : list Continuation :=
  match r with
  | OpenUndefined => []
  | OpenThen p h q => [KOpenTunnel p h q]
  end.

Definition dispose_continuation (r : option (RecRef * PromiseId)) : list Continuation :=
  match r with
  | None => []
  | Some (tunnel, p) => [KTryDispose tunnel p]
  end.

(** A caller enters [openTunnel], the [dispose] of a handle, or
    [closeTunnel]: the service moves on and what the call leaves waiting is
    queued. *)
Definition call_openTunnel (ap : option IAddressProvider) (h : option string) (q : Z)
    (lp : option Z) (e pub : option bool) (c : Config) : Config :=
  {| service := (openTunnel ap h q lp e pub (service c)).2;
     settled := settled c;
     pending := pending c ++ open_continuation (openTunnel ap h q lp e pub (service c)).1 |}.

Definition call_dispose (t : RemoteTunnel) (c : Config) : Config :=
  {| service := (makeTunnel_dispose t (service c)).2;
     settled := settled c;
     pending := pending c ++ dispose_continuation (makeTunnel_dispose t (service c)).1 |}.

Definition call_closeTunnel (h : string) (q : Z) (c : Config) : Config :=
  {| service := (closeTunnel h q (service c)).2;
     settled := settled c;
     pending := pending c ++ dispose_continuation (closeTunnel h q (service c)).1 |}.

(** One turn of the event loop: a caller enters one of the public
    operations, a promise of the provider settles, or one piece of waiting
    code runs. *)
Inductive step : Config → Config → Prop :=
  | step_openTunnel c ap h q lp e pub : step c (call_openTunnel ap h q lp e pub c)
  | step_dispose c t : step c (call_dispose t c)
  | step_closeTunnel c h q : step c (call_closeTunnel h q c)
  | step_setTunnelProvider c prov feat :
      step c
        {| service := (setTunnelProvider prov feat (service c)).2;
           settled := settled c; pending := pending c |}
  | step_provider_disposed c :
      step c
        {| service := setTunnelProvider_dispose (service c);
           settled := settled c; pending := pending c |}
  | step_settle c p v :
      settled c !! p = None →
      step c {| service := service c; settled := <[p := v]> (settled c);
                pending := pending c |}
  | step_run_open c k1 k2 p h q v :
      pending c = k1 ++ KOpenTunnel p h q :: k2 →
      settled c !! p = Some v →
      step c
        {| service := (openTunnel_then h q v (service c)).2;
           settled := settled c;
           pending := k1 ++ k2 ++
             match (openTunnel_then h q v (service c)).1.2 with
             | Some (hostMap, tunnel) => [KRemoveEmpty h q hostMap tunnel]
             | None => []
             end |}
  | step_run_removeEmpty c k1 k2 h q hostMap tunnel :
      pending c = k1 ++ KRemoveEmpty h q hostMap tunnel :: k2 →
      step c
        {| service := removeEmptyTunnelFromMap_resume h q hostMap tunnel (service c);
           settled := settled c; pending := k1 ++ k2 |}
  | step_run_tryDispose c k1 k2 r p v :
      pending c = k1 ++ KTryDispose r p :: k2 →
      settled c !! p = Some v →
      step c
        {| service := (tryDisposeTunnel_then v (service c)).2;
           settled := settled c;
           pending := k1 ++ k2 ++
             match (tryDisposeTunnel_then v (service c)).1 with
             | Some t => [KDisposed t]
             | None => []
             end |}
  | step_run_disposed c k1 k2 t :
      pending c = k1 ++ KDisposed t :: k2 →
      step c
        {| service := tryDisposeTunnel_resume t (service c);
           settled := settled c; pending := k1 ++ k2 |}.

Definition reachable (c : Config) : Prop := rtc step initial c.

(** *** What holds of every reachable configuration *)

(** Record [r] sits under key [q] of the inner map [m]. *)
Definition slot (st : TunnelService) (m : MapRef) (q : Z) (r : RecRef) : Prop :=
  portMap st m !! q = Some r.

(** Every record in an inner map is held at least once, and sits in one
    place only. *)
Definition store_inv (st : TunnelService) : Prop :=
  (∀ m q r, slot st m q r → ∃ rec, records st !! r = Some rec ∧ 1 ≤ refcount rec) ∧
  (∀ m1 q1 m2 q2 r, slot st m1 q1 r → slot st m2 q2 r → m1 = m2 ∧ q1 = q2).

(** Record [r], with promise [p], has been let go: its refcount is 0 and
    no inner map holds it. *)
Definition released (st : TunnelService) (r : RecRef) (p : PromiseId) : Prop :=
  (∃ rec, records st !! r = Some rec ∧ refcount rec = 0 ∧ value rec = p) ∧
  ∀ m q, ¬ slot st m q r.

Definition config_inv (c : Config) : Prop :=
  store_inv (service c) ∧
  ∀ r p, KTryDispose r p ∈ pending c → released (service c) r p.

(** [st'] keeps what holds of [st]. *)
Definition preserves (st st' : TunnelService) : Prop :=
  store_inv st → store_inv st' ∧ ∀ r p, released st r p → released st' r p.

End Service.

End Tunnel.

(** ** Data events of the terminals *)

Module DataEvents.

(** Modelled from the spec: [TerminalDataBufferer] of
    [vs/workbench/contrib/terminal/common/terminalDataBuffering] is not part
    of the sources at hand.  The spec has it buffer the data events of each
    terminal before flushing: writes that arrive before the flush are kept in
    arrival order and handed on as one event when the flush comes.  When the
    flush comes is left open, so the flush is an event of its own here. *)
Record TerminalDataBufferer := {
  _terminalBufferMap : gmap Z (list string);
}.

(** [TerminalDataEventTracker]: its bufferer, and the terminals on whose
    [onData] it listens. *)
Record TerminalDataEventTracker := {
  _bufferer : TerminalDataBufferer;
  listening : gset Z;
}.

(** A call [_callback(id, data)], which [$startSendingDataEvents] makes a
    call of [$acceptTerminalProcessData] on the extension host. *)
Definition Message : Type := Z * string.

Definition join (data : list string) : string := foldr String.app "" data.

(** Modelled from the spec: the listener that [startBuffering] puts on
    the data event of terminal [id]; the data is appended to what is
    buffered for the terminal. *)
Definition buffer_data (id : Z) (data : string) (b : TerminalDataBufferer) : TerminalDataBufferer :=
  {| _terminalBufferMap :=
       <[id := default [] (_terminalBufferMap b !! id) ++ [data]]> (_terminalBufferMap b) |}.

(** Modelled from the spec: the flush; what is buffered for the terminal
    goes out as one event and the buffer is gone. *)
Definition _flushBuffer (id : Z) (b : TerminalDataBufferer) : TerminalDataBufferer * list Message :=
  match _terminalBufferMap b !! id with
  | Some data => ({| _terminalBufferMap := delete id (_terminalBufferMap b) |}, [(id, join data)])
  | None => (b, [])
  end.

(** [TerminalDataEventTracker._registerInstance]: [startBuffering(instance.id,
    instance.onData)], after which the bufferer listens to the terminal. *)
Definition _registerInstance (id : Z) (t : TerminalDataEventTracker) : TerminalDataEventTracker :=
  {| _bufferer := _bufferer t; listening := {[id]} ∪ listening t |}.

(** Modelled from the spec: [stopBuffering(id)], called when the terminal
    is disposed; what is buffered goes out, the listener goes away. *)
Definition stopBuffering (id : Z) (t : TerminalDataEventTracker)
    : TerminalDataEventTracker * list Message :=
  let '(b, out) := _flushBuffer id (_bufferer t) in
  ({| _bufferer := b; listening := listening t ∖ {[id]} |}, out).

(** The constructor, given the ids of [terminalInstances]. *)
Definition new_tracker (terminalInstances : list Z) : TerminalDataEventTracker :=
  foldr _registerInstance
    {| _bufferer := {| _terminalBufferMap := ∅ |}; listening := ∅ |} terminalInstances.

(** What happens around a tracker. *)
Inductive Event :=
  | InstanceCreated (id : Z)
  | InstanceDisposed (id : Z)
  | InstanceData (id : Z) (data : string)
  | Flush (id : Z).

Definition handle (e : Event) (t : TerminalDataEventTracker)
    : TerminalDataEventTracker * list Message :=
  match e with
  | InstanceCreated id => (_registerInstance id t, [])
  | InstanceDisposed id => stopBuffering id t
  | InstanceData id data =>
      if bool_decide (id ∈ listening t)
      then ({| _bufferer := buffer_data id data (_bufferer t); listening := listening t |}, [])
      else (t, [])
  | Flush id =>
      let '(b, out) := _flushBuffer id (_bufferer t) in
      ({| _bufferer := b; listening := listening t |}, out)
  end.

Fixpoint run (es : list Event) (t : TerminalDataEventTracker)
    : TerminalDataEventTracker * list Message :=
  match es with
  | [] => (t, [])
  | e :: es =>
      let '(t1, out1) := handle e t in
      let '(t2, out2) := run es t1 in
      (t2, out1 ++ out2)
  end.

(** The data of terminal [id] among forwarded messages, and what is still
    buffered for it. *)
Definition forwarded (id : Z) (out : list Message) : list string :=
  (filter (λ m, m.1 = id) out).*2.

Definition buffered (id : Z) (t : TerminalDataEventTracker) : list string :=
  default [] (_terminalBufferMap (_bufferer t) !! id).

(** Whether a buffer is there for terminal [id], as a number. *)
Definition present (id : Z) (t : TerminalDataEventTracker) : nat :=
  match _terminalBufferMap (_bufferer t) !! id with Some _ => 1 | None => 0 end.

(** What a tracker hears of terminal [id] in one event, and whether it
    listens to [id] after the event, [l] telling whether it does before. *)
Definition hears (id : Z) (l : bool) (e : Event) : list string :=
  match e with
  | InstanceData i d => if l && bool_decide (i = id) then [d] else []
  | _ => []
  end.

Definition listens (id : Z) (l : bool) (e : Event) : bool :=
  match e with
  | InstanceCreated i => l || bool_decide (i = id)
  | InstanceDisposed i => l && bool_decide (i ≠ id)
  | _ => l
  end.

(** The data events of terminal [id] that a tracker hears over time. *)
Fixpoint heard (id : Z) (l : bool) (es : list Event) : list string :=
  match es with
  | [] => []
  | e :: es => hears id l e ++ heard id (listens id l e) es
  end.

End DataEvents.

(** ** [MainThreadTerminalService] *)

Module Terminal.

(** [number | string] *)
Inductive TerminalIdentifier :=
  | NumberId (id : Z)
  | StringId (id : string).

Record ITerminalInstance := {
  instance_id : Z;
  title : string;
  initialDataEvents : option (list string);
}.

Record ITerminalProcessExtHostProxy := { terminalId : Z }.

Record ITerminalDimensions := { cols : Z; rows : Z }.

Record IShellLaunchConfig := {
  name : option string;
  executable : option string;
  extHostTerminalId : option string;
}.

(** What the terminal service answers when it is asked. *)
Record ITerminalService := {
  terminalInstances : list ITerminalInstance;
  getInstanceFromId : Z → option ITerminalInstance;
  getActiveInstance : option ITerminalInstance;
}.

(** Calls made on the collaborators: the terminal service, a terminal
    instance, a process proxy, the log service. *)
Inductive Call :=
  | setActiveInstance (t : ITerminalInstance)
  | showPanel (focus : bool)
  | hidePanel
  | instance_dispose (t : ITerminalInstance)
  | instance_sendText (t : ITerminalInstance) (text : string) (addNewLine : bool)
  | emitTitle (p : ITerminalProcessExtHostProxy) (title : string)
  | emitData (p : ITerminalProcessExtHostProxy) (data : string)
  | emitReady (p : ITerminalProcessExtHostProxy) (pid : Z) (cwd : string)
  | emitExit (p : ITerminalProcessExtHostProxy) (exitCode : option Z)
  | emitOverrideDimensions (p : ITerminalProcessExtHostProxy) (d : option ITerminalDimensions)
  | emitInitialCwd (p : ITerminalProcessExtHostProxy) (initialCwd : string)
  | emitCwd (p : ITerminalProcessExtHostProxy) (cwd : string)
  | emitResolvedShellLaunchConfig (p : ITerminalProcessExtHostProxy) (c : IShellLaunchConfig)
  | logError (msg : string)
  | acceptTerminalProcessData (terminalId : Z) (data : string).

Record MainThreadTerminalService := {
  _extHostTerminalIds : gmap string Z;
  _terminalProcessProxies : gmap Z ITerminalProcessExtHostProxy;
  _dataEventTracker : option DataEvents.TerminalDataEventTracker;
  _linkProvider : bool;
}.

Definition delete_proxy (terminalId : Z) (st : MainThreadTerminalService) :=
  {| _extHostTerminalIds := _extHostTerminalIds st;
     _terminalProcessProxies := delete terminalId (_terminalProcessProxies st);
     _dataEventTracker := _dataEventTracker st;
     _linkProvider := _linkProvider st |}.

Section Bridge.

Variable ts : ITerminalService.

Definition _getTerminalId (id : TerminalIdentifier) (st : MainThreadTerminalService) : option Z :=
  match id with
  | NumberId n => Some n
  | StringId s => _extHostTerminalIds st !! s
  end.

Definition _getTerminalInstance (id : TerminalIdentifier) (st : MainThreadTerminalService)
    : option ITerminalInstance :=
  match _getTerminalId id st with
  | Some rendererId => getInstanceFromId ts rendererId
  | None => None
  end.

(** [$show] *)
Definition show (id : TerminalIdentifier) (preserveFocus : bool)
    (st : MainThreadTerminalService) : MainThreadTerminalService * list Call :=
  match _getTerminalInstance id st with
  | Some terminalInstance => (st, [setActiveInstance terminalInstance; showPanel (negb preserveFocus)])
  | None => (st, [])
  end.

(** [$hide] *)
Definition hide (id : TerminalIdentifier) (st : MainThreadTerminalService)
    : MainThreadTerminalService * list Call :=
  let rendererId := _getTerminalId id st in
  match getActiveInstance ts with
  | Some instance =>
      if bool_decide (Some (instance_id instance) = rendererId) then (st, [hidePanel])
      else (st, [])
  | None => (st, [])
  end.

(** [$dispose] *)
Definition dispose (id : TerminalIdentifier) (st : MainThreadTerminalService)
    : MainThreadTerminalService * list Call :=
  match _getTerminalInstance id st with
  | Some terminalInstance => (st, [instance_dispose terminalInstance])
  | None => (st, [])
  end.

(** [$sendText] *)
Definition sendText (id : TerminalIdentifier) (text : string) (addNewLine : bool)
    (st : MainThreadTerminalService) : MainThreadTerminalService * list Call :=
  match _getTerminalInstance id st with
  | Some terminalInstance => (st, [instance_sendText terminalInstance text addNewLine])
  | None => (st, [])
  end.

(** [$sendProcessTitle] *)
Definition sendProcessTitle (terminalId : Z) (title : string)
    (st : MainThreadTerminalService) : MainThreadTerminalService * list Call :=
  match _terminalProcessProxies st !! terminalId with
  | Some terminalProcess => (st, [emitTitle terminalProcess title])
  | None => (st, [])
  end.

(** [$sendProcessData] *)
Definition sendProcessData (terminalId : Z) (data : string)
    (st : MainThreadTerminalService) : MainThreadTerminalService * list Call :=
  match _terminalProcessProxies st !! terminalId with
  | Some terminalProcess => (st, [emitData terminalProcess data])
  | None => (st, [])
  end.

(** [$sendProcessReady] *)
Definition sendProcessReady (terminalId : Z) (pid : Z) (cwd : string)
    (st : MainThreadTerminalService) : MainThreadTerminalService * list Call :=
  match _terminalProcessProxies st !! terminalId with
  | Some terminalProcess => (st, [emitReady terminalProcess pid cwd])
  | None => (st, [])
  end.

(** [$sendProcessExit] *)
Definition sendProcessExit (terminalId : Z) (exitCode : option Z)
    (st : MainThreadTerminalService) : MainThreadTerminalService * list Call :=
  match _terminalProcessProxies st !! terminalId with
  | Some terminalProcess => (delete_proxy terminalId st, [emitExit terminalProcess exitCode])
  | None => (st, [])
  end.

(** [$sendOverrideDimensions] *)
Definition sendOverrideDimensions (terminalId : Z) (dimensions : option ITerminalDimensions)
    (st : MainThreadTerminalService) : MainThreadTerminalService * list Call :=
  match _terminalProcessProxies st !! terminalId with
  | Some terminalProcess => (st, [emitOverrideDimensions terminalProcess dimensions])
  | None => (st, [])
  end.

(** [$sendProcessInitialCwd] *)
Definition sendProcessInitialCwd (terminalId : Z) (initialCwd : string)
    (st : MainThreadTerminalService) : MainThreadTerminalService * list Call :=
  match _terminalProcessProxies st !! terminalId with
  | Some terminalProcess => (st, [emitInitialCwd terminalProcess initialCwd])
  | None => (st, [])
  end.

(** [$sendProcessCwd] *)
Definition sendProcessCwd (terminalId : Z) (cwd : string)
    (st : MainThreadTerminalService) : MainThreadTerminalService * list Call :=
  match _terminalProcessProxies st !! terminalId with
  | Some terminalProcess => (st, [emitCwd terminalProcess cwd])
  | None => (st, [])
  end.

Definition _getTerminalProcess (terminalId : Z) (st : MainThreadTerminalService)
    : option ITerminalProcessExtHostProxy * list Call :=
  match _terminalProcessProxies st !! terminalId with
  | None => (None, [logError ("Unknown terminal: " +:+ pretty terminalId)])
  | Some terminal => (Some terminal, [])
  end.

(** [$sendResolvedLaunchConfig] *)
Definition sendResolvedLaunchConfig (terminalId : Z) (shellLaunchConfig : IShellLaunchConfig)
    (st : MainThreadTerminalService) : MainThreadTerminalService * list Call :=
  match getInstanceFromId ts terminalId with
  | Some instance =>
      match _getTerminalProcess terminalId st with
      | (Some p, calls) => (st, calls ++ [emitResolvedShellLaunchConfig p shellLaunchConfig])
      | (None, calls) => (st, calls)
      end
  | None => (st, [])
  end.

Definition _onTerminalData (terminalId : Z) (data : string) : list Call :=
  [acceptTerminalProcessData terminalId data].

Definition set_dataEventTracker (t : option DataEvents.TerminalDataEventTracker)
    (st : MainThreadTerminalService) :=
  {| _extHostTerminalIds := _extHostTerminalIds st;
     _terminalProcessProxies := _terminalProcessProxies st;
     _dataEventTracker := t;
     _linkProvider := _linkProvider st |}.

(** [$startSendingDataEvents] *)
Definition startSendingDataEvents (st : MainThreadTerminalService)
    : MainThreadTerminalService * list Call :=
  match _dataEventTracker st with
  | None =>
      (set_dataEventTracker
         (Some (DataEvents.new_tracker (instance_id <$> terminalInstances ts))) st,
       t ← terminalInstances ts;
       d ← default [] (initialDataEvents t);
       _onTerminalData (instance_id t) d)
  | Some _ => (st, [])
  end.

(** Something happens to a terminal while a tracker may be there: what the
    tracker lets through goes to [_onTerminalData]. *)
Definition tracker_event (e : DataEvents.Event) (st : MainThreadTerminalService)
    : MainThreadTerminalService * list Call :=
  match _dataEventTracker st with
  | Some t =>
      let '(t', out) := DataEvents.handle e t in
      (set_dataEventTracker (Some t') st, m ← out; _onTerminalData m.1 m.2)
  | None => (st, [])
  end.

End Bridge.

End Terminal.

(** ** Sample runs *)

Module Examples.
Import Tunnel.

(** A provider that answers each request with the promise numbered 7. *)
Definition provider7 : ITunnelProvider := {| forwardPort := λ _ _, Some 7%nat |}.

Definition features : TunnelProviderFeatures := {| elevation := true; feat_public := false |}.

Definition caller : IAddressProvider := AddressProvider 0.

(** The service once the provider is set, after one [openTunnel] for
    [localhost:3000], and after a second one. *)
Definition with_provider : TunnelService :=
  (setTunnelProvider (Some provider7) features new_service).2.

(** The service after [createWithProvider] for [localhost:3000]. *)
Definition created : option nat * TunnelService :=
  createWithProvider false provider7 "localhost" 3000 None false false with_provider.

Definition opened : OpenResult * TunnelService :=
  openTunnel false (Some caller) (Some "localhost") 3000 None None None with_provider.

Definition opened_twice : OpenResult * TunnelService :=
  openTunnel false (Some caller) (Some "localhost") 3000 None None None opened.2.

(** The tunnel that promise 7 may settle to. *)
Definition tunnel3000 : RemoteTunnel :=
  {| tunnelRemotePort := 3000; tunnelRemoteHost := "localhost";
     tunnelLocalPort := Some 3000; localAddress := "localhost:3000"; public := false |}.

(** The same three moments as configurations, and [closeTunnel] after
    them. *)
Definition c_provider : Config :=
  {| service := (setTunnelProvider (Some provider7) features (service initial)).2;
     settled := settled initial; pending := pending initial |}.

Definition c_opened : Config :=
  call_openTunnel false (Some caller) (Some "localhost") 3000 None None None c_provider.

Definition c_closed : Config := call_closeTunnel "localhost" 3000 c_opened.

(** A terminal service with one terminal, numbered 1, which is the active
    one, and a bridge that knows it under an id of the extension host and has
    a process proxy for it. *)
Definition terminal1 : Terminal.ITerminalInstance :=
  {| Terminal.instance_id := 1; Terminal.title := "bash";
     Terminal.initialDataEvents := None |}.

Definition terminals : Terminal.ITerminalService :=
  {| Terminal.terminalInstances := [terminal1];
     Terminal.getInstanceFromId := λ n, if decide (n = 1) then Some terminal1 else None;
     Terminal.getActiveInstance := Some terminal1 |}.

Definition bridge : Terminal.MainThreadTerminalService :=
  {| Terminal._extHostTerminalIds := {["uuid-1" := 1]};
     Terminal._terminalProcessProxies := {[1 := {| Terminal.terminalId := 1 |}]};
     Terminal._dataEventTracker := Some (DataEvents.new_tracker [1]);
     Terminal._linkProvider := false |}.

End Examples.

(** ** More of [tunnel.ts] *)

Module TunnelRuns.
Import Tunnel.

(** The getters [canElevate] and [canMakePublic]. *)
Definition canElevate (st : TunnelService) : bool := _canElevate st.
Definition canMakePublic (st : TunnelService) : bool := _canMakePublic st.

(** [dispose] of the disposable that [setTunnelProvider] handed back.  The
    result of [setTunnelProvider] says which of its two disposables that is:
    the one that clears the provider, or the empty one of the call without a
    provider. *)
Definition disposable_dispose (clears : bool) (st : TunnelService) : TunnelService :=
  if clears then setTunnelProvider_dispose st else st.

(** The provider and the two flags of [st'] are those of [st]. *)
Definition same_provider (st st' : TunnelService) : Prop :=
  _tunnelProvider st' = _tunnelProvider st ∧ _canElevate st' = _canElevate st ∧
  _canMakePublic st' = _canMakePublic st.

(** Without a provider both flags are off. *)
Definition flags_wf (st : TunnelService) : Prop :=
  _tunnelProvider st = None → canElevate st = false ∧ canMakePublic st = false.


(** [dispose] of the tunnel made by [makeTunnel tunnel], called [k] times
    one after the other. *)
Definition dispose_times (k : nat) (tunnel : RemoteTunnel) (st : TunnelService)
    : TunnelService :=
  Nat.iter k (λ s, (makeTunnel_dispose tunnel s).2) st.

(** [removeEmptyTunnelFromMap] with nothing running between its two
    halves. *)
Definition removeEmptyTunnelFromMap_run (remoteHost : string) (remotePort : Z)
    (st : TunnelService) : TunnelService :=
  match removeEmptyTunnelFromMap remoteHost remotePort st with
  | Some (hostMap, found) =>
      removeEmptyTunnelFromMap_resume remoteHost remotePort hostMap found st
  | None => st
  end.

(** From [st] to [st'] no host gains a map and the store loses none. *)
Definition store_grows (st st' : TunnelService) : Prop :=
  (∀ h m, _tunnels st' !! h = Some m → _tunnels st !! h = Some m) ∧
  (∀ m, is_Some (portMaps st !! m) → is_Some (portMaps st' !! m)).

(** Each host of [_tunnels] has an inner map of its own, and the store
    holds it. *)
Definition hosts_wf (st : TunnelService) : Prop :=
  (∀ h m, _tunnels st !! h = Some m → is_Some (portMaps st !! m)) ∧
  (∀ h1 h2 m, _tunnels st !! h1 = Some m → _tunnels st !! h2 = Some m → h1 = h2).

End TunnelRuns.

(** ** More of [mainThreadTerminalService.ts] *)

Module TerminalRuns.
Import Terminal.

Definition set_extHostTerminalIds (f : gmap string Z → gmap string Z)
    (st : MainThreadTerminalService) :=
  {| _extHostTerminalIds := f (_extHostTerminalIds st);
     _terminalProcessProxies := _terminalProcessProxies st;
     _dataEventTracker := _dataEventTracker st;
     _linkProvider := _linkProvider st |}.

Definition set_terminalProcessProxies
    (f : gmap Z ITerminalProcessExtHostProxy → gmap Z ITerminalProcessExtHostProxy)
    (st : MainThreadTerminalService) :=
  {| _extHostTerminalIds := _extHostTerminalIds st;
     _terminalProcessProxies := f (_terminalProcessProxies st);
     _dataEventTracker := _dataEventTracker st;
     _linkProvider := _linkProvider st |}.

Section Requests.

Local Set Implicit Arguments.

(** Values that the bridge hands on as it gets them: the arguments and the
    environment of a shell, a URI and its serialized form. *)
Variables ShellArgs Env UriComponents URI : Type.

(** [URI.revive] *)
Variable URI_revive : option UriComponents → option URI.

(** [TerminalLaunchConfig] of the extension host protocol *)
Record TerminalLaunchConfig := {
  lc_name : option string;
  shellPath : option string;
  shellArgs : option ShellArgs;
  lc_cwd : option (string + UriComponents);
  lc_env : option Env;
  lc_waitOnExit : option bool;
  lc_strictEnv : option bool;
  lc_hideFromUser : option bool;
  lc_isExtensionTerminal : option bool;
  lc_isFeatureTerminal : option bool;
}.

(** The object literal that [$createTerminal] builds. *)
Record ShellLaunchConfig := {
  slc_name : option string;
  slc_executable : option string;
  slc_args : option ShellArgs;
  slc_cwd : option (string + URI);
  slc_waitOnExit : option bool;
  slc_ignoreConfigurationCwd : option bool;
  slc_env : option Env;
  slc_strictEnv : option bool;
  slc_hideFromUser : option bool;
  slc_isExtensionTerminal : option bool;
  slc_extHostTerminalId : option string;
  slc_isFeatureTerminal : option bool;
}.

(** [IShellLaunchConfigDto] as [_onRequestSpawnExtHostProcess] fills it *)
Record IShellLaunchConfigDto := {
  dto_name : option string;
  dto_executable : option string;
  dto_args : option ShellArgs;
  dto_cwd : option (string + URI);
  dto_env : option Env;
  dto_flowControl : option bool;
}.

Record ITerminalDimensionsDto := { dto_columns : Z; dto_rows : Z }.

Record ISpawnExtHostProcessRequest := {
  spawn_proxy : ITerminalProcessExtHostProxy;
  spawn_shellLaunchConfig : ShellLaunchConfig;
  activeWorkspaceRootUri : option URI;
  spawn_cols : Z;
  spawn_rows : Z;
  isWorkspaceShellAllowed : bool;
}.

Record IStartExtensionTerminalRequest := {
  start_proxy : ITerminalProcessExtHostProxy;
  start_cols : Z;
  start_rows : Z;
}.

(** The events of a proxy that the bridge listens to. *)
Inductive ProxyEvent :=
  | onAcknowledgeDataEvent
  | onInput
  | onResize
  | onShutdown
  | onRequestCwd
  | onRequestInitialCwd
  | onRequestLatency.

(** Calls on the terminal service, the log service, the extension host
    and a proxy.  The promise that [$spawnExtHostProcess] answers with hands
    its outcome to the callback of the request whether it is fulfilled or
    rejected, the one of [$startExtensionTerminal] when it is fulfilled. *)
Inductive RequestCall :=
  | createTerminal_call (shellLaunchConfig : ShellLaunchConfig)
  | logTrace_spawning (terminalId : Z) (dto : IShellLaunchConfigDto)
      (request : ISpawnExtHostProcessRequest)
  | spawnExtHostProcess (terminalId : Z) (dto : IShellLaunchConfigDto)
      (activeWorkspaceRootUri : option URI) (cols rows : Z) (isWorkspaceShellAllowed : bool)
  | startExtensionTerminal (terminalId : Z) (initialDimensions : option ITerminalDimensionsDto)
  | listen (proxy : ITerminalProcessExtHostProxy) (event : ProxyEvent).

(** [typeof launchConfig.cwd === 'string' ? launchConfig.cwd :
    URI.revive(launchConfig.cwd)] *)
Definition revive_cwd (cwd : option (string + UriComponents)) : option (string + URI) :=
  match cwd with
  | Some (inl s) => Some (inl s)
  | Some (inr u) => inr <$> URI_revive (Some u)
  | None => inr <$> URI_revive None
  end.

(** [$createTerminal]; [terminal] is what [createTerminal] of the terminal
    service answers with. *)
Definition createTerminal (extHostTerminalId : string) (launchConfig : TerminalLaunchConfig)
    (terminal : ITerminalInstance) (st : MainThreadTerminalService)
    : MainThreadTerminalService * list RequestCall :=
  let shellLaunchConfig :=
    {| slc_name := lc_name launchConfig;
       slc_executable := shellPath launchConfig;
       slc_args := shellArgs launchConfig;
       slc_cwd := revive_cwd (lc_cwd launchConfig);
       slc_waitOnExit := lc_waitOnExit launchConfig;
       slc_ignoreConfigurationCwd := Some true;
       slc_env := lc_env launchConfig;
       slc_strictEnv := lc_strictEnv launchConfig;
       slc_hideFromUser := lc_hideFromUser launchConfig;
       slc_isExtensionTerminal := lc_isExtensionTerminal launchConfig;
       slc_extHostTerminalId := Some extHostTerminalId;
       slc_isFeatureTerminal := lc_isFeatureTerminal launchConfig |} in
  (set_extHostTerminalIds (insert extHostTerminalId (instance_id terminal)) st,
   [createTerminal_call shellLaunchConfig]).

(** [!this._remoteAuthority]: [null] and the empty string are falsy. *)
Definition no_authority (remoteAuthority : option string) : bool :=
  match remoteAuthority with
  | None | Some "" => true
  | Some _ => false
  end.

(** [_onRequestSpawnExtHostProcess]; [flowControl] is what the
    configuration service has for the terminal section. *)
Definition _onRequestSpawnExtHostProcess (remoteAuthority : option string)
    (flowControl : option bool) (request : ISpawnExtHostProcessRequest)
    (st : MainThreadTerminalService) : MainThreadTerminalService * list RequestCall :=
  if no_authority remoteAuthority then (st, [])
  else
    let proxy := spawn_proxy request in
    let st := set_terminalProcessProxies (insert (terminalId proxy) proxy) st in
    let shellLaunchConfigDto :=
      {| dto_name := slc_name (spawn_shellLaunchConfig request);
         dto_executable := slc_executable (spawn_shellLaunchConfig request);
         dto_args := slc_args (spawn_shellLaunchConfig request);
         dto_cwd := slc_cwd (spawn_shellLaunchConfig request);
         dto_env := slc_env (spawn_shellLaunchConfig request);
         dto_flowControl := flowControl |} in
    (st,
     [logTrace_spawning (terminalId proxy) shellLaunchConfigDto request;
      spawnExtHostProcess (terminalId proxy) shellLaunchConfigDto
        (activeWorkspaceRootUri request) (spawn_cols request) (spawn_rows request)
        (isWorkspaceShellAllowed request);
      listen proxy onAcknowledgeDataEvent; listen proxy onInput; listen proxy onResize;
      listen proxy onShutdown; listen proxy onRequestCwd; listen proxy onRequestInitialCwd;
      listen proxy onRequestLatency]).

(** [_onRequestStartExtensionTerminal]; of numbers, 0 is the falsy one. *)
Definition _onRequestStartExtensionTerminal (request : IStartExtensionTerminalRequest)
    (st : MainThreadTerminalService) : MainThreadTerminalService * list RequestCall :=
  let proxy := start_proxy request in
  let st := set_terminalProcessProxies (insert (terminalId proxy) proxy) st in
  let initialDimensions :=
    if bool_decide (start_cols request ≠ 0) && bool_decide (start_rows request ≠ 0)
    then Some {| dto_columns := start_cols request; dto_rows := start_rows request |}
    else None in
  (st,
   [startExtensionTerminal (terminalId proxy) initialDimensions;
    listen proxy onInput; listen proxy onShutdown; listen proxy onRequestCwd;
    listen proxy onRequestInitialCwd; listen proxy onRequestLatency]).

End Requests.

Arguments startExtensionTerminal {ShellArgs Env URI} terminalId initialDimensions.
Arguments listen {ShellArgs Env URI} proxy event.
Arguments _onRequestStartExtensionTerminal {ShellArgs Env URI} request st.

End TerminalRuns.

(** *** The link provider *)

Module LinkProvider.

(** [_linkProvider] with the disposable named: the disposables that
    [registerLinkProvider] hands back are numbered by the caller. *)
Inductive LinkCall :=
  | registerLinkProvider (handle : nat)
  | linkProvider_dispose (handle : nat)
  | toDispose_dispose.

(** [this._linkProvider?.dispose()] *)
Definition dispose_current (linkProvider : option nat) : list LinkCall :=
  match linkProvider with
  | Some h => [linkProvider_dispose h]
  | None => []
  end.

(** [$startLinkProvider]; [handle] is what [registerLinkProvider] answers
    with. *)
Definition startLinkProvider (handle : nat) (linkProvider : option nat)
    : option nat * list LinkCall :=
  (Some handle, dispose_current linkProvider ++ [registerLinkProvider handle]).

(** [$stopLinkProvider] *)
Definition stopLinkProvider (linkProvider : option nat) : option nat * list LinkCall :=
  (None, dispose_current linkProvider).

(** [dispose] of the bridge: the field keeps its value. *)
Definition dispose (linkProvider : option nat) : option nat * list LinkCall :=
  (linkProvider, toDispose_dispose :: dispose_current linkProvider).

Inductive Op :=
  | StartLinkProvider (handle : nat)
  | StopLinkProvider
  | Dispose.

Definition apply_op (op : Op) (linkProvider : option nat) : option nat * list LinkCall :=
  match op with
  | StartLinkProvider h => startLinkProvider h linkProvider
  | StopLinkProvider => stopLinkProvider linkProvider
  | Dispose => dispose linkProvider
  end.

(** The calls one after the other, with all they call. *)
Fixpoint run (ops : list Op) (linkProvider : option nat) : option nat * list LinkCall :=
  match ops with
  | [] => (linkProvider, [])
  | op :: ops =>
      let '(lp, calls) := apply_op op linkProvider in
      let '(lp', calls') := run ops lp in
      (lp', calls ++ calls')
  end.

Definition handles (ops : list Op) : list nat :=
  omap (λ op, match op with StartLinkProvider h => Some h | _ => None end) ops.

Definition registered (calls : list LinkCall) : list nat :=
  omap (λ c, match c with registerLinkProvider h => Some h | _ => None end) calls.

Definition disposed (calls : list LinkCall) : list nat :=
  omap (λ c, match c with linkProvider_dispose h => Some h | _ => None end) calls.

End LinkProvider.

(** ** [MainThreadTesting] *)

Module Testing.

(** A [Map] with string keys as JavaScript has it: it is read in the order
    in which the keys came in, and [set] on a key that is there keeps its
    place. *)
Definition JSMap (V : Type) := list (string * V).

Fixpoint Map_set {V} (k : string) (v : V) (m : JSMap V) : JSMap V :=
  match m with
  | [] => [(k, v)]
  | e :: m' => if decide (e.1 = k) then (k, v) :: m' else e :: Map_set k v m'
  end.

Fixpoint Map_get {V} (k : string) (m : JSMap V) : option V :=
  match m with
  | [] => None
  | e :: m' => if decide (e.1 = k) then Some e.2 else Map_get k m'
  end.

Fixpoint Map_delete {V} (k : string) (m : JSMap V) : JSMap V :=
  match m with
  | [] => []
  | e :: m' => if decide (e.1 = k) then m' else e :: Map_delete k m'
  end.

Definition Map_values {V} (m : JSMap V) : list V := snd <$> m.
Definition Map_keys {V} (m : JSMap V) : list string := fst <$> m.

Section Subscriptions.

Local Set Implicit Arguments.

Variables ExtHostTestingResource UriComponents URI : Type.

(** [URI.revive] and [getTestSubscriptionKey] *)
Variable URI_revive : UriComponents → URI.
Variable getTestSubscriptionKey : ExtHostTestingResource → URI → string.

(** Calls on the test service and on the disposables it hands back, which
    the caller numbers. *)
Inductive TestCall :=
  | subscribeToDiffs_call (resource : ExtHostTestingResource) (uri : URI)
  | subscription_dispose (disposable : nat)
  | updateRootProviderCount (delta : Z).

(** [$subscribeToDiffs]; [disposable] is what [subscribeToDiffs] of the
    test service answers with. *)
Definition subscribeToDiffs (resource : ExtHostTestingResource) (uriComponents : UriComponents)
    (disposable : nat) (testSubscriptions : JSMap nat) : JSMap nat * list TestCall :=
  let uri := URI_revive uriComponents in
  (Map_set (getTestSubscriptionKey resource uri) disposable testSubscriptions,
   [subscribeToDiffs_call resource uri]).

(** [$unsubscribeFromDiffs] *)
Definition unsubscribeFromDiffs (resource : ExtHostTestingResource)
    (uriComponents : UriComponents) (testSubscriptions : JSMap nat)
    : JSMap nat * list TestCall :=
  let key := getTestSubscriptionKey resource (URI_revive uriComponents) in
  (Map_delete key testSubscriptions,
   match Map_get key testSubscriptions with
   | Some d => [subscription_dispose d]
   | None => []
   end).

(** [dispose] *)
Definition dispose (testSubscriptions : JSMap nat) : JSMap nat * list TestCall :=
  ([], updateRootProviderCount (-1) :: (subscription_dispose <$> Map_values testSubscriptions)).

Inductive Op :=
  | SubscribeToDiffs (resource : ExtHostTestingResource) (uriComponents : UriComponents)
      (disposable : nat)
  | UnsubscribeFromDiffs (resource : ExtHostTestingResource) (uriComponents : UriComponents)
  | Dispose.

Definition apply_op (op : Op) (testSubscriptions : JSMap nat) : JSMap nat * list TestCall :=
  match op with
  | SubscribeToDiffs r u d => subscribeToDiffs r u d testSubscriptions
  | UnsubscribeFromDiffs r u => unsubscribeFromDiffs r u testSubscriptions
  | Dispose => dispose testSubscriptions
  end.

(** The calls one after the other, with all they call. *)
Fixpoint run (ops : list Op) (testSubscriptions : JSMap nat) : JSMap nat * list TestCall :=
  match ops with
  | [] => (testSubscriptions, [])
  | op :: ops =>
      let '(m, calls) := apply_op op testSubscriptions in
      let '(m', calls') := run ops m in
      (m', calls ++ calls')
  end.

Definition disposables (ops : list Op) : list nat :=
  omap (λ op, match op with SubscribeToDiffs _ _ d => Some d | _ => None end) ops.

(** The disposables that a run takes out of the map without a call of
    their [dispose]: those that [$subscribeToDiffs] finds under its key and
    writes over. *)
Fixpoint replaced (ops : list Op) (testSubscriptions : JSMap nat) : list nat :=
  match ops with
  | [] => []
  | op :: ops =>
      match op with
      | SubscribeToDiffs r u _ =>
          option_list (Map_get (getTestSubscriptionKey r (URI_revive u)) testSubscriptions)
      | _ => []
      end ++ replaced ops (apply_op op testSubscriptions).1
  end.

Definition disposed (calls : list TestCall) : list nat :=
  omap (λ c, match c with subscription_dispose d => Some d | _ => None end) calls.

End Subscriptions.

Arguments subscription_dispose {ExtHostTestingResource URI} disposable.
Arguments updateRootProviderCount {ExtHostTestingResource URI} delta.
Arguments Dispose {ExtHostTestingResource UriComponents}.
Arguments dispose {ExtHostTestingResource URI} testSubscriptions.

End Testing.

(** * Properties *)

(** ** Strings *)

Lemma strip_prefix_Some p s r : strip_prefix p s = Some r ↔ s = p +:+ r.
Proof.
  revert s. induction p as [|a p IH]; intros s; simpl.
  - split; [by intros [= ->] | by intros ->].
  - destruct s as [|b s]; [split; discriminate|].
    destruct (decide (a = b)) as [->|Hne].
    + rewrite IH. split; [intros ->; done | by intros [= ->]].
    + split; [discriminate | intros [= ? ?]; done].
Qed.

Lemma strip_prefix_app p r : strip_prefix p (p +:+ r) = Some r.
Proof. by apply strip_prefix_Some. Qed.

Lemma is_digit_range c : is_digit c = true ↔ (48 ≤ nat_of_ascii c ≤ 57)%nat.
Proof.
  destruct c as [[] [] [] [] [] [] [] []]; vm_compute; split;
    first [ discriminate | done | lia | intros _; lia ].
Qed.

Lemma all_digits_decimal s : digits1 s = true ↔ decimal s.
Proof.
  split.
  - destruct s as [|c s]; [discriminate|]. simpl.
    revert c. induction s as [|d s IH]; intros c H.
    + apply andb_true_iff in H as [H _]. constructor. by apply is_digit_range.
    + apply andb_true_iff in H as [H1 H2]. apply decimal_more.
      * by apply is_digit_range.
      * by apply IH.
  - induction 1 as [c Hc | c s Hc _ IH]; simpl.
    + apply andb_true_iff. split; [by apply is_digit_range | done].
    + apply andb_true_iff. split; [by apply is_digit_range |].
      destruct s; [discriminate | exact IH].
Qed.

(** ** [tunnel.ts]: the functions without state *)

Section TunnelPure.
Import Tunnel.

Lemma match_alternative_Some input h a ds :
  match_alternative input h = Some (a, ds) ↔
  a = h ∧ decimal ds ∧ input = h +:+ ":" +:+ ds.
Proof.
  unfold match_alternative. split.
  - intros (rest & E1 & (ds' & E2 & H)%bind_Some)%bind_Some.
    destruct (digits1 ds') eqn:E3; [|discriminate].
    injection H as <- <-. apply strip_prefix_Some in E1, E2. subst.
    split_and!; [done | by apply all_digits_decimal | done].
  - intros (-> & Hd & ->). apply bind_Some. exists (":" +:+ ds).
    split; [apply strip_prefix_app|]. apply bind_Some. exists ds.
    split; [apply (strip_prefix_app ":")|].
    apply all_digits_decimal in Hd. by rewrite Hd.
Qed.

Lemma localhostMatch_exec_Some input a ds :
  localhostMatch_exec input = Some (a, ds) →
  a ∈ localhost_alternatives ∧ decimal ds ∧ input = a +:+ ":" +:+ ds.
Proof.
  unfold localhostMatch_exec, localhost_alternatives. simpl.
  destruct (match_alternative input "localhost") as [[a1 d1]|] eqn:E1; simpl.
  { intros [= -> ->]. apply match_alternative_Some in E1 as (-> & ? & ?).
    split_and!; [set_solver | done..]. }
  destruct (match_alternative input "127.0.0.1") as [[a2 d2]|] eqn:E2; simpl.
  { intros [= -> ->]. apply match_alternative_Some in E2 as (-> & ? & ?).
    split_and!; [set_solver | done..]. }
  destruct (match_alternative input "0.0.0.0") as [[a3 d3]|] eqn:E3; simpl.
  { intros [= -> ->]. apply match_alternative_Some in E3 as (-> & ? & ?).
    split_and!; [set_solver | done..]. }
  discriminate.
Qed.

Lemma head_omap_is_Some {A B} (f : A → option B) (l : list A) x :
  x ∈ l → is_Some (f x) → is_Some (head (omap f l)).
Proof.
  intros Hx [y Hy]. induction l as [|a l IH]; [by apply elem_of_nil in Hx|].
  simpl. destruct (f a) as [b|] eqn:Ea; [by eexists|].
  apply elem_of_cons in Hx as [->|Hx]; [congruence | by apply IH].
Qed.

Lemma localhostMatch_exec_complete h ds :
  h ∈ localhost_alternatives → decimal ds →
  is_Some (localhostMatch_exec (h +:+ ":" +:+ ds)).
Proof.
  intros Hh Hd. apply (head_omap_is_Some _ _ h); [done|].
  exists (h, ds). by apply match_alternative_Some.
Qed.

Lemma alternative_unique h1 ds1 h2 ds2 :
  h1 ∈ localhost_alternatives → h2 ∈ localhost_alternatives →
  h1 +:+ ":" +:+ ds1 = h2 +:+ ":" +:+ ds2 → h1 = h2 ∧ ds1 = ds2.
Proof.
  unfold localhost_alternatives. intros H1 H2 E.
  repeat (apply elem_of_cons in H1 as [->|H1]); [| | |by apply elem_of_nil in H1];
    (repeat (apply elem_of_cons in H2 as [->|H2]); [| | |by apply elem_of_nil in H2]);
    simpl in E; by simplify_eq.
Qed.

Lemma canTunnel_true uri :
  canTunnel uri = true ↔
  (scheme uri = "http" ∨ scheme uri = "https") ∧
  ∃ h ds, h ∈ localhost_alternatives ∧ decimal ds ∧ authority uri = h +:+ ":" +:+ ds.
Proof.
  unfold canTunnel, extractLocalHostUriMetaDataForPortMapping.
  rewrite bool_decide_eq_true. split.
  - intros [x Hx].
    destruct (bool_decide (scheme uri ≠ "http") && bool_decide (scheme uri ≠ "https")) eqn:Es;
      [discriminate|].
    split.
    { apply andb_false_iff in Es as [Es|Es]; apply bool_decide_eq_false in Es;
        [left | right]; by apply dec_stable. }
    destruct (localhostMatch_exec (authority uri)) as [[a ds]|] eqn:Em; [|discriminate].
    apply localhostMatch_exec_Some in Em as (? & ? & ?). eauto.
  - intros [Hs (h & ds & Hh & Hd & Ha)].
    assert (bool_decide (scheme uri ≠ "http") && bool_decide (scheme uri ≠ "https") = false)
      as ->.
    { apply andb_false_iff. destruct Hs as [Hs|Hs]; [left | right];
        apply bool_decide_eq_false; by rewrite Hs; intros []. }
    rewrite Ha. destruct (localhostMatch_exec_complete h ds Hh Hd) as [[a d] ->]. eauto.
Qed.

Lemma canTunnel_no_alternative uri :
  (∀ h ds, h ∈ localhost_alternatives → authority uri ≠ h +:+ ":" +:+ ds) →
  canTunnel uri = false.
Proof.
  intros Hno. destruct (canTunnel uri) eqn:E; [|done].
  apply canTunnel_true in E as [_ (h & ds & Hh & _ & Ha)]. by destruct (Hno h ds Hh).
Qed.

(** C10. [canTunnel uri] holds exactly when the scheme is [http] or [https]
    and the authority is one of [localhost], [127.0.0.1], [0.0.0.0], then a
    colon, then a decimal numeral, and the authority fixes which of the three
    it is; the IPv6 loopback addresses count as localhost for [isLocalhost],
    yet a URI whose authority starts with one of them (bare or in brackets)
    cannot be tunnelled. *)
Theorem canTunnel_spec :
  (∀ uri, canTunnel uri = true ↔
     (scheme uri = "http" ∨ scheme uri = "https") ∧
     ∃ h ds, h ∈ ["localhost"; "127.0.0.1"; "0.0.0.0"] ∧ decimal ds ∧
             authority uri = h +:+ ":" +:+ ds) ∧
  (∀ h1 ds1 h2 ds2,
     h1 ∈ ["localhost"; "127.0.0.1"; "0.0.0.0"] →
     h2 ∈ ["localhost"; "127.0.0.1"; "0.0.0.0"] →
     h1 +:+ ":" +:+ ds1 = h2 +:+ ":" +:+ ds2 → h1 = h2 ∧ ds1 = ds2) ∧
  (isLocalhost "::1" = true ∧ isLocalhost "0:0:0:0:0:0:0:1" = true) ∧
  (∀ uri rest,
     authority uri = "::1" +:+ rest ∨ authority uri = "[::1]" +:+ rest ∨
     authority uri = "0:0:0:0:0:0:0:1" +:+ rest ∨
     authority uri = "[0:0:0:0:0:0:0:1]" +:+ rest →
     canTunnel uri = false).
Proof.
  split_and!.
  - apply canTunnel_true.
  - apply alternative_unique.
  - done.
  - done.
  - intros uri rest Ha. apply canTunnel_no_alternative. intros h ds Hh E.
    unfold localhost_alternatives in Hh.
    repeat (apply elem_of_cons in Hh as [->|Hh]); [| | |by apply elem_of_nil in Hh];
      destruct Ha as [Ha|[Ha|[Ha|Ha]]]; rewrite Ha in E; simpl in E; by simplify_eq.
Qed.

Lemma canTunnel_spec_witness :
  canTunnel {| scheme := "https"; authority := "127.0.0.1:8080"; path := "/";
               query := ""; fragment := "" |} = true ∧
  canTunnel {| scheme := "http"; authority := "[::1]:8080"; path := "/";
               query := ""; fragment := "" |} = false.
Proof.
  destruct canTunnel_spec as (Hiff & _ & _ & Hv6). split.
  - apply Hiff. simpl. split; [by right|].
    exists "127.0.0.1", "8080". split; [|split].
    + apply list_elem_of_further, list_elem_of_here.
    + by apply all_digits_decimal.
    + reflexivity.
  - apply (Hv6 _ ":8080"). simpl. right. by left.
Defined.

End TunnelPure.

(** ** [tunnel.ts]: the service *)

Section TunnelService.
Import Tunnel.
Variable isWindows : bool.

Lemma effects_addTunnelToMap h q p st :
  effects (addTunnelToMap h q p st) = effects st.
Proof.
  unfold addTunnelToMap. case_bool_decide as Hh; simpl.
  - destruct Hh as [m ->]. done.
  - rewrite lookup_insert_eq. done.
Qed.

(** C7. [isPortPrivileged port os] is true exactly when the system is not
    Windows and [port < 1024], the system being [os] when it is given and
    the running platform otherwise; [createWithProvider] asks the provider
    with [elevationRequired] set to [isPortPrivileged] of the preferred
    local port ([localPort], or [remotePort] without one) when
    [elevateIfNeeded] holds, and to [false] when it does not. *)
Theorem isPortPrivileged_elevation :
  (∀ (p : Z) (os : OperatingSystem),
     isPortPrivileged isWindows p (Some os) = true ↔ os ≠ Windows ∧ p < 1024) ∧
  (∀ p : Z, isPortPrivileged isWindows p None = true ↔ isWindows = false ∧ p < 1024) ∧
  (∀ provider remoteHost remotePort localPort (elevateIfNeeded isPublic : bool) st,
     let preferredLocalPort := match localPort with Some l => l | None => remotePort end in
     let required :=
       if elevateIfNeeded then isPortPrivileged isWindows preferredLocalPort None else false in
     let creationInfo := {| elevationRequired := Some required |} in
     let tunnelOptions :=
       {| remoteAddress := {| host := remoteHost; port := remotePort |};
          localAddressPort := localPort; label := None; opt_public := Some isPublic |} in
     let result :=
       createWithProvider isWindows provider remoteHost remotePort localPort
         elevateIfNeeded isPublic st in
     result.1 = forwardPort provider tunnelOptions creationInfo ∧
     forwardPort_calls (effects result.2) =
       forwardPort_calls (effects st) ++ [(tunnelOptions, creationInfo)]).
Proof.
  split_and!.
  - intros p os. unfold isPortPrivileged.
    rewrite bool_decide_eq_true_2 by (by destruct os).
    rewrite andb_true_iff, !bool_decide_eq_true. done.
  - intros p. unfold isPortPrivileged.
    rewrite andb_true_iff, negb_true_iff, bool_decide_eq_true. done.
  - intros provider remoteHost remotePort localPort elevateIfNeeded isPublic st.
    cbv zeta. unfold createWithProvider.
    destruct (forwardPort provider _ _) as [pr|] eqn:E; cbn [fst snd];
      rewrite ?effects_addTunnelToMap; cbn [effects emit];
      unfold forwardPort_calls; rewrite !omap_app; cbn [omap list_omap];
      rewrite !app_nil_r; done.
Qed.

(** *** [getTunnelFromMap] *)

Lemma foldl_insert_entries (l : list (Z * nat)) (m : gmap Z nat) :
  NoDup l.*1 → foldl (λ m e, <[e.1 := e.2]> m) m l = list_to_map l ∪ m.
Proof.
  revert m. induction l as [|[k v] l IH]; intros m Hnd.
  - simpl. by rewrite (left_id_L ∅ (∪)).
  - rewrite fmap_cons in Hnd. apply NoDup_cons in Hnd as [Hk Hnd].
    simpl. rewrite IH by done.
    rewrite <-insert_union_l. symmetry. apply insert_union_r.
    by apply not_elem_of_list_to_map_1.
Qed.

Lemma Map_of_entries_merge (f s : gmap Z nat) :
  Map_of_entries (map_to_list f ++ map_to_list s) = s ∪ f.
Proof.
  unfold Map_of_entries. rewrite foldl_app.
  rewrite !foldl_insert_entries by apply NoDup_fst_map_to_list.
  rewrite !list_to_map_to_list. by rewrite (right_id_L ∅ (∪)).
Qed.

Lemma getTunnelFromMap_no_alias h q st :
  getOtherLocalhost h = None → getTunnelFromMap h q st = stored_ref st h q.
Proof.
  intros Ho. unfold getTunnelFromMap, stored_ref. rewrite Ho.
  by destruct (_tunnels st !! h).
Qed.

Lemma getTunnelFromMap_other h q st :
  h ≠ "localhost" → h ≠ "127.0.0.1" → getTunnelFromMap h q st = stored_ref st h q.
Proof.
  intros H1 H2. apply getTunnelFromMap_no_alias. unfold getOtherLocalhost.
  by rewrite !decide_False.
Qed.

Lemma getTunnelFromMap_alias h other q st :
  getOtherLocalhost h = Some other →
  getTunnelFromMap h q st =
    match stored_ref st other q with
    | Some r => Some r
    | None => stored_ref st h q
    end.
Proof.
  intros Ho. unfold getTunnelFromMap, stored_ref. rewrite Ho.
  destruct (_tunnels st !! h) as [f|], (_tunnels st !! other) as [s|]; simpl; try done.
  - rewrite Map_of_entries_merge, lookup_union.
    by destruct (portMap st s !! q), (portMap st f !! q).
  - by destruct (portMap st s !! q).
Qed.

(** C6. A query for [localhost] finds the record stored under
    [127.0.0.1] for the port, and otherwise the one stored under [localhost]
    itself; a query for [127.0.0.1] does the same with the two hosts
    exchanged; a query for any other host finds what is stored under that
    host and nothing else. *)
Theorem getTunnelFromMap_localhost_alias (st : TunnelService) (q : Z) :
  getTunnelFromMap "localhost" q st =
    match stored_ref st "127.0.0.1" q with
    | Some r => Some r
    | None => stored_ref st "localhost" q
    end ∧
  getTunnelFromMap "127.0.0.1" q st =
    match stored_ref st "localhost" q with
    | Some r => Some r
    | None => stored_ref st "127.0.0.1" q
    end ∧
  (∀ h, h ≠ "localhost" → h ≠ "127.0.0.1" → getTunnelFromMap h q st = stored_ref st h q).
Proof.
  split_and!.
  - by apply getTunnelFromMap_alias.
  - by apply getTunnelFromMap_alias.
  - intros h. apply getTunnelFromMap_other.
Qed.

(** *** What [addTunnelToMap] writes *)

Lemma portMap_fresh st : portMap st (fresh (dom (portMaps st))) = ∅.
Proof.
  unfold portMap. by rewrite (proj1 (not_elem_of_dom _ _) (is_fresh (dom (portMaps st)))).
Qed.

Lemma addTunnelToMap_spec h q pr st :
  ∃ m,
    _tunnels (addTunnelToMap h q pr st) = <[h := m]> (_tunnels st) ∧
    portMaps (addTunnelToMap h q pr st) =
      <[m := <[q := fresh (dom (records st))]> (portMap st m)]> (portMaps st) ∧
    records (addTunnelToMap h q pr st) =
      <[fresh (dom (records st)) := {| refcount := 1; value := pr |}]> (records st) ∧
    (_tunnels st !! h = Some m ∨
     (_tunnels st !! h = None ∧ m = fresh (dom (portMaps st)))) ∧
    _tunnelProvider (addTunnelToMap h q pr st) = _tunnelProvider st.
Proof.
  unfold addTunnelToMap. case_bool_decide as Hh.
  - destruct Hh as [m Hm]. rewrite Hm. exists m. simpl.
    split_and!; [by rewrite insert_id | done | done | by left | done].
  - apply eq_None_not_Some in Hh. simpl. rewrite lookup_insert_eq.
    exists (fresh (dom (portMaps st))). simpl. split_and!; [done | | done | by right | done].
    unfold portMap at 1. simpl. rewrite lookup_insert_eq. simpl.
    by rewrite insert_insert_eq, portMap_fresh.
Qed.

Lemma stored_ref_addTunnelToMap h q pr st :
  stored_ref (addTunnelToMap h q pr st) h q = Some (fresh (dom (records st))).
Proof.
  destruct (addTunnelToMap_spec h q pr st) as (m & Ht & Hp & _).
  unfold stored_ref, portMap. rewrite Ht, Hp, lookup_insert_eq. simpl.
  rewrite lookup_insert_eq. simpl. by rewrite lookup_insert_eq.
Qed.

Lemma stored_ref_addTunnelToMap_other h q pr st h' q' :
  stored_ref (addTunnelToMap h q pr st) h' q' = stored_ref st h' q' ∨
  stored_ref (addTunnelToMap h q pr st) h' q' = Some (fresh (dom (records st))).
Proof.
  destruct (addTunnelToMap_spec h q pr st) as (m & Ht & Hp & _ & Hm & _).
  unfold stored_ref, portMap. rewrite Ht, Hp.
  destruct (decide (h = h')) as [<-|Hh].
  - rewrite lookup_insert_eq. simpl. rewrite lookup_insert_eq. simpl.
    destruct (decide (q = q')) as [<-|Hq]; [right; by rewrite lookup_insert_eq|].
    left. rewrite lookup_insert_ne by done.
    destruct Hm as [->|[-> ->]]; [done|]. simpl.
    fold (portMap st (fresh (dom (portMaps st)))). by rewrite portMap_fresh.
  - rewrite lookup_insert_ne by done.
    destruct (_tunnels st !! h') as [m'|]; simpl; [|by left].
    destruct (decide (m = m')) as [<-|Hmm].
    + rewrite lookup_insert_eq. simpl.
      destruct (decide (q = q')) as [<-|Hq]; [right; by rewrite lookup_insert_eq|].
      left. by rewrite lookup_insert_ne.
    + left. by rewrite lookup_insert_ne.
Qed.

Lemma getTunnelFromMap_addTunnelToMap h q pr st :
  getTunnelFromMap h q st = None →
  getTunnelFromMap h q (addTunnelToMap h q pr st) = Some (fresh (dom (records st))).
Proof.
  intros Hnone. destruct (getOtherLocalhost h) as [other|] eqn:Ho.
  - rewrite (getTunnelFromMap_alias _ other) in Hnone |- * by done.
    rewrite stored_ref_addTunnelToMap.
    destruct (stored_ref st other q) eqn:E1; [done|].
    destruct (stored_ref_addTunnelToMap_other h q pr st other q) as [->| ->]; [|done].
    by rewrite E1.
  - rewrite getTunnelFromMap_no_alias by done. apply stored_ref_addTunnelToMap.
Qed.

Lemma retainOrCreateTunnel_retain ap h q lp e pub st r rec :
  getTunnelFromMap h q st = Some r → records st !! r = Some rec →
  retainOrCreateTunnel isWindows ap h q lp e pub st =
    (Some (value rec), update_refcount r (λ n, n + 1) st).
Proof. intros Hg Hr. unfold retainOrCreateTunnel. by rewrite Hg, Hr. Qed.

Lemma getTunnelFromMap_ext h q st st' :
  _tunnels st = _tunnels st' → portMaps st = portMaps st' →
  getTunnelFromMap h q st = getTunnelFromMap h q st'.
Proof.
  intros Ht Hp. unfold getTunnelFromMap, portMap. by rewrite Ht, Hp.
Qed.

(** *** Disposal *)

Lemma records_update_refcount r f st rec :
  records st !! r = Some rec →
  records (update_refcount r f st) !! r =
    Some {| refcount := f (refcount rec); value := value rec |}.
Proof. intros Hr. unfold update_refcount. simpl. by rewrite lookup_alter_eq, Hr. Qed.

Lemma tryDisposeTunnel_held h q r st rec :
  records st !! r = Some rec → 0 < refcount rec →
  tryDisposeTunnel h q r st = (None, st).
Proof.
  intros Hr Hpos. unfold tryDisposeTunnel. rewrite Hr.
  by rewrite bool_decide_eq_false_2 by lia.
Qed.

Lemma tryDisposeTunnel_released h q r st rec m :
  records st !! r = Some rec → refcount rec ≤ 0 → _tunnels st !! h = Some m →
  tryDisposeTunnel h q r st =
    (Some (r, value rec),
     Map_delete m q
       (emit (LogTrace ("Tunnel is being disposed " +:+ h +:+ ":" +:+ pretty q +:+ ".")) st)).
Proof.
  intros Hr Hle Hm. unfold tryDisposeTunnel. rewrite Hr.
  rewrite bool_decide_eq_true_2 by done. simpl. by rewrite Hm.
Qed.

Lemma stored_ref_Map_delete m q st h :
  _tunnels st !! h = Some m → stored_ref (Map_delete m q st) h q = None.
Proof.
  intros Hm. unfold stored_ref, portMap. simpl. rewrite Hm. simpl.
  rewrite lookup_insert_eq. simpl. apply lookup_delete_eq.
Qed.

Lemma effects_run_dispose k v st :
  effects (run_dispose k v st) =
    effects st ++
    match k, v with
    | Some _, Some t =>
        [UnderlyingDispose t true; TunnelClosed (tunnelRemoteHost t) (tunnelRemotePort t)]
    | _, _ => []
    end.
Proof.
  destruct k as [[??]|], v as [t|]; simpl; rewrite <-?app_assoc; by rewrite ?app_nil_r.
Qed.

Lemma run_dispose_store k v st :
  _tunnels (run_dispose k v st) = _tunnels st ∧
  portMaps (run_dispose k v st) = portMaps st ∧
  records (run_dispose k v st) = records st.
Proof. by destruct k as [[??]|], v as [t|]. Qed.


(** C4, as amended. For a host and port with a record in the map,
    [closeTunnel] sets the refcount of the record to 0 whatever it was,
    deletes the entry, and waits for the promise of the record: when that
    settles to a tunnel, [dispose] of the tunnel is called and awaited and
    then [onTunnelClosed] fires with the host and port of the tunnel; when it
    settles to undefined, nothing is disposed and nothing fires.  For a host
    and port without a record, [closeTunnel] changes nothing. *)
Theorem closeTunnel_forces_release (st : TunnelService) (h : string) (q : Z) :
  (∀ m r rec v,
     _tunnels st !! h = Some m → portMap st m !! q = Some r → records st !! r = Some rec →
     let final := closeTunnel_run h q v st in
     (closeTunnel h q st).1 = Some (r, value rec) ∧
     records final !! r = Some {| refcount := 0; value := value rec |} ∧
     stored_ref final h q = None ∧
     effects final =
       effects st ++
       LogTrace ("Tunnel is being disposed " +:+ h +:+ ":" +:+ pretty q +:+ ".") ::
       match v with
       | Some t =>
           [UnderlyingDispose t true;
            TunnelClosed (tunnelRemoteHost t) (tunnelRemotePort t)]
       | None => []
       end) ∧
  (stored_ref st h q = None → ∀ v, closeTunnel h q st = (None, st) ∧ closeTunnel_run h q v st = st).
Proof.
  split.
  - intros m r rec v Hm Hq Hr final.
    set (st1 := update_refcount r (λ _, 0) st).
    assert (records st1 !! r = Some {| refcount := 0; value := value rec |}) as Hr1.
    { exact (records_update_refcount r (λ _, 0) st _ Hr). }
    assert (closeTunnel h q st =
      (Some (r, value rec),
       Map_delete m q
         (emit (LogTrace ("Tunnel is being disposed " +:+ h +:+ ":" +:+ pretty q +:+ ".")) st1)))
      as Hclose.
    { unfold closeTunnel. rewrite Hm, Hq. fold st1.
      by rewrite (tryDisposeTunnel_released _ _ _ _ _ m Hr1). }
    unfold final, closeTunnel_run. rewrite Hclose. cbn [fst].
    match goal with |- context [run_dispose ?k v ?s] =>
      destruct (run_dispose_store k v s) as (Ht & Hp & Hrec);
      pose proof (effects_run_dispose k v s) as He end.
    split_and!.
    + done.
    + rewrite Hrec. exact Hr1.
    + unfold stored_ref, portMap. rewrite Ht, Hp. by apply stored_ref_Map_delete.
    + rewrite He. simpl. rewrite <-app_assoc. by destruct v.
  - intros Hnone v. assert (closeTunnel h q st = (None, st)) as Hclose.
    { unfold closeTunnel. unfold stored_ref in Hnone.
      destruct (_tunnels st !! h) as [m|]; [|done]. simpl in Hnone. by rewrite Hnone. }
    split; [done|]. unfold closeTunnel_run. by rewrite Hclose.
Qed.

(** *** The refcount invariant *)

Lemma portMap_Map_set m k r st m' :
  portMap (Map_set m k r st) m' =
    if decide (m' = m) then <[k := r]> (portMap st m) else portMap st m'.
Proof.
  unfold portMap, Map_set. simpl. destruct (decide (m' = m)) as [->|Hne].
  - by rewrite lookup_insert_eq.
  - by rewrite lookup_insert_ne.
Qed.

Lemma portMap_Map_delete m k st m' :
  portMap (Map_delete m k st) m' =
    if decide (m' = m) then delete k (portMap st m) else portMap st m'.
Proof.
  unfold portMap, Map_delete. simpl. destruct (decide (m' = m)) as [->|Hne].
  - by rewrite lookup_insert_eq.
  - by rewrite lookup_insert_ne.
Qed.

Lemma portMap_addTunnelToMap h q pr st :
  ∃ m, ∀ m',
    portMap (addTunnelToMap h q pr st) m' =
      if decide (m' = m) then <[q := fresh (dom (records st))]> (portMap st m)
      else portMap st m'.
Proof.
  destruct (addTunnelToMap_spec h q pr st) as (m & _ & Hp & _).
  exists m. intros m'. unfold portMap at 1. rewrite Hp.
  destruct (decide (m' = m)) as [->|Hne].
  - by rewrite lookup_insert_eq.
  - by rewrite lookup_insert_ne.
Qed.

Lemma store_inv_frame st st' :
  portMaps st' = portMaps st → records st' = records st → store_inv st → store_inv st'.
Proof.
  intros Hp Hr. unfold store_inv, slot, portMap. by rewrite Hp, Hr.
Qed.

Lemma released_frame st st' r p :
  portMaps st' = portMaps st → records st' = records st →
  released st r p → released st' r p.
Proof.
  intros Hp Hr. unfold released, slot, portMap. by rewrite Hp, Hr.
Qed.

Lemma fresh_record_unused st rec :
  records st !! fresh (dom (records st)) = Some rec → False.
Proof.
  intros Hr. apply (is_fresh (dom (records st))). apply elem_of_dom. by eexists.
Qed.

Lemma store_inv_addTunnelToMap h q pr st :
  store_inv st → store_inv (addTunnelToMap h q pr st).
Proof.
  intros [Hheld Hinj].
  destruct (addTunnelToMap_spec h q pr st) as (m0 & _ & _ & Hrec & _).
  destruct (portMap_addTunnelToMap h q pr st) as (m & Hpm).
  set (rn := fresh (dom (records st))) in *.
  assert (∀ m' q' r, slot (addTunnelToMap h q pr st) m' q' r →
            (m' = m ∧ q' = q ∧ r = rn) ∨ (r ≠ rn ∧ slot st m' q' r)) as Hslot.
  { intros m' q' r. unfold slot. rewrite Hpm.
    assert (∀ m1, portMap st m1 !! q' = Some r → r ≠ rn) as Hold.
    { intros m1 Hs ->. destruct (Hheld _ _ _ Hs) as (rec & Hr & _).
      by apply (fresh_record_unused st rec). }
    destruct (decide (m' = m)) as [->|Hne]; [|by right; eauto].
    destruct (decide (q' = q)) as [->|Hq].
    - rewrite lookup_insert_eq. intros [= <-]. by left.
    - rewrite lookup_insert_ne by done. right; eauto. }
  split.
  - intros m' q' r Hs. rewrite Hrec.
    destruct (Hslot _ _ _ Hs) as [(-> & -> & ->)|[Hne Hs']].
    + rewrite lookup_insert_eq. eexists. split; [done|]. simpl. lia.
    + rewrite lookup_insert_ne by done. eauto.
  - intros m1 q1 m2 q2 r Hs1 Hs2.
    destruct (Hslot _ _ _ Hs1) as [(-> & -> & ->)|[Hne1 Hs1']],
             (Hslot _ _ _ Hs2) as [(-> & -> & ?)|[Hne2 Hs2']]; try done.
    eauto.
Qed.

Lemma released_addTunnelToMap h q pr st r p :
  released st r p → released (addTunnelToMap h q pr st) r p.
Proof.
  intros [(rec & Hr & Hz & Hv) Hno].
  destruct (addTunnelToMap_spec h q pr st) as (m0 & _ & _ & Hrec & _).
  destruct (portMap_addTunnelToMap h q pr st) as (m & Hpm).
  assert (r ≠ fresh (dom (records st))) as Hne.
  { intros ->. by apply (fresh_record_unused st rec). }
  split.
  - exists rec. rewrite Hrec, lookup_insert_ne by done. done.
  - intros m' q'. unfold slot. rewrite Hpm.
    destruct (decide (m' = m)) as [->|Hm]; [|apply Hno].
    destruct (decide (q' = q)) as [->|Hq].
    + rewrite lookup_insert_eq. by intros [= <-].
    + rewrite lookup_insert_ne by done. apply Hno.
Qed.

Lemma store_inv_update_refcount r f st :
  store_inv st →
  (∀ m q rec, slot st m q r → records st !! r = Some rec → 1 ≤ f (refcount rec)) →
  store_inv (update_refcount r f st).
Proof.
  intros [Hheld Hinj] Hf. split; [|exact Hinj].
  intros m q r' Hs. change (slot st m q r') in Hs.
  destruct (Hheld _ _ _ Hs) as (rec & Hr & Hge). simpl.
  destruct (decide (r = r')) as [<-|Hne].
  - rewrite lookup_alter_eq, Hr. simpl. eexists. split; [done|]. simpl. eauto.
  - rewrite lookup_alter_ne by done. eauto.
Qed.

Lemma released_update_refcount r f st r' p :
  r ≠ r' → released st r' p → released (update_refcount r f st) r' p.
Proof.
  intros Hne [(rec & Hr & Hz & Hv) Hno]. split; [|exact Hno].
  exists rec. simpl. by rewrite lookup_alter_ne.
Qed.

Lemma slot_Map_delete m q st m' q' r :
  slot (Map_delete m q st) m' q' r ↔ slot st m' q' r ∧ ¬ (m' = m ∧ q' = q).
Proof.
  unfold slot. rewrite portMap_Map_delete.
  destruct (decide (m' = m)) as [->|Hm]; [|by intuition].
  destruct (decide (q' = q)) as [->|Hq].
  - rewrite lookup_delete_eq. split; [done | intros [_ []]; done].
  - rewrite lookup_delete_ne by done. by intuition.
Qed.

Lemma store_inv_Map_delete m q st : store_inv st → store_inv (Map_delete m q st).
Proof.
  intros [Hheld Hinj]. split.
  - intros m' q' r [Hs _]%slot_Map_delete. apply (Hheld _ _ _ Hs).
  - intros m1 q1 m2 q2 r [Hs1 _]%slot_Map_delete [Hs2 _]%slot_Map_delete. eauto.
Qed.

Lemma released_Map_delete m q st r p :
  released st r p → released (Map_delete m q st) r p.
Proof.
  intros [Hrec Hno]. split; [exact Hrec|].
  intros m' q' [Hs _]%slot_Map_delete. by apply (Hno m' q').
Qed.

Lemma unslotted_Map_delete m q r st :
  store_inv st → slot st m q r → ∀ m' q', ¬ slot (Map_delete m q st) m' q' r.
Proof.
  intros [_ Hinj] Hs m' q' [Hs' Hne]%slot_Map_delete.
  apply Hne. apply (Hinj _ _ _ _ _ Hs' Hs).
Qed.

(** Letting go of the record in slot [(m, q)]: its refcount is written and
    the slot is deleted. *)
Lemma release_slot m q r f e st rec :
  store_inv st → slot st m q r → records st !! r = Some rec → f (refcount rec) = 0 →
  let st' := Map_delete m q (emit e (update_refcount r f st)) in
  store_inv st' ∧ released st' r (value rec) ∧
  ∀ r' p, released st r' p → released st' r' p.
Proof.
  intros Hinv Hs Hr Hf st'.
  assert (portMaps st' = portMaps (update_refcount r f (Map_delete m q st))) as Hp by done.
  assert (records st' = records (update_refcount r f (Map_delete m q st))) as Hrec by done.
  pose proof (unslotted_Map_delete _ _ _ _ Hinv Hs) as Hun.
  split_and!.
  - apply (store_inv_frame _ _ Hp Hrec). apply store_inv_update_refcount.
    + by apply store_inv_Map_delete.
    + intros m' q' rec' Hs'. by destruct (Hun m' q').
  - apply (released_frame _ _ _ _ Hp Hrec). split.
    + eexists. split; [by apply records_update_refcount|]. done.
    + exact Hun.
  - intros r' p Hrel. apply (released_frame _ _ _ _ Hp Hrec).
    apply released_update_refcount.
    + intros ->. destruct Hrel as [_ Hno]. by apply (Hno m q).
    + by apply released_Map_delete.
Qed.

Lemma slot_of_getTunnelFromMap h q st r :
  getTunnelFromMap h q st = Some r → ∃ m, slot st m q r.
Proof.
  intros Hg. assert (∃ h', stored_ref st h' q = Some r) as [h' Hs].
  { destruct (getOtherLocalhost h) as [other|] eqn:Ho.
    - rewrite (getTunnelFromMap_alias _ other) in Hg by done.
      destruct (stored_ref st other q) eqn:E; [exists other; congruence | by exists h].
    - rewrite getTunnelFromMap_no_alias in Hg by done. eauto. }
  unfold stored_ref in Hs. destruct (_tunnels st !! h') as [m|]; [|done].
  by exists m.
Qed.

Lemma preserves_frame st st' :
  portMaps st' = portMaps st → records st' = records st → preserves st st'.
Proof.
  intros Hp Hr Hinv. split; [by apply (store_inv_frame st) |].
  intros r p. by apply released_frame.
Qed.

Lemma preserves_add st st1 h q pr :
  portMaps st1 = portMaps st → records st1 = records st →
  preserves st (addTunnelToMap h q pr st1).
Proof.
  intros Hp Hr Hinv. split.
  - apply store_inv_addTunnelToMap. by apply (store_inv_frame st).
  - intros r p Hrel. apply released_addTunnelToMap. by apply (released_frame st).
Qed.

Lemma preserves_retain st st' m q r :
  slot st m q r →
  portMaps st' = portMaps st →
  records st' = records (update_refcount r (λ n, n + 1) st) →
  preserves st st'.
Proof.
  intros Hs Hp Hr Hinv.
  assert (portMaps st' = portMaps (update_refcount r (λ n, n + 1) st)) as Hp' by done.
  split.
  - apply (store_inv_frame _ _ Hp' Hr). apply store_inv_update_refcount; [done|].
    intros m' q' rec Hs' Hrec. destruct Hinv as [Hheld _].
    destruct (Hheld _ _ _ Hs') as (rec' & Hrec' & Hge). simplify_eq. lia.
  - intros r' p Hrel. apply (released_frame _ _ _ _ Hp' Hr).
    apply released_update_refcount; [|done].
    intros ->. destruct Hrel as [_ Hno]. by apply (Hno m q).
Qed.

Lemma preserves_openTunnel ap h q lp e pub st :
  preserves st (openTunnel isWindows ap h q lp e pub st).2.
Proof.
  unfold openTunnel. destruct ap as [ap|]; [|by apply preserves_frame].
  unfold retainOrCreateTunnel.
  destruct (getTunnelFromMap _ _ _) as [r|] eqn:Hg.
  - apply slot_of_getTunnelFromMap in Hg as [m Hs].
    destruct (value <$> records _ !! r); by apply (preserves_retain _ _ m q r).
  - cbn [_tunnelProvider emit]. destruct (_tunnelProvider st) as [provider|];
      [|by apply preserves_frame].
    unfold createWithProvider. destruct (forwardPort provider _ _) as [pr|].
    + by apply preserves_add.
    + by apply preserves_frame.
Qed.

Lemma tryDisposeTunnel_inv h q m r f st :
  store_inv st → _tunnels st !! h = Some m → slot st m q r →
  (∀ n, 1 ≤ n → 0 ≤ f n) →
  store_inv (tryDisposeTunnel h q r (update_refcount r f st)).2 ∧
  (∀ r' p, released st r' p →
           released (tryDisposeTunnel h q r (update_refcount r f st)).2 r' p) ∧
  (∀ r' p, (tryDisposeTunnel h q r (update_refcount r f st)).1 = Some (r', p) →
           released (tryDisposeTunnel h q r (update_refcount r f st)).2 r' p).
Proof.
  intros Hinv Hm Hs Hf.
  destruct (proj1 Hinv _ _ _ Hs) as (rec & Hr & Hge).
  pose proof (records_update_refcount r f st rec Hr) as Hr1.
  destruct (decide (f (refcount rec) ≤ 0)) as [Hle|Hgt].
  - rewrite (tryDisposeTunnel_released _ _ _ _ _ m Hr1) by done. cbn [fst snd value].
    assert (f (refcount rec) = 0) as Hz by (specialize (Hf _ Hge); lia).
    destruct (release_slot m q r f
      (LogTrace ("Tunnel is being disposed " +:+ h +:+ ":" +:+ pretty q +:+ "."))
      st rec Hinv Hs Hr Hz) as (H1 & H2 & H3).
    split_and!; [done | done |]. by intros r' p [= <- <-].
  - rewrite (tryDisposeTunnel_held _ _ _ _ _ Hr1) by (simpl; lia). cbn [fst snd].
    split_and!; [| |done].
    + apply store_inv_update_refcount; [done|].
      intros m' q' rec' _ Hrec'. simplify_eq. lia.
    + intros r' p Hrel. apply released_update_refcount; [|done].
      intros ->. destruct Hrel as [_ Hno]. by apply (Hno m q).
Qed.

Lemma untouched_inv (st : TunnelService) :
  store_inv st →
  store_inv (@None (nat * nat), st).2 ∧
  (∀ r p, released st r p → released (@None (nat * nat), st).2 r p) ∧
  (∀ r p, (@None (nat * nat), st).1 = Some (r, p) → released (@None (nat * nat), st).2 r p).
Proof. intros Hinv. split_and!; [done | done | intros ?? [=]]. Qed.

Lemma makeTunnel_dispose_inv t st :
  store_inv st →
  store_inv (makeTunnel_dispose t st).2 ∧
  (∀ r p, released st r p → released (makeTunnel_dispose t st).2 r p) ∧
  (∀ r p, (makeTunnel_dispose t st).1 = Some (r, p) → released (makeTunnel_dispose t st).2 r p).
Proof.
  intros Hinv. unfold makeTunnel_dispose.
  destruct (_tunnels st !! tunnelRemoteHost t) as [m|] eqn:Hm; [|by apply untouched_inv].
  destruct (portMap st m !! tunnelRemotePort t) as [r|] eqn:Hq; [|by apply untouched_inv].
  apply (tryDisposeTunnel_inv _ _ m); [done..|]. intros n Hn. lia.
Qed.

Lemma closeTunnel_inv h q st :
  store_inv st →
  store_inv (closeTunnel h q st).2 ∧
  (∀ r p, released st r p → released (closeTunnel h q st).2 r p) ∧
  (∀ r p, (closeTunnel h q st).1 = Some (r, p) → released (closeTunnel h q st).2 r p).
Proof.
  intros Hinv. unfold closeTunnel.
  destruct (_tunnels st !! h) as [m|] eqn:Hm; [|by apply untouched_inv].
  destruct (portMap st m !! q) as [r|] eqn:Hq; [|by apply untouched_inv].
  apply (tryDisposeTunnel_inv _ _ m); [done..|]. intros n Hn. lia.
Qed.

Lemma preserves_removeEmpty_resume h q hostMap tunnel st :
  preserves st (removeEmptyTunnelFromMap_resume h q hostMap tunnel st).
Proof.
  intros Hinv. unfold removeEmptyTunnelFromMap_resume, await_value.
  set (st1 := if bool_decide (tunnel = None) then Map_delete hostMap q st else st).
  assert (store_inv st1 ∧ ∀ r p, released st r p → released st1 r p) as [H1 H2].
  { unfold st1. case_bool_decide; [|done]. split; [by apply store_inv_Map_delete|].
    intros r p. apply released_Map_delete. }
  destruct (bool_decide (size (portMap st1 hostMap) = 0%nat)); [|by split]. split.
  - by apply (store_inv_frame st1).
  - intros r p Hrel. by apply (released_frame st1), H2.
Qed.

Lemma dispose_continuation_released k r p :
  KTryDispose r p ∈ dispose_continuation k → k = Some (r, p).
Proof.
  destruct k as [[r' p']|]; simpl; [|by intros ?%elem_of_nil].
  intros [= -> ->]%list_elem_of_singleton. done.
Qed.

Lemma config_inv_step c c' : config_inv c → step isWindows c c' → config_inv c'.
Proof.
  intros [Hinv Hpend] Hstep.
  destruct Hstep; unfold config_inv, call_openTunnel, call_dispose, call_closeTunnel;
    cbn [service pending].
  - destruct (preserves_openTunnel ap h q lp e pub (service c) Hinv) as [H1 H2].
    split; [done|]. intros r p' [Hin|Hin]%elem_of_app; [by apply H2, Hpend|].
    destruct (openTunnel _ _ _ _ _ _ _ _).1; simpl in Hin;
      [by apply elem_of_nil in Hin | by apply list_elem_of_singleton in Hin].
  - destruct (makeTunnel_dispose_inv t (service c) Hinv) as (H1 & H2 & H3).
    split; [done|]. intros r p' [Hin|Hin]%elem_of_app; [by apply H2, Hpend|].
    by apply H3, dispose_continuation_released.
  - destruct (closeTunnel_inv h q (service c) Hinv) as (H1 & H2 & H3).
    split; [done|]. intros r p' [Hin|Hin]%elem_of_app; [by apply H2, Hpend|].
    by apply H3, dispose_continuation_released.
  - assert (preserves (service c) (setTunnelProvider prov feat (service c)).2) as Hp.
    { by destruct prov; apply preserves_frame. }
    destruct (Hp Hinv) as [H1 H2]. split; [done|]. intros r p' Hin. by apply H2, Hpend.
  - destruct (preserves_frame (service c) (setTunnelProvider_dispose (service c))
                eq_refl eq_refl Hinv) as [H1 H2].
    split; [done|]. intros r p' Hin. by apply H2, Hpend.
  - by split.
  - assert (preserves (service c) (openTunnel_then h q v (service c)).2) as Hp.
    { unfold openTunnel_then. destruct v as [t|]; [destruct (_ || _)|];
        by apply preserves_frame. }
    destruct (Hp Hinv) as [H1 H2]. split; [done|].
    intros r p' Hin. apply H2, Hpend. rewrite H.
    rewrite !elem_of_app in Hin. rewrite elem_of_app, elem_of_cons.
    destruct Hin as [?|[?|Hin]]; [by left | by right; right |].
    destruct (openTunnel_then _ _ _ _).1.2 as [[??]|];
      [by apply list_elem_of_singleton in Hin | by apply elem_of_nil in Hin].
  - destruct (preserves_removeEmpty_resume h q hostMap tunnel (service c) Hinv) as [H1 H2].
    split; [done|]. intros r p' Hin. apply H2, Hpend. rewrite H.
    rewrite elem_of_app in Hin. rewrite elem_of_app, elem_of_cons.
    destruct Hin as [?|?]; [by left | by right; right].
  - assert (preserves (service c) (tryDisposeTunnel_then v (service c)).2) as Hp.
    { destruct v as [t|]; by apply preserves_frame. }
    destruct (Hp Hinv) as [H1 H2]. split; [done|].
    intros r' p' Hin. apply H2, Hpend. rewrite H.
    rewrite !elem_of_app in Hin. rewrite elem_of_app, elem_of_cons.
    destruct Hin as [?|[?|Hin]]; [by left | by right; right |].
    destruct (tryDisposeTunnel_then _ _).1;
      [by apply list_elem_of_singleton in Hin | by apply elem_of_nil in Hin].
  - destruct (preserves_frame (service c) (tryDisposeTunnel_resume t (service c))
                eq_refl eq_refl Hinv) as [H1 H2].
    split; [done|]. intros r p' Hin. apply H2, Hpend. rewrite H.
    rewrite elem_of_app in Hin. rewrite elem_of_app, elem_of_cons.
    destruct Hin as [?|?]; [by left | by right; right].
Qed.

Lemma config_inv_reachable c : reachable isWindows c → config_inv c.
Proof.
  revert c. apply (rtc_ind_r (R := step isWindows) config_inv initial).
  - split.
    + split; intros *; unfold slot, portMap; simpl; by rewrite ?lookup_empty.
    + intros r p Hin. by apply elem_of_nil in Hin.
  - intros c1 c2 _ Hstep IH. by apply (config_inv_step c1).
Qed.

(** *** Which code disposes a tunnel of the provider *)

Lemma disposed_tunnels_app es es' :
  disposed_tunnels (es ++ es') = disposed_tunnels es ++ disposed_tunnels es'.
Proof. apply omap_app. Qed.

Lemma effects_tryDisposeTunnel h q r st :
  disposed_tunnels (effects (tryDisposeTunnel h q r st).2) = disposed_tunnels (effects st).
Proof.
  unfold tryDisposeTunnel. destruct (records st !! r) as [rec|]; [|done].
  case_bool_decide; [|done]. cbn [snd emit _tunnels].
  destruct (_tunnels st !! h); cbn [effects Map_delete set_portMaps emit];
    by rewrite disposed_tunnels_app, app_nil_r.
Qed.

Lemma effects_makeTunnel_dispose t st :
  disposed_tunnels (effects (makeTunnel_dispose t st).2) = disposed_tunnels (effects st).
Proof.
  unfold makeTunnel_dispose. destruct (_tunnels st !! _); [|done].
  destruct (portMap st _ !! _); [|done]. by rewrite effects_tryDisposeTunnel.
Qed.

Lemma effects_closeTunnel h q st :
  disposed_tunnels (effects (closeTunnel h q st).2) = disposed_tunnels (effects st).
Proof.
  unfold closeTunnel. destruct (_tunnels st !! _); [|done].
  destruct (portMap st _ !! _); [|done]. by rewrite effects_tryDisposeTunnel.
Qed.

Lemma effects_openTunnel ap h q lp e pub st :
  disposed_tunnels (effects (openTunnel isWindows ap h q lp e pub st).2) =
    disposed_tunnels (effects st).
Proof.
  unfold openTunnel. destruct ap as [ap|];
    [|cbn [snd effects emit]; by rewrite disposed_tunnels_app, app_nil_r].
  unfold retainOrCreateTunnel. destruct (getTunnelFromMap _ _ _) as [r|].
  - destruct (value <$> records _ !! r); cbn [snd effects emit update_refcount set_records];
      rewrite !disposed_tunnels_app; by rewrite ?app_nil_r.
  - cbn [_tunnelProvider emit]. destruct (_tunnelProvider st) as [provider|].
    + unfold createWithProvider. destruct (forwardPort provider _ _) as [pr|];
        cbn [snd]; rewrite ?effects_addTunnelToMap; cbn [effects emit];
        rewrite !disposed_tunnels_app; by rewrite ?app_nil_r.
    + cbn [snd effects emit]. rewrite !disposed_tunnels_app. by rewrite ?app_nil_r.
Qed.

Lemma effects_openTunnel_then h q v st :
  disposed_tunnels (effects (openTunnel_then h q v st).2) = disposed_tunnels (effects st).
Proof.
  unfold openTunnel_then. destruct v as [t|]; [destruct (_ || _)|];
    cbn [snd effects emit]; rewrite !disposed_tunnels_app; by rewrite ?app_nil_r.
Qed.

Lemma effects_removeEmptyTunnelFromMap_resume h q m tunnel st :
  effects (removeEmptyTunnelFromMap_resume h q m tunnel st) = effects st.
Proof.
  unfold removeEmptyTunnelFromMap_resume. by repeat case_bool_decide.
Qed.

Lemma stored_record_slot st h q rec :
  stored_record st h q = Some rec →
  ∃ m r, _tunnels st !! h = Some m ∧ slot st m q r ∧ records st !! r = Some rec.
Proof.
  unfold stored_record, stored_ref, slot.
  destruct (_tunnels st !! h) as [m|]; [|done]. simpl.
  destruct (portMap st m !! q) as [r|] eqn:Hq; [|done]. simpl. eauto.
Qed.

(** C3. In every configuration that [openTunnel], the [dispose] of a
    handle, [closeTunnel] and the code they leave waiting can reach from the
    empty service, each record in the [_tunnels] map has a refcount of at
    least 0; and a step disposes a tunnel of the provider only by running the
    disposal left waiting for a record whose refcount is 0, the tunnel being
    what the promise of that record settled to. *)
Theorem refcount_invariant (c : Config) :
  reachable isWindows c →
  (∀ h q rec, stored_record (service c) h q = Some rec → 0 ≤ refcount rec) ∧
  (∀ c', step isWindows c c' →
     disposed_tunnels (effects (service c')) = disposed_tunnels (effects (service c)) ∨
     ∃ r p t rec,
       KTryDispose r p ∈ pending c ∧ settled c !! p = Some (Some t) ∧
       records (service c) !! r = Some rec ∧ refcount rec = 0 ∧ value rec = p ∧
       disposed_tunnels (effects (service c')) =
         disposed_tunnels (effects (service c)) ++ [t]).
Proof.
  intros [[Hheld _] Hpend]%config_inv_reachable. split.
  - intros h q rec (m & r & _ & Hs & Hr)%stored_record_slot.
    destruct (Hheld _ _ _ Hs) as (rec' & Hr' & Hge). simplify_eq. lia.
  - intros c' Hstep.
    destruct Hstep; unfold call_openTunnel, call_dispose, call_closeTunnel; cbn [service].
    + left. apply effects_openTunnel.
    + left. apply effects_makeTunnel_dispose.
    + left. apply effects_closeTunnel.
    + left. by destruct prov.
    + by left.
    + by left.
    + left. apply effects_openTunnel_then.
    + left. by rewrite effects_removeEmptyTunnelFromMap_resume.
    + destruct v as [t|]; [right | by left].
      assert (KTryDispose r p ∈ pending c) as Hin.
      { rewrite H. apply elem_of_app. right. apply list_elem_of_here. }
      destruct (Hpend _ _ Hin) as [(rec & Hr & Hz & Hv) _].
      exists r, p, t, rec. split_and!; try done.
      cbn [tryDisposeTunnel_then snd effects emit]. by rewrite disposed_tunnels_app.
    + left. cbn [tryDisposeTunnel_resume effects emit].
      by rewrite disposed_tunnels_app, app_nil_r.
Qed.

(** *** A creation that fails *)

(** C5, the code where a creation has failed. When the promise of the
    provider settles to undefined, the callback of [openTunnel] gives the
    caller undefined and starts [removeEmptyTunnelFromMap], which awaits the
    record found under the host and port, not the promise in it: the record
    is an object, so nothing is deleted and the service is left as it was but
    for one trace line; the record stays stored.  And with no address
    provider [openTunnel] returns undefined and leaves the service as it was
    but for its first trace line. *)
Theorem failed_creation_keeps_record (st : TunnelService) (h : string) (q : Z) (m r : nat) :
  _tunnels st !! h = Some m →
  portMap st m !! q = Some r →
  (openTunnel_then h q None st).1.1 = None ∧
  (openTunnel_then h q None st).1.2 = Some (m, Some r) ∧
  openTunnel_then_run h q None st = (None, emit (LogTrace "New tunnel is undefined.") st) ∧
  stored_ref (openTunnel_then_run h q None st).2 h q = Some r ∧
  (∀ remoteHost lp e pub,
     openTunnel isWindows None remoteHost q lp e pub st =
       (OpenUndefined,
        emit (LogTrace ("openTunnel request for " +:+ show_string remoteHost +:+ ":" +:+
                pretty q +:+ " on local port " +:+ show_number lp +:+ ".")) st)).
Proof.
  intros Hm Hq.
  set (st1 := emit (LogTrace "New tunnel is undefined.") st).
  assert ((openTunnel_then h q None st).1.2 = Some (m, Some r)) as Hsusp.
  { unfold openTunnel_then, removeEmptyTunnelFromMap. cbn [fst snd _tunnels emit].
    rewrite Hm. change (portMap (emit _ st) m) with (portMap st m). by rewrite Hq. }
  assert (removeEmptyTunnelFromMap_resume h q m (Some r) st1 = st1) as Hres.
  { unfold removeEmptyTunnelFromMap_resume, await_value.
    rewrite (bool_decide_eq_false_2 (Some r = None)) by done.
    rewrite bool_decide_eq_false_2; [done|].
    intros Hsize%map_size_empty_iff. change (portMap st1 m) with (portMap st m) in Hsize.
    by rewrite Hsize, lookup_empty in Hq. }
  assert (openTunnel_then_run h q None st = (None, st1)) as Hrun.
  { unfold openTunnel_then_run.
    change (openTunnel_then h q None st)
      with (@None RemoteTunnel, (openTunnel_then h q None st).1.2, st1).
    by rewrite Hsusp, Hres. }
  split_and!; [done | done | done | | done].
  rewrite Hrun. unfold stored_ref. cbn [snd st1 _tunnels emit]. rewrite Hm. exact Hq.
Qed.

(** C1. With a provider that answers the request with a promise [pr] and
    no record yet for the host (defaulted to [localhost]) and port: the first
    [openTunnel] stores a record with refcount 1 and [pr] itself before it
    returns, and returns [pr.then(...)]; a second [openTunnel] for the same
    host and port finds that very record with [getTunnelFromMap], leaves it
    with refcount 2, returns a [then] of the same promise [pr], and adds no
    record; the provider has been called once over the two calls; and the
    callback gives each caller [makeTunnel] of the one tunnel that [pr]
    settles to. *)
Theorem openTunnel_twice_one_tunnel
    (ap ap' : IAddressProvider) (remoteHost : option string) (q : Z)
    (lp lp' : option Z) (e e' pub pub' : option bool)
    (provider : ITunnelProvider) (pr : nat) (st : TunnelService) :
  let h := default_host remoteHost in
  let info :=
    {| elevationRequired :=
         Some (if default false e
               then isPortPrivileged isWindows (match lp with Some l => l | None => q end) None
               else false) |} in
  let opts :=
    {| remoteAddress := {| host := h; port := q |}; localAddressPort := lp;
       label := None; opt_public := Some (default false pub) |} in
  _tunnelProvider st = Some provider →
  getTunnelFromMap h q st = None →
  forwardPort provider opts info = Some pr →
  let first := openTunnel isWindows (Some ap) remoteHost q lp e pub st in
  let second := openTunnel isWindows (Some ap') remoteHost q lp' e' pub' first.2 in
  first.1 = OpenThen pr h q ∧
  second.1 = OpenThen pr h q ∧
  (∃ r,
     getTunnelFromMap h q first.2 = Some r ∧
     records first.2 !! r = Some {| refcount := 1; value := pr |} ∧
     getTunnelFromMap h q second.2 = Some r ∧
     records second.2 = <[r := {| refcount := 2; value := pr |}]> (records first.2) ∧
     _tunnels second.2 = _tunnels first.2 ∧
     portMaps second.2 = portMaps first.2) ∧
  forwardPort_calls (effects second.2) = forwardPort_calls (effects st) ++ [(opts, info)] ∧
  (∀ t st1 st2,
     (openTunnel_then h q (Some t) st1).1.1 = Some (makeTunnel t) ∧
     (openTunnel_then h q (Some t) st2).1.1 = Some (makeTunnel t)).
Proof.
  intros h info opts Hprov Hnone Hfwd first second.
  set (st0 := emit (LogTrace ("openTunnel request for " +:+ show_string remoteHost +:+ ":" +:+
                pretty q +:+ " on local port " +:+ show_number lp +:+ ".")) st).
  set (st1 := emit (LogTrace "Tunnel created by provider.")
                (emit (ForwardPort opts info)
                   (emit (LogTrace ("Creating tunnel with provider " +:+ h +:+ ":" +:+
                      pretty q +:+ " on local port " +:+ show_number lp +:+ ".")) st0))).
  assert (first = (OpenThen pr h q, addTunnelToMap h q pr st1)) as Hfirst.
  { subst first. unfold openTunnel. fold h. fold st0.
    unfold retainOrCreateTunnel.
    rewrite (getTunnelFromMap_ext h q st0 st) by done. rewrite Hnone.
    change (_tunnelProvider st0) with (_tunnelProvider st). rewrite Hprov.
    unfold createWithProvider. fold opts info. rewrite Hfwd. done. }
  set (r := fresh (dom (records st1))).
  assert (getTunnelFromMap h q first.2 = Some r) as Hget1.
  { rewrite Hfirst. apply getTunnelFromMap_addTunnelToMap.
    by rewrite (getTunnelFromMap_ext h q st1 st). }
  assert (records first.2 !! r = Some {| refcount := 1; value := pr |}) as Hrec1.
  { rewrite Hfirst. cbn [snd].
    destruct (addTunnelToMap_spec h q pr st1) as (m & _ & _ & -> & _).
    apply lookup_insert_eq. }
  set (st2 := emit (LogTrace ("openTunnel request for " +:+ show_string remoteHost +:+ ":" +:+
                pretty q +:+ " on local port " +:+ show_number lp' +:+ ".")) first.2).
  assert (second = (OpenThen pr h q, update_refcount r (λ n, n + 1) st2)) as Hsecond.
  { subst second. unfold openTunnel. fold h. fold st2.
    rewrite (retainOrCreateTunnel_retain _ _ _ _ _ _ _ r {| refcount := 1; value := pr |});
      [done | by rewrite (getTunnelFromMap_ext h q st2 first.2) | done]. }
  split_and!.
  - by rewrite Hfirst.
  - by rewrite Hsecond.
  - exists r. rewrite Hsecond. cbn [snd]. split_and!.
    + exact Hget1.
    + exact Hrec1.
    + by rewrite (getTunnelFromMap_ext h q _ first.2).
    + cbn [records update_refcount set_records st2 emit].
      apply map_eq. intros i. destruct (decide (i = r)) as [->|Hi].
      * rewrite lookup_alter_eq, lookup_insert_eq, Hrec1. done.
      * by rewrite lookup_alter_ne, lookup_insert_ne.
    + done.
    + done.
  - rewrite Hsecond. unfold st2. rewrite Hfirst. simpl.
    rewrite effects_addTunnelToMap. simpl.
    unfold forwardPort_calls. rewrite !omap_app. simpl. by rewrite !app_nil_r.
  - done.
Qed.

End TunnelService.

(** ** Data events *)

Lemma string_app_assoc (a b c : string) : (a +:+ b) +:+ c = a +:+ (b +:+ c).
Proof.
  induction a as [|x a IH]; [done|].
  change (String x ((a +:+ b) +:+ c) = String x (a +:+ (b +:+ c))). by rewrite IH.
Qed.

Lemma string_app_nil_r (a : string) : a +:+ "" = a.
Proof.
  induction a as [|x a IH]; [done|].
  change (String x (a +:+ "") = String x a). by rewrite IH.
Qed.

Section DataEventsFacts.
Import DataEvents.

Lemma join_app a b : join (a ++ b) = join a +:+ join b.
Proof.
  induction a as [|x a IH]; [done|].
  change (x +:+ join (a ++ b) = (x +:+ join a) +:+ join b).
  by rewrite IH, string_app_assoc.
Qed.

Lemma forwarded_app id o1 o2 : forwarded id (o1 ++ o2) = forwarded id o1 ++ forwarded id o2.
Proof. unfold forwarded. by rewrite filter_app, fmap_app. Qed.

(** What [_flushBuffer i] sends of terminal [id] and leaves buffered. *)
Lemma flushBuffer_spec id i b :
  join (forwarded id (_flushBuffer i b).2) +:+
    join (default [] (_terminalBufferMap (_flushBuffer i b).1 !! id)) =
  join (default [] (_terminalBufferMap b !! id)) ∧
  (length (forwarded id (_flushBuffer i b).2) +
     match _terminalBufferMap (_flushBuffer i b).1 !! id with Some _ => 1 | None => 0 end =
   match _terminalBufferMap b !! id with Some _ => 1 | None => 0 end)%nat.
Proof.
  unfold _flushBuffer. destruct (_terminalBufferMap b !! i) as [data|] eqn:Hi; cbn [fst snd].
  - destruct (decide (i = id)) as [->|Hne].
    + unfold forwarded. rewrite filter_cons_True by done. cbn.
      rewrite lookup_delete_eq, Hi. cbn. by rewrite !string_app_nil_r.
    + unfold forwarded. rewrite filter_cons_False by done. cbn.
      by rewrite lookup_delete_ne.
  - done.
Qed.

Lemma handle_spec id e t :
  join (forwarded id (handle e t).2) +:+ join (buffered id (handle e t).1) =
    join (buffered id t) +:+ join (hears id (bool_decide (id ∈ listening t)) e) ∧
  (length (forwarded id (handle e t).2) + present id (handle e t).1 ≤
     present id t + length (hears id (bool_decide (id ∈ listening t)) e))%nat ∧
  bool_decide (id ∈ listening (handle e t).1) = listens id (bool_decide (id ∈ listening t)) e.
Proof.
  destruct e as [i|i|i d|i]; unfold handle, buffered, present.
  - cbn. rewrite string_app_nil_r. split_and!; [done | lia |].
    rewrite <-bool_decide_or. apply bool_decide_ext.
    rewrite elem_of_union, elem_of_singleton. split; intros [?|?]; auto.
  - unfold stopBuffering.
    destruct (flushBuffer_spec id i (_bufferer t)) as [H1 H2].
    destruct (_flushBuffer i (_bufferer t)) as [b out]. cbn [fst snd] in *. cbn.
    rewrite string_app_nil_r. split_and!; [done | lia |].
    rewrite <-bool_decide_and. apply bool_decide_ext.
    rewrite elem_of_difference, elem_of_singleton. split; intros [? ?]; auto.
  - case_bool_decide as Hl; cbn [fst snd _bufferer listening buffer_data _terminalBufferMap hears].
    + destruct (decide (i = id)) as [->|Hne].
      * rewrite !lookup_insert_eq, (bool_decide_eq_true_2 _ Hl), (bool_decide_eq_true_2 (id = id)) by done.
        cbn. split_and!; [by rewrite join_app | destruct (_ !! id); cbn; lia | done].
      * rewrite !lookup_insert_ne by done.
        rewrite (bool_decide_eq_false_2 (i = id)) by done. rewrite andb_false_r. cbn.
        rewrite string_app_nil_r. split_and!; [done | lia | done].
    + assert ((bool_decide (id ∈ listening t) && bool_decide (i = id)) = false) as ->.
      { destruct (decide (i = id)) as [->|Hne].
        - by rewrite (bool_decide_eq_false_2 _ Hl).
        - by rewrite (bool_decide_eq_false_2 (i = id)), andb_false_r. }
      cbn. rewrite string_app_nil_r. split_and!; [done | lia | done].
  - destruct (flushBuffer_spec id i (_bufferer t)) as [H1 H2].
    destruct (_flushBuffer i (_bufferer t)) as [b out]. cbn [fst snd] in *. cbn.
    rewrite string_app_nil_r. split_and!; [done | lia | done].
Qed.

Lemma run_spec id es t :
  join (forwarded id (run es t).2) +:+ join (buffered id (run es t).1) =
    join (buffered id t) +:+ join (heard id (bool_decide (id ∈ listening t)) es) ∧
  (length (forwarded id (run es t).2) + present id (run es t).1 ≤
     present id t + length (heard id (bool_decide (id ∈ listening t)) es))%nat.
Proof.
  revert t. induction es as [|e es IH]; intros t.
  - cbn. rewrite string_app_nil_r. split; [done | lia].
  - cbn [run heard]. destruct (handle_spec id e t) as (H1 & H2 & H3).
    destruct (handle e t) as [t1 out1]. cbn [fst snd] in *.
    destruct (IH t1) as [H4 H5]. destruct (run es t1) as [t2 out2]. cbn [fst snd] in *.
    rewrite forwarded_app, !join_app, length_app, length_app. rewrite <-H3. split; [|lia].
    rewrite string_app_assoc, H4, <-string_app_assoc, H1. by rewrite string_app_assoc.
Qed.

Lemma new_tracker_listening ids id : id ∈ ids → id ∈ listening (new_tracker ids).
Proof.
  unfold new_tracker. induction ids as [|i ids IH]; [by intros ?%elem_of_nil|].
  intros [->|Hin]%elem_of_cons; cbn; apply elem_of_union.
  - left. by apply elem_of_singleton.
  - right. by apply IH.
Qed.

Lemma run_cons e es t :
  run (e :: es) t =
    ((run es (handle e t).1).1, (handle e t).2 ++ (run es (handle e t).1).2).
Proof.
  cbn [run]. destruct (handle e t) as [t1 out1]. cbn [fst snd].
  by destruct (run es t1).
Qed.

Lemma run_app es1 es2 t :
  run (es1 ++ es2) t =
    ((run es2 (run es1 t).1).1, (run es1 t).2 ++ (run es2 (run es1 t).1).2).
Proof.
  revert t. induction es1 as [|e es1 IH]; intros t.
  - cbn. by destruct (run es2 t).
  - change ((e :: es1) ++ es2) with (e :: (es1 ++ es2)). rewrite !run_cons, IH.
    cbn [fst snd]. by rewrite app_assoc.
Qed.

Lemma run_data id ds t :
  id ∈ listening t → ds ≠ [] →
  run (InstanceData id <$> ds) t =
    ({| _bufferer :=
          {| _terminalBufferMap :=
               <[id := default [] (_terminalBufferMap (_bufferer t) !! id) ++ ds]>
                 (_terminalBufferMap (_bufferer t)) |};
        listening := listening t |}, []).
Proof.
  revert t. induction ds as [|d ds IH]; intros t Hl Hne; [done|].
  cbn [fmap list_fmap run handle]. rewrite (bool_decide_eq_true_2 _ Hl).
  destruct ds as [|d' ds]; [done|].
  rewrite IH by done. cbn [_bufferer listening buffer_data _terminalBufferMap].
  rewrite lookup_insert_eq, insert_insert_eq. simpl. by rewrite <-app_assoc.
Qed.

Lemma burst_one_message id ds t :
  id ∈ listening t → _terminalBufferMap (_bufferer t) !! id = None → ds ≠ [] →
  (run ((InstanceData id <$> ds) ++ [Flush id]) t).2 = [(id, join ds)].
Proof.
  intros Hl Hb Hne. rewrite run_app, (run_data _ _ _ Hl Hne). cbn [fst snd app].
  cbn [run handle _bufferer]. unfold _flushBuffer. cbn [_terminalBufferMap].
  rewrite lookup_insert_eq, Hb. done.
Qed.

End DataEventsFacts.

Section DataEventsClaim.
Import DataEvents.

(** C9. For every terminal, whatever happens in whatever order: the data
    forwarded for the terminal followed by what is still buffered for it is,
    character for character and in order, what was buffered at the start
    followed by the data events heard of it, and the messages forwarded for
    it are no more than the data events heard (one more if a buffer was
    there at the start); data events that reach an empty buffer before one
    flush go out as one message that is their concatenation, which is fewer
    messages as soon as there are two events; the tracker that
    [$startSendingDataEvents] makes listens to the terminals there are, a
    tracker listens to a terminal from its creation, and at its disposal
    sends what is buffered for it and stops listening; what the tracker
    lets out, the bridge hands to the extension host as it is. *)
Theorem buffering_forwards_in_order :
  (∀ id es t,
     join (forwarded id (run es t).2) +:+ join (buffered id (run es t).1) =
       join (buffered id t) +:+ join (heard id (bool_decide (id ∈ listening t)) es) ∧
     (length (forwarded id (run es t).2) + present id (run es t).1 ≤
        present id t + length (heard id (bool_decide (id ∈ listening t)) es))%nat) ∧
  (∀ id ds t,
     id ∈ listening t → _terminalBufferMap (_bufferer t) !! id = None → ds ≠ [] →
     (run ((InstanceData id <$> ds) ++ [Flush id]) t).2 = [(id, join ds)] ∧
     (2 ≤ length ds →
      length (run ((InstanceData id <$> ds) ++ [Flush id]) t).2 < length ds)%nat) ∧
  (∀ ts st,
     Terminal._dataEventTracker st = None →
     ∃ t, Terminal._dataEventTracker (Terminal.startSendingDataEvents ts st).1 = Some t ∧
          ∀ i, i ∈ Terminal.terminalInstances ts → Terminal.instance_id i ∈ listening t) ∧
  (∀ id t,
     id ∈ listening (handle (InstanceCreated id) t).1 ∧
     (handle (InstanceCreated id) t).2 = []) ∧
  (∀ id t,
     (id ∉ listening (handle (InstanceDisposed id) t).1) ∧
     buffered id (handle (InstanceDisposed id) t).1 = [] ∧
     (handle (InstanceDisposed id) t).2 =
       match _terminalBufferMap (_bufferer t) !! id with
       | Some data => [(id, join data)]
       | None => []
       end) ∧
  (∀ e st t,
     Terminal._dataEventTracker st = Some t →
     (Terminal.tracker_event e st).2 =
       (λ m, Terminal.acceptTerminalProcessData m.1 m.2) <$> (handle e t).2).
Proof.
  split_and!.
  - apply run_spec.
  - intros id ds t Hl Hb Hne. rewrite (burst_one_message _ _ _ Hl Hb Hne).
    split; [done|]. cbn. lia.
  - intros ts st Hnone. unfold Terminal.startSendingDataEvents. rewrite Hnone.
    eexists. split; [done|]. intros i Hi. apply new_tracker_listening.
    by apply list_elem_of_fmap_2.
  - intros id t. cbn. split; [|done].
    apply elem_of_union. left. by apply elem_of_singleton.
  - intros id t. unfold handle, stopBuffering, _flushBuffer, buffered.
    assert (∀ X : gset Z, id ∉ X ∖ {[id]}) as Hnot.
    { intros X [_ Hid]%elem_of_difference. by apply Hid, elem_of_singleton. }
    destruct (_terminalBufferMap (_bufferer t) !! id) as [data|] eqn:Hb; cbn.
    + rewrite lookup_delete_eq. split_and!; [apply Hnot | done | done].
    + rewrite Hb. split_and!; [apply Hnot | done | done].
  - intros e st t Ht. unfold Terminal.tracker_event. rewrite Ht.
    destruct (handle e t) as [t' out]. cbn [snd].
    induction out as [|m out IH]; [done|]. cbn. by f_equal.
Qed.

Lemma buffering_forwards_in_order_witness :
  (run ([InstanceData 1 "ab"; InstanceData 1 "cd"; InstanceData 1 "e"] ++ [Flush 1])
       (new_tracker [1])).2 = [(1, "abcde")].
Proof.
  destruct buffering_forwards_in_order as (_ & Hburst & _).
  apply (Hburst 1 ["ab"; "cd"; "e"] (new_tracker [1])).
  - vm_compute. reflexivity.
  - reflexivity.
  - discriminate.
Defined.

End DataEventsClaim.

(** ** The terminal bridge *)

Section TerminalFacts.
Import Terminal.

(** C8, as amended. An identifier that resolves to no terminal instance
    (a string absent from the id map, or a number or mapped string for which
    the terminal service has no instance) makes [$sendText], [$dispose] and
    [$show] return without a call and without a change; so does [$hide] for
    a string absent from the id map, and for a number without an instance as
    long as the active terminal is one the terminal service knows by its id.
    For a number without a process proxy the seven operations that pass data
    to a process ([$sendProcessTitle], [$sendProcessData],
    [$sendProcessReady], [$sendProcessExit], [$sendOverrideDimensions],
    [$sendProcessInitialCwd], [$sendProcessCwd]) return without a call, a log
    line or a change; [_getTerminalProcess] logs [Unknown terminal: n] and
    gives undefined, so [$sendResolvedLaunchConfig] logs that line and does
    nothing else when the terminal instance exists, and does nothing at all
    when it does not. *)
Theorem unknown_terminal_is_ignored (ts : ITerminalService) (st : MainThreadTerminalService) :
  (∀ id, _getTerminalInstance ts id st = None →
     (∀ text addNewLine, sendText ts id text addNewLine st = (st, [])) ∧
     dispose ts id st = (st, []) ∧
     (∀ preserveFocus, show ts id preserveFocus st = (st, []))) ∧
  (∀ s, _extHostTerminalIds st !! s = None →
     _getTerminalInstance ts (StringId s) st = None ∧
     hide ts (StringId s) st = (st, [])) ∧
  (∀ n, getInstanceFromId ts n = None →
     _getTerminalInstance ts (NumberId n) st = None ∧
     ((∀ i, getActiveInstance ts = Some i → is_Some (getInstanceFromId ts (instance_id i))) →
      hide ts (NumberId n) st = (st, []))) ∧
  (∀ n, _terminalProcessProxies st !! n = None →
     (∀ x, sendProcessTitle n x st = (st, [])) ∧
     (∀ x, sendProcessData n x st = (st, [])) ∧
     (∀ pid cwd, sendProcessReady n pid cwd st = (st, [])) ∧
     (∀ x, sendProcessExit n x st = (st, [])) ∧
     (∀ x, sendOverrideDimensions n x st = (st, [])) ∧
     (∀ x, sendProcessInitialCwd n x st = (st, [])) ∧
     (∀ x, sendProcessCwd n x st = (st, [])) ∧
     _getTerminalProcess n st = (None, [logError ("Unknown terminal: " +:+ pretty n)]) ∧
     (∀ c, sendResolvedLaunchConfig ts n c st =
        (st, match getInstanceFromId ts n with
             | Some _ => [logError ("Unknown terminal: " +:+ pretty n)]
             | None => []
             end))).
Proof.
  split_and!.
  - intros id Hnone. unfold sendText, dispose, show. by rewrite Hnone.
  - intros s Hs. unfold _getTerminalInstance, hide, _getTerminalId. rewrite Hs.
    split; [done|]. by destruct (getActiveInstance ts).
  - intros n Hn. unfold _getTerminalInstance, hide, _getTerminalId. split; [done|].
    intros Hactive. destruct (getActiveInstance ts) as [i|] eqn:Ha; [|done].
    case_bool_decide as Hid; [|done]. injection Hid as <-.
    destruct (Hactive i eq_refl) as [? ?]. congruence.
  - intros n Hn.
    unfold sendProcessTitle, sendProcessData, sendProcessReady, sendProcessExit,
      sendOverrideDimensions, sendProcessInitialCwd, sendProcessCwd,
      sendResolvedLaunchConfig, _getTerminalProcess.
    rewrite Hn. split_and!; try done. intros c. by destruct (getInstanceFromId ts n).
Qed.

(** C8, where the claim as it stands fails: terminal 7 has no process
    proxy, and [$sendProcessData] for it returns without any call, so no
    [Unknown terminal] error is logged. *)
Lemma sendProcessData_unknown_logs_nothing :
  _terminalProcessProxies Examples.bridge !! 7 = None ∧
  sendProcessData 7 "x" Examples.bridge = (Examples.bridge, []) ∧
  logError ("Unknown terminal: " +:+ pretty 7) ∉ (sendProcessData 7 "x" Examples.bridge).2.
Proof.
  assert (_terminalProcessProxies Examples.bridge !! 7 = None) as Hn by reflexivity.
  split; [done|]. unfold sendProcessData. rewrite Hn. split; [done|]. apply not_elem_of_nil.
Qed.

Lemma unknown_terminal_is_ignored_witness :
  sendText Examples.terminals (StringId "nope") "ls" true Examples.bridge = (Examples.bridge, []) ∧
  hide Examples.terminals (NumberId 9) Examples.bridge = (Examples.bridge, []) ∧
  sendProcessCwd 9 "/tmp" Examples.bridge = (Examples.bridge, []).
Proof.
  destruct (unknown_terminal_is_ignored Examples.terminals Examples.bridge)
    as (Hinst & Hstr & Hnum & Hproc).
  split; [|split].
  - apply Hinst. apply (Hstr "nope"). reflexivity.
  - apply (Hnum 9); [reflexivity|].
    intros i [= <-]. exists Examples.terminal1. reflexivity.
  - apply (Hproc 9). reflexivity.
Defined.

End TerminalFacts.

(** ** Sample runs of the tunnel service *)

Section TunnelWitnesses.
Import Tunnel Examples.

(** C4, where the claim as it stands fails: [createWithProvider] has
    stored a record for [localhost:3000]; its promise settles to undefined;
    [closeTunnel], run to its end, disposes no tunnel and fires no
    [onTunnelClosed]. *)
Lemma closeTunnel_without_tunnel_fires_nothing :
  created.1 = Some 7%nat ∧
  is_Some (stored_ref created.2 "localhost" 3000) ∧
  disposed_tunnels (effects (closeTunnel_run "localhost" 3000 None created.2)) = [] ∧
  closed_events (effects (closeTunnel_run "localhost" 3000 None created.2)) = [].
Proof. split; [reflexivity | split; [by exists 0%nat | split; reflexivity]]. Qed.


Lemma openTunnel_twice_one_tunnel_witness :
  opened.1 = OpenThen 7 "localhost" 3000 ∧
  opened_twice.1 = OpenThen 7 "localhost" 3000 ∧
  forwardPort_calls (effects opened_twice.2) =
    [({| remoteAddress := {| host := "localhost"; port := 3000 |};
         localAddressPort := None; label := None; opt_public := Some false |},
      {| elevationRequired := Some false |})].
Proof.
  destruct (openTunnel_twice_one_tunnel false caller caller (Some "localhost") 3000
              None None None None None None provider7 7 with_provider)
    as (H1 & H2 & _ & H4 & _); [reflexivity..|].
  split; [exact H1 | split; [exact H2 | exact H4]].
Defined.


Lemma refcount_invariant_witness :
  stored_record (service c_opened) "localhost" 3000 = Some {| refcount := 1; value := 7 |} ∧
  pending c_closed = [KOpenTunnel 7 "localhost" 3000; KTryDispose 0 7] ∧
  ∀ h q rec, stored_record (service c_closed) h q = Some rec → 0 ≤ refcount rec.
Proof.
  split; [reflexivity | split; [reflexivity|]].
  apply (refcount_invariant false c_closed).
  eapply rtc_l; [apply (step_setTunnelProvider false initial (Some provider7) features)|].
  eapply rtc_l;
    [apply (step_openTunnel false c_provider (Some caller) (Some "localhost") 3000
              None None None)|].
  eapply rtc_l; [apply (step_closeTunnel false c_opened "localhost" 3000)|].
  apply rtc_refl.
Defined.

Lemma closeTunnel_forces_release_witness :
  effects (closeTunnel_run "localhost" 3000 (Some tunnel3000) created.2) =
    effects created.2 ++
    [LogTrace "Tunnel is being disposed localhost:3000.";
     UnderlyingDispose tunnel3000 true; TunnelClosed "localhost" 3000] ∧
  closeTunnel "localhost" 4000 created.2 = (None, created.2).
Proof.
  destruct (closeTunnel_forces_release created.2 "localhost" 3000) as [Hentry _].
  destruct (closeTunnel_forces_release created.2 "localhost" 4000) as [_ Hnone].
  split.
  - destruct (Hentry 0%nat 0%nat {| refcount := 1; value := 7 |} (Some tunnel3000))
      as (_ & _ & _ & He); [reflexivity..|]. exact He.
  - apply (Hnone eq_refl None).
Defined.

Lemma failed_creation_keeps_record_witness :
  openTunnel_then_run "localhost" 3000 None created.2 =
    (None, emit (LogTrace "New tunnel is undefined.") created.2) ∧
  stored_record (openTunnel_then_run "localhost" 3000 None created.2).2 "localhost" 3000 =
    Some {| refcount := 1; value := 7 |}.
Proof.
  destruct (failed_creation_keeps_record false created.2 "localhost" 3000 0 0)
    as (_ & _ & Hrun & _); [reflexivity..|].
  split; [exact Hrun|]. rewrite Hrun. reflexivity.
Defined.

Lemma getTunnelFromMap_localhost_alias_witness :
  getTunnelFromMap "127.0.0.1" 3000 created.2 = Some 0%nat ∧
  getTunnelFromMap "example.com" 3000 created.2 = None.
Proof.
  destruct (getTunnelFromMap_localhost_alias created.2 3000) as (_ & H127 & Hother).
  split.
  - rewrite H127. reflexivity.
  - rewrite (Hother "example.com"); [reflexivity | discriminate | discriminate].
Defined.

End TunnelWitnesses.

(** * More properties *)

(** ** Ports in a URI *)

Lemma is_nat_pretty_N_char d :
  (d < 10)%N → Ascii.is_nat (pretty_N_char d) = Some (N.to_nat d).
Proof.
  intros Hd.
  assert (d = 0 ∨ d = 1 ∨ d = 2 ∨ d = 3 ∨ d = 4 ∨ d = 5 ∨ d = 6 ∨ d = 7 ∨ d = 8 ∨ d = 9)%N
    as Hcases by lia.
  repeat (destruct Hcases as [->|Hcases]; [reflexivity|]). by subst.
Qed.

Lemma pretty_N_go_digits x s :
  all_digits (pretty_N_go x s) = all_digits s ∧
  ∃ k : Z, 0 ≤ k ∧ ∀ acc,
    number_of_digits acc (pretty_N_go x s) = number_of_digits (acc * 10 ^ k + Z.of_N x) s.
Proof.
  revert s. induction (N.lt_wf_0 x) as [x _ IH]. intros s.
  destruct (decide (x = 0%N)) as [->|Hx].
  - rewrite pretty_N_go_0. split; [done|]. exists 0. split; [done|].
    intros acc. f_equal. lia.
  - rewrite pretty_N_go_step by lia.
    assert (x `div` 10 < x)%N as Hlt by (apply N.div_lt; lia).
    destruct (IH _ Hlt (String (pretty_N_char (x `mod` 10)) s)) as [Hall (k & Hk & Hnum)].
    assert (x `mod` 10 < 10)%N as Hmod by (apply N.mod_lt; lia).
    pose proof (is_nat_pretty_N_char _ Hmod) as Hchar.
    split.
    + rewrite Hall. cbn [all_digits]. unfold is_digit. rewrite Hchar.
      by rewrite bool_decide_eq_true_2 by eauto.
    + exists (k + 1). split; [lia|]. intros acc. rewrite Hnum. cbn [number_of_digits].
      rewrite Hchar. cbn [default from_option id]. f_equal.
      rewrite Z.pow_add_r by lia. rewrite N2Z.inj_div. rewrite N_nat_Z, N2Z.inj_mod.
      change (Z.of_N 10) with 10.
      pose proof (Z.div_mod (Z.of_N x) 10). lia.
Qed.

Lemma pretty_N_go_ne_empty x s : s ≠ "" → pretty_N_go x s ≠ "".
Proof.
  revert s. induction (N.lt_wf_0 x) as [x _ IH]. intros s Hs.
  destruct (decide (x = 0%N)) as [->|Hx]; [by rewrite pretty_N_go_0|].
  rewrite pretty_N_go_step by lia. apply IH; [apply N.div_lt; lia | done].
Qed.

Lemma pretty_Z_decimal (n : Z) :
  0 ≤ n → digits1 (pretty n) = true ∧ number_of_digits 0 (pretty n) = n.
Proof.
  intros Hn. destruct n as [|p|p]; [done| |lia].
  change (pretty (Z.pos p)) with (pretty_N_go (N.pos p) "").
  destruct (pretty_N_go_digits (N.pos p) "") as [Hall (k & Hk & Hnum)].
  split.
  - rewrite pretty_N_go_step in Hall |- * by lia.
    destruct (pretty_N_go _ _) eqn:E; [|exact Hall].
    by apply pretty_N_go_ne_empty in E.
  - rewrite Hnum. cbn [number_of_digits]. lia.
Qed.

Lemma number_of_digits_nonneg acc s : 0 ≤ acc → 0 ≤ number_of_digits acc s.
Proof.
  revert acc. induction s as [|c s IH]; intros acc Hacc; [done|].
  cbn [number_of_digits]. apply IH. lia.
Qed.

Section TunnelMorePure.
Import Tunnel.

(** X1. A URI with scheme [http] or [https] whose authority is one of the
    three hosts, a colon and the decimal print of a port [n] with
    [0 ≤ n < 2^53] gives back that host and [n]; and whatever
    [extractLocalHostUriMetaDataForPortMapping] finds has one of the three
    hosts as address and a port that is not negative. *)
Theorem extract_port_round_trip :
  (∀ (uri : URI) (h : string) (n : Z),
     scheme uri = "http" ∨ scheme uri = "https" →
     h ∈ ["localhost"; "127.0.0.1"; "0.0.0.0"] →
     0 ≤ n < 2 ^ 53 →
     authority uri = h +:+ ":" +:+ pretty n →
     extractLocalHostUriMetaDataForPortMapping uri = Some (h, n)) ∧
  (∀ (uri : URI) (a : string) (p : Z),
     extractLocalHostUriMetaDataForPortMapping uri = Some (a, p) →
     a ∈ ["localhost"; "127.0.0.1"; "0.0.0.0"] ∧ 0 ≤ p ∧
     (scheme uri = "http" ∨ scheme uri = "https")).
Proof.
  split.
  - intros uri h n Hs Hh [Hn _] Ha.
    destruct (pretty_Z_decimal n Hn) as [Hdig Hnum].
    apply all_digits_decimal in Hdig.
    unfold extractLocalHostUriMetaDataForPortMapping.
    assert (bool_decide (scheme uri ≠ "http") && bool_decide (scheme uri ≠ "https") = false)
      as ->.
    { apply andb_false_iff. destruct Hs as [Hs|Hs]; [left | right];
        apply bool_decide_eq_false; by rewrite Hs; intros []. }
    rewrite Ha.
    destruct (localhostMatch_exec_complete h (pretty n) Hh Hdig) as [[a ds] Hm].
    rewrite Hm. apply localhostMatch_exec_Some in Hm as (Ha' & _ & Heq).
    destruct (alternative_unique _ _ _ _ Hh Ha' Heq) as [<- <-]. by rewrite Hnum.
  - intros uri a p Hex.
    assert (canTunnel uri = true) as Hcan.
    { unfold canTunnel. apply bool_decide_eq_true. by eexists. }
    apply canTunnel_true in Hcan as [Hs _].
    unfold extractLocalHostUriMetaDataForPortMapping in Hex.
    destruct (_ && _); [done|].
    destruct (localhostMatch_exec (authority uri)) as [[a' ds]|] eqn:Hm; [|done].
    injection Hex as <- <-. apply localhostMatch_exec_Some in Hm as (Ha' & _ & _).
    split_and!; [done | by apply number_of_digits_nonneg | done].
Qed.

Lemma extract_port_round_trip_witness :
  extractLocalHostUriMetaDataForPortMapping
    {| scheme := "http"; authority := "0.0.0.0:8080"; path := "/"; query := "";
       fragment := "" |} = Some ("0.0.0.0", 8080).
Proof.
  destruct extract_port_round_trip as [Hround _].
  apply (Hround _ "0.0.0.0" 8080).
  - left. reflexivity.
  - apply list_elem_of_further, list_elem_of_further, list_elem_of_here.
  - split; [discriminate | reflexivity].
  - reflexivity.
Defined.

End TunnelMorePure.

(** ** More of the tunnel service *)

Section TunnelMore.
Import Tunnel TunnelRuns.
Variable isWindows : bool.

(** X2. The other name of a loopback host is a loopback host again and
    leads back; a query under one of the two names finds a record exactly
    when a query under the other does; and unless each of the two hosts has a
    record of its own for the port, both queries give the same record. *)
Theorem loopback_queries_agree (h o : string) :
  getOtherLocalhost h = Some o →
  getOtherLocalhost o = Some h ∧ h ≠ o ∧ isLocalhost h = true ∧ isLocalhost o = true ∧
  ∀ st q,
    (is_Some (getTunnelFromMap h q st) ↔ is_Some (getTunnelFromMap o q st)) ∧
    (stored_ref st h q = None ∨ stored_ref st o q = None →
     getTunnelFromMap h q st = getTunnelFromMap o q st).
Proof.
  intros Ho.
  assert (getOtherLocalhost o = Some h ∧ h ≠ o ∧ isLocalhost h = true ∧ isLocalhost o = true)
    as (Hback & Hne & Hl1 & Hl2).
  { unfold getOtherLocalhost in Ho. repeat case_decide; simplify_eq; done. }
  split_and!; try done. intros st q.
  rewrite (getTunnelFromMap_alias h o q st Ho), (getTunnelFromMap_alias o h q st Hback).
  destruct (stored_ref st h q) as [r1|], (stored_ref st o q) as [r2|]; split;
    try done; try (intros [?|?]; done); split; intros [? ?]; by eauto.
Qed.

Lemma loopback_queries_agree_witness :
  getTunnelFromMap "localhost" 3000 Examples.created.2 =
  getTunnelFromMap "127.0.0.1" 3000 Examples.created.2.
Proof.
  destruct (loopback_queries_agree "localhost" "127.0.0.1" eq_refl) as (_ & _ & _ & _ & H).
  apply (H Examples.created.2 3000). right. reflexivity.
Defined.

(** *** [closeTunnel] and [dispose] where nothing is stored *)

Lemma update_refcount_missing r f st :
  records st !! r = None → update_refcount r f st = st.
Proof.
  intros Hr. destruct st as [t pm recs prov ce cp es]. unfold update_refcount, set_records.
  cbn in *. f_equal. apply map_eq. intros i. rewrite lookup_alter.
  case_decide; [subst; by rewrite Hr | done].
Qed.

Lemma tryDisposeTunnel_missing h q r st :
  records st !! r = None → tryDisposeTunnel h q r st = (None, st).
Proof. intros Hr. unfold tryDisposeTunnel. by rewrite Hr. Qed.

Lemma closeTunnel_nothing h q st :
  stored_record st h q = None → closeTunnel h q st = (None, st).
Proof.
  unfold stored_record, stored_ref, closeTunnel. intros Hnone.
  destruct (_tunnels st !! h) as [m|]; [|done]. cbn in Hnone.
  destruct (portMap st m !! q) as [r|]; [|done]. cbn in Hnone.
  rewrite (update_refcount_missing _ _ _ Hnone). by apply tryDisposeTunnel_missing.
Qed.

Lemma makeTunnel_dispose_nothing t st :
  stored_record st (tunnelRemoteHost t) (tunnelRemotePort t) = None →
  makeTunnel_dispose t st = (None, st).
Proof.
  unfold stored_record, stored_ref, makeTunnel_dispose. intros Hnone.
  destruct (_tunnels st !! _) as [m|]; [|done]. cbn in Hnone.
  destruct (portMap st m !! _) as [r|]; [|done]. cbn in Hnone.
  rewrite (update_refcount_missing _ _ _ Hnone). by apply tryDisposeTunnel_missing.
Qed.

Lemma stored_record_after_closeTunnel h q st :
  stored_record (closeTunnel h q st).2 h q = None.
Proof.
  destruct (stored_record st h q) as [rec|] eqn:Hs.
  - apply stored_record_slot in Hs as (m & r & Hm & Hslot & Hr).
    unfold closeTunnel. rewrite Hm. unfold slot in Hslot. rewrite Hslot.
    rewrite (tryDisposeTunnel_released _ _ _ _ _ m
               (records_update_refcount r (λ _, 0) st rec Hr)) by done.
    cbn [snd]. unfold stored_record. by rewrite stored_ref_Map_delete.
  - by rewrite (closeTunnel_nothing _ _ _ Hs).
Qed.

(** X3. After [closeTunnel] for a host and port, a second [closeTunnel]
    and the [dispose] of any handle for that host and port return without
    scheduling a disposal and leave the service as it is: a tunnel is not
    disposed a second time. *)
Theorem closeTunnel_then_nothing_left (st : TunnelService) (h : string) (q : Z) :
  closeTunnel h q (closeTunnel h q st).2 = (None, (closeTunnel h q st).2) ∧
  ∀ t, tunnelRemoteHost t = h → tunnelRemotePort t = q →
       makeTunnel_dispose t (closeTunnel h q st).2 = (None, (closeTunnel h q st).2).
Proof.
  pose proof (stored_record_after_closeTunnel h q st) as Hnone. split.
  - by apply closeTunnel_nothing.
  - intros t <- <-. by apply makeTunnel_dispose_nothing.
Qed.

Lemma closeTunnel_then_nothing_left_witness :
  closeTunnel "localhost" 3000 (closeTunnel "localhost" 3000 Examples.created.2).2 =
    (None, (closeTunnel "localhost" 3000 Examples.created.2).2) ∧
  makeTunnel_dispose Examples.tunnel3000 (closeTunnel "localhost" 3000 Examples.created.2).2 =
    (None, (closeTunnel "localhost" 3000 Examples.created.2).2).
Proof.
  destruct (closeTunnel_then_nothing_left Examples.created.2 "localhost" 3000) as [H1 H2].
  split; [exact H1 | apply H2; reflexivity].
Defined.

(** *** Disposing a handle again and again *)

Lemma makeTunnel_dispose_held t st m r rec :
  _tunnels st !! tunnelRemoteHost t = Some m →
  portMap st m !! tunnelRemotePort t = Some r →
  records st !! r = Some rec → 2 ≤ refcount rec →
  makeTunnel_dispose t st = (None, update_refcount r (λ n, n - 1) st).
Proof.
  intros Hm Hq Hr Hge. unfold makeTunnel_dispose. rewrite Hm, Hq.
  apply (tryDisposeTunnel_held _ _ _ _ _ (records_update_refcount r _ st rec Hr)).
  simpl. lia.
Qed.

Lemma dispose_times_held t st m r pr (n k : nat) :
  _tunnels st !! tunnelRemoteHost t = Some m →
  portMap st m !! tunnelRemotePort t = Some r →
  records st !! r = Some {| refcount := Z.of_nat n; value := pr |} →
  (k < n)%nat →
  _tunnels (dispose_times k t st) = _tunnels st ∧
  portMaps (dispose_times k t st) = portMaps st ∧
  records (dispose_times k t st) !! r =
    Some {| refcount := Z.of_nat n - Z.of_nat k; value := pr |} ∧
  effects (dispose_times k t st) = effects st.
Proof.
  intros Hm Hq Hr. induction k as [|k IH]; intros Hk.
  - cbn. rewrite Hr. split_and!; try done. do 2 f_equal. lia.
  - destruct IH as (Ht & Hp & Hrec & He); [lia|].
    change (dispose_times (S k) t st) with (makeTunnel_dispose t (dispose_times k t st)).2.
    rewrite (makeTunnel_dispose_held t _ m r
               {| refcount := Z.of_nat n - Z.of_nat k; value := pr |}); cycle 1.
    + by rewrite Ht.
    + unfold portMap. by rewrite Hp.
    + exact Hrec.
    + simpl. lia.
    + cbn [snd]. split_and!; try done.
      rewrite (records_update_refcount _ _ _ _ Hrec). do 2 f_equal. simpl. lia.
Qed.

(** X4. A record stored with refcount [n ≥ 1] under the host and port of
    a tunnel: each of the first [n - 1] calls of [dispose] on a handle of the
    tunnel lowers the refcount by one and does nothing else; the [n]-th call
    takes it to 0, removes the entry and schedules the one disposal; and any
    further call changes nothing. *)
Theorem dispose_counts_down
    (t : RemoteTunnel) (st : TunnelService) (m r pr : nat) (n : nat) :
  let h := tunnelRemoteHost t in
  let q := tunnelRemotePort t in
  (1 ≤ n)%nat →
  _tunnels st !! h = Some m →
  portMap st m !! q = Some r →
  records st !! r = Some {| refcount := Z.of_nat n; value := pr |} →
  (∀ k, (k < n)%nat →
     stored_record (dispose_times k t st) h q =
       Some {| refcount := Z.of_nat n - Z.of_nat k; value := pr |} ∧
     effects (dispose_times k t st) = effects st ∧
     (makeTunnel_dispose t (dispose_times k t st)).1 =
       if decide (S k = n) then Some (r, pr) else None) ∧
  (stored_ref (dispose_times n t st) h q = None ∧
   records (dispose_times n t st) !! r = Some {| refcount := 0; value := pr |} ∧
   effects (dispose_times n t st) =
     effects st ++
     [LogTrace ("Tunnel is being disposed " +:+ h +:+ ":" +:+ pretty q +:+ ".")]) ∧
  (∀ j, dispose_times (n + j) t st = dispose_times n t st).
Proof.
  intros h q Hn Hm Hq Hr.
  assert (∀ k, (k < n)%nat →
    makeTunnel_dispose t (dispose_times k t st) =
      if decide (S k = n)
      then (Some (r, pr),
            Map_delete m q
              (emit (LogTrace ("Tunnel is being disposed " +:+ h +:+ ":" +:+ pretty q +:+ "."))
                 (update_refcount r (λ n, n - 1) (dispose_times k t st))))
      else (None, update_refcount r (λ n, n - 1) (dispose_times k t st))) as Hcall.
  { intros k Hk. destruct (dispose_times_held t st m r pr n k Hm Hq Hr Hk)
      as (Ht & Hp & Hrec & He).
    case_decide as Hlast.
    - unfold makeTunnel_dispose. fold h q. rewrite Ht, Hm. unfold portMap at 1.
      rewrite Hp. fold (portMap st m). rewrite Hq.
      rewrite (tryDisposeTunnel_released _ _ _ _ _ m
                 (records_update_refcount r (λ n, n - 1) _ _ Hrec)).
      + done.
      + simpl. lia.
      + cbn. by rewrite Ht.
    - apply (makeTunnel_dispose_held t _ m r
               {| refcount := Z.of_nat n - Z.of_nat k; value := pr |}); fold h q.
      + by rewrite Ht.
      + unfold portMap. by rewrite Hp.
      + exact Hrec.
      + simpl. lia. }
  assert (stored_ref (dispose_times n t st) h q = None ∧
          records (dispose_times n t st) !! r = Some {| refcount := 0; value := pr |} ∧
          effects (dispose_times n t st) =
            effects st ++
            [LogTrace ("Tunnel is being disposed " +:+ h +:+ ":" +:+ pretty q +:+ ".")])
    as Hlast.
  { destruct n as [|n']; [lia|].
    destruct (dispose_times_held t st m r pr (S n') n' Hm Hq Hr) as (Ht & Hp & Hrec & He);
      [lia|].
    change (dispose_times (S n') t st) with (makeTunnel_dispose t (dispose_times n' t st)).2.
    rewrite (Hcall n') by lia. rewrite decide_True by done. cbn [snd]. split_and!.
    - apply stored_ref_Map_delete. cbn. by rewrite Ht.
    - cbn [records Map_delete set_portMaps emit].
      rewrite (records_update_refcount _ _ _ _ Hrec). do 2 f_equal. simpl. lia.
    - cbn. by rewrite He. }
  split_and!.
  - intros k Hk. destruct (dispose_times_held t st m r pr n k Hm Hq Hr Hk)
      as (Ht & Hp & Hrec & He).
    split_and!.
    + unfold stored_record, stored_ref, portMap. rewrite Ht, Hp, Hm. cbn.
      fold (portMap st m). rewrite Hq. exact Hrec.
    + exact He.
    + rewrite (Hcall k Hk). by case_decide.
  - apply Hlast.
  - apply Hlast.
  - apply Hlast.
  - intros j. induction j as [|j IH]; [by rewrite Nat.add_0_r|].
    rewrite Nat.add_succ_r.
    change (dispose_times (S (n + j)) t st)
      with (makeTunnel_dispose t (dispose_times (n + j) t st)).2.
    rewrite IH. rewrite makeTunnel_dispose_nothing; [done|].
    unfold stored_record. fold h q. by rewrite (proj1 Hlast).
Qed.

Lemma dispose_counts_down_witness :
  stored_record (dispose_times 1 Examples.tunnel3000 Examples.opened_twice.2) "localhost" 3000 =
    Some {| refcount := 1; value := 7 |} ∧
  dispose_times 5 Examples.tunnel3000 Examples.opened_twice.2 =
    dispose_times 2 Examples.tunnel3000 Examples.opened_twice.2.
Proof.
  destruct (dispose_counts_down Examples.tunnel3000 Examples.opened_twice.2 0 0 7 2)
    as (Hk & _ & Hj); [lia | reflexivity..|].
  split.
  - apply (Hk 1%nat). lia.
  - apply (Hj 3%nat).
Defined.

(** *** [removeEmptyTunnelFromMap] *)

Lemma portMap_Map_delete_absent m q st m' :
  portMap st m !! q = None → portMap (Map_delete m q st) m' = portMap st m'.
Proof.
  intros Hq. rewrite portMap_Map_delete. case_decide as Hm; [|done].
  subst. by rewrite delete_id.
Qed.

(** X5. [removeEmptyTunnelFromMap], run to its end, changes no lookup: for
    every host and port the record found before is the record found after,
    and records and effects are as before.  What it does is housekeeping: a
    host that is still a key of [_tunnels] afterwards has an inner map that
    is not empty. *)
Theorem removeEmptyTunnelFromMap_keeps_lookups (st : TunnelService) (h : string) (q : Z) :
  (∀ h' q', stored_ref (removeEmptyTunnelFromMap_run h q st) h' q' = stored_ref st h' q') ∧
  records (removeEmptyTunnelFromMap_run h q st) = records st ∧
  effects (removeEmptyTunnelFromMap_run h q st) = effects st ∧
  (∀ m, _tunnels (removeEmptyTunnelFromMap_run h q st) !! h = Some m →
        portMap (removeEmptyTunnelFromMap_run h q st) m ≠ ∅).
Proof.
  unfold removeEmptyTunnelFromMap_run, removeEmptyTunnelFromMap.
  destruct (_tunnels st !! h) as [m|] eqn:Hm; [|by rewrite Hm].
  unfold removeEmptyTunnelFromMap_resume, await_value.
  destruct (portMap st m !! q) as [r|] eqn:Hq.
  - rewrite (bool_decide_eq_false_2 (Some r = None)) by done.
    assert (portMap st m ≠ ∅) as Hne by (intros He; by rewrite He, lookup_empty in Hq).
    rewrite bool_decide_eq_false_2 by (by intros ?%map_size_empty_iff).
    split_and!; try done. intros m'. rewrite Hm. by intros [= <-].
  - rewrite (bool_decide_eq_true_2 (None = None)) by done.
    rewrite (portMap_Map_delete_absent _ _ _ _ Hq).
    assert (∀ h' q', stored_ref (Map_delete m q st) h' q' = stored_ref st h' q') as Hsame.
    { intros h' q'. unfold stored_ref. cbn [_tunnels Map_delete set_portMaps].
      destruct (_tunnels st !! h') as [m'|]; [|done]. cbn.
      by rewrite (portMap_Map_delete_absent _ _ _ _ Hq). }
    case_bool_decide as Hsize.
    + apply map_size_empty_iff in Hsize. split_and!; try done.
      * intros h' q'. unfold stored_ref. cbn [_tunnels set_tunnels].
        destruct (decide (h' = h)) as [->|Hh].
        -- rewrite lookup_delete_eq, Hm. cbn. by rewrite Hsize, lookup_empty.
        -- rewrite lookup_delete_ne by done. apply Hsame.
      * intros m'. cbn. by rewrite lookup_delete_eq.
    + split_and!; try done. intros m'. cbn [_tunnels Map_delete set_portMaps].
      rewrite Hm. intros [= <-]. rewrite (portMap_Map_delete_absent _ _ _ _ Hq).
      by intros ?%map_size_empty_iff.
Qed.

Lemma removeEmptyTunnelFromMap_keeps_lookups_witness :
  stored_ref (removeEmptyTunnelFromMap_run "localhost" 3000
                (closeTunnel "localhost" 3000 Examples.created.2).2) "localhost" 3000 = None ∧
  _tunnels (removeEmptyTunnelFromMap_run "localhost" 3000
              (closeTunnel "localhost" 3000 Examples.created.2).2) !! "localhost" = None.
Proof.
  destruct (removeEmptyTunnelFromMap_keeps_lookups
              (closeTunnel "localhost" 3000 Examples.created.2).2 "localhost" 3000)
    as (Hsame & _ & _ & Hne).
  split.
  - rewrite Hsame. reflexivity.
  - destruct (_tunnels _ !! "localhost") as [m|] eqn:E; [|done].
    destruct (Hne m eq_refl). revert E. vm_compute. discriminate.
Defined.

(** *** One tunnel does not disturb another *)

Lemma hosts_wf_frame st st' :
  _tunnels st' = _tunnels st → portMaps st' = portMaps st → hosts_wf st → hosts_wf st'.
Proof. intros Ht Hp. unfold hosts_wf. by rewrite Ht, Hp. Qed.

Lemma hosts_wf_grows st st' : store_grows st st' → hosts_wf st → hosts_wf st'.
Proof.
  intros [Ht Hp] [Halloc Hown]. split.
  - intros h m Hm. apply Hp, (Halloc h), Ht, Hm.
  - intros h1 h2 m H1 H2. apply (Hown h1 h2 m); by apply Ht.
Qed.

Lemma store_grows_Map_delete m q st st1 :
  _tunnels st1 = _tunnels st → portMaps st1 = portMaps st →
  store_grows st (Map_delete m q st1).
Proof.
  intros Ht Hp. split.
  - intros h m'. cbn. by rewrite Ht.
  - intros m' Hm'. cbn. rewrite Hp. destruct (decide (m' = m)) as [->|Hne].
    + rewrite lookup_insert_eq. by eexists.
    + by rewrite lookup_insert_ne.
Qed.

Lemma hosts_wf_addTunnelToMap h q pr st : hosts_wf st → hosts_wf (addTunnelToMap h q pr st).
Proof.
  intros [Halloc Hown].
  destruct (addTunnelToMap_spec h q pr st) as (m & Ht & Hp & _ & Hm & _).
  assert (∀ h', h' ≠ h → _tunnels st !! h' = Some m → False) as Hfresh.
  { intros h' Hne Hh'. destruct Hm as [Hm|[_ ->]].
    - by apply Hne, (Hown h' h m).
    - apply (is_fresh (dom (portMaps st))). apply elem_of_dom. by apply (Halloc h'). }
  split.
  - intros h' m'. rewrite Ht, Hp. destruct (decide (h' = h)) as [->|Hne].
    + rewrite lookup_insert_eq. intros [= <-]. rewrite lookup_insert_eq. by eexists.
    + rewrite lookup_insert_ne by done. intros Hh'.
      destruct (decide (m' = m)) as [->|Hmm]; [by destruct (Hfresh h')|].
      rewrite lookup_insert_ne by done. by apply (Halloc h').
  - intros h1 h2 m'. rewrite Ht.
    destruct (decide (h1 = h)) as [->|H1], (decide (h2 = h)) as [->|H2]; try done.
    + rewrite lookup_insert_eq, lookup_insert_ne by done. intros [= <-] Hh2.
      by destruct (Hfresh h2).
    + rewrite lookup_insert_eq, lookup_insert_ne by done. intros Hh1 [= <-].
      by destruct (Hfresh h1).
    + rewrite !lookup_insert_ne by done. apply Hown.
Qed.

Lemma hosts_wf_tryDisposeTunnel h q r st st0 :
  _tunnels st = _tunnels st0 → portMaps st = portMaps st0 →
  hosts_wf st0 → hosts_wf (tryDisposeTunnel h q r st).2.
Proof.
  intros Ht Hp Hwf. unfold tryDisposeTunnel.
  destruct (records st !! r) as [rec|]; [|by apply (hosts_wf_frame st0)].
  case_bool_decide; [|by apply (hosts_wf_frame st0)]. cbn [snd emit _tunnels].
  destruct (_tunnels st !! h) as [m|]; [|by apply (hosts_wf_frame st0)].
  apply (hosts_wf_grows st0); [|done]. by apply store_grows_Map_delete.
Qed.

Lemma hosts_wf_step c c' :
  hosts_wf (service c) → step isWindows c c' → hosts_wf (service c').
Proof.
  intros Hwf Hstep.
  destruct Hstep; unfold call_openTunnel, call_dispose, call_closeTunnel; cbn [service].
  - unfold openTunnel. destruct ap as [ap|]; [|by apply (hosts_wf_frame (service c))].
    unfold retainOrCreateTunnel. destruct (getTunnelFromMap _ _ _) as [r|].
    + destruct (value <$> records _ !! r); by apply (hosts_wf_frame (service c)).
    + cbn [_tunnelProvider emit]. destruct (_tunnelProvider (service c)) as [provider|];
        [|by apply (hosts_wf_frame (service c))].
      unfold createWithProvider. destruct (forwardPort provider _ _) as [pr|].
      * apply hosts_wf_addTunnelToMap. by apply (hosts_wf_frame (service c)).
      * by apply (hosts_wf_frame (service c)).
  - unfold makeTunnel_dispose. destruct (_tunnels (service c) !! _); [|done].
    destruct (portMap (service c) _ !! _); [|done].
    by apply (hosts_wf_tryDisposeTunnel _ _ _ _ (service c)).
  - unfold closeTunnel. destruct (_tunnels (service c) !! _); [|done].
    destruct (portMap (service c) _ !! _); [|done].
    by apply (hosts_wf_tryDisposeTunnel _ _ _ _ (service c)).
  - destruct prov; by apply (hosts_wf_frame (service c)).
  - by apply (hosts_wf_frame (service c)).
  - done.
  - unfold openTunnel_then. destruct v as [t|]; [destruct (_ || _)|];
      by apply (hosts_wf_frame (service c)).
  - unfold removeEmptyTunnelFromMap_resume, await_value.
    set (st1 := if bool_decide (tunnel = None) then Map_delete hostMap q (service c)
                else service c).
    assert (store_grows (service c) st1) as Hg.
    { unfold st1. case_bool_decide; [by apply store_grows_Map_delete|]. by split. }
    destruct (bool_decide (size (portMap st1 hostMap) = 0%nat));
      [|by apply (hosts_wf_grows (service c))].
    apply (hosts_wf_grows (service c)); [|done]. destruct Hg as [Ht Hp]. split; [|done].
    intros h' m'. cbn. intros [_ Hh']%lookup_delete_Some. by apply Ht.
  - destruct v; by apply (hosts_wf_frame (service c)).
  - by apply (hosts_wf_frame (service c)).
Qed.

Lemma hosts_wf_reachable c : reachable isWindows c → hosts_wf (service c).
Proof.
  revert c. apply (rtc_ind_r (R := step isWindows) (λ c, hosts_wf (service c)) initial).
  - split; intros *; cbn; by rewrite lookup_empty.
  - intros c1 c2 _ Hstep IH. by apply (hosts_wf_step c1).
Qed.

Lemma stored_record_tryDisposeTunnel_other h q m r f st h' q' :
  store_inv st → hosts_wf st → _tunnels st !! h = Some m → slot st m q r →
  (h', q') ≠ (h, q) →
  stored_record (tryDisposeTunnel h q r (update_refcount r f st)).2 h' q' =
    stored_record st h' q'.
Proof.
  intros [Hheld Hinj] [_ Hown] Hm Hs Hne.
  destruct (Hheld _ _ _ Hs) as (rec & Hr & _).
  pose proof (records_update_refcount r f st rec Hr) as Hr1.
  set (st1 := update_refcount r f st) in *.
  assert (∀ r', stored_ref st h' q' = Some r' → records st1 !! r' = records st !! r')
    as Hrecs.
  { intros r' Hr'. unfold stored_ref in Hr'.
    destruct (_tunnels st !! h') as [m'|] eqn:Hm'; [|done]. cbn in Hr'.
    unfold st1. cbn. apply lookup_alter_ne. intros ->.
    destruct (Hinj _ _ _ _ _ Hr' Hs) as [-> ->].
    apply Hne. f_equal. by apply (Hown h' h m). }
  destruct (decide (f (refcount rec) ≤ 0)) as [Hle|Hgt].
  - rewrite (tryDisposeTunnel_released _ _ _ _ _ m Hr1) by done. cbn [snd].
    assert (stored_ref (Map_delete m q
              (emit (LogTrace ("Tunnel is being disposed " +:+ h +:+ ":" +:+ pretty q +:+ "."))
                 st1)) h' q' = stored_ref st h' q') as Href.
    { unfold stored_ref. cbn [_tunnels Map_delete set_portMaps emit st1 update_refcount
                               set_records].
      destruct (_tunnels st !! h') as [m'|] eqn:Hm'; [|done]. cbn.
      rewrite portMap_Map_delete. case_decide as Hmm; [|done]. subst m'.
      assert (h' = h) as -> by by apply (Hown h' h m).
      rewrite lookup_delete_ne; [done|]. intros ->. by apply Hne. }
    unfold stored_record. rewrite Href.
    destruct (stored_ref st h' q') as [r'|] eqn:Hr'; [|done]. cbn. by apply Hrecs.
  - rewrite (tryDisposeTunnel_held _ _ _ _ _ Hr1) by (simpl; lia). cbn [snd].
    unfold stored_record. change (stored_ref st1 h' q') with (stored_ref st h' q').
    destruct (stored_ref st h' q') as [r'|] eqn:Hr'; [|done]. cbn. by apply Hrecs.
Qed.

Lemma hosts_wf_closeTunnel h q st : hosts_wf st → hosts_wf (closeTunnel h q st).2.
Proof.
  intros Hwf. unfold closeTunnel. destruct (_tunnels st !! h); [|done].
  destruct (portMap st _ !! q); [|done]. by apply (hosts_wf_tryDisposeTunnel _ _ _ _ st).
Qed.

Lemma hosts_wf_makeTunnel_dispose t st : hosts_wf st → hosts_wf (makeTunnel_dispose t st).2.
Proof.
  intros Hwf. unfold makeTunnel_dispose. destruct (_tunnels st !! _); [|done].
  destruct (portMap st _ !! _); [|done]. by apply (hosts_wf_tryDisposeTunnel _ _ _ _ st).
Qed.

Lemma stored_record_makeTunnel_dispose_other t st h' q' :
  store_inv st → hosts_wf st →
  (h', q') ≠ (tunnelRemoteHost t, tunnelRemotePort t) →
  stored_record (makeTunnel_dispose t st).2 h' q' = stored_record st h' q'.
Proof.
  intros Hinv Hwf Hne. unfold makeTunnel_dispose.
  destruct (_tunnels st !! _) as [m|] eqn:Hm; [|done].
  destruct (portMap st m !! _) as [r|] eqn:Hq; [|done].
  by apply (stored_record_tryDisposeTunnel_other _ _ m).
Qed.

(** X6. Where every stored record is held and sits in one place
    ([store_inv]) and every host has an inner map of its own ([hosts_wf]),
    what is stored for one host and port is not touched when another is
    closed, disposed or added: [closeTunnel], the [dispose] of a handle and
    [addTunnelToMap] for [(h, q)] leave the record found for any other
    [(h', q')] as it was, and leave the store in that shape. *)
Theorem other_tunnels_untouched (st : TunnelService) (h h' : string) (q q' : Z) :
  store_inv st → hosts_wf st →
  (h', q') ≠ (h, q) →
  (stored_record (closeTunnel h q st).2 h' q' = stored_record st h' q' ∧
   store_inv (closeTunnel h q st).2 ∧ hosts_wf (closeTunnel h q st).2) ∧
  (∀ t, tunnelRemoteHost t = h → tunnelRemotePort t = q →
        stored_record (makeTunnel_dispose t st).2 h' q' = stored_record st h' q' ∧
        store_inv (makeTunnel_dispose t st).2 ∧ hosts_wf (makeTunnel_dispose t st).2) ∧
  (∀ pr, stored_record (addTunnelToMap h q pr st) h' q' = stored_record st h' q' ∧
         store_inv (addTunnelToMap h q pr st) ∧ hosts_wf (addTunnelToMap h q pr st)).
Proof.
  intros Hinv Hwf Hne. split; [|split].
  - split_and!; [|by apply closeTunnel_inv | by apply hosts_wf_closeTunnel].
    unfold closeTunnel. destruct (_tunnels st !! h) as [m|] eqn:Hm; [|done].
    destruct (portMap st m !! q) as [r|] eqn:Hq; [|done].
    by apply (stored_record_tryDisposeTunnel_other h q m).
  - intros t <- <-.
    split_and!; [|by apply makeTunnel_dispose_inv | by apply hosts_wf_makeTunnel_dispose].
    by apply stored_record_makeTunnel_dispose_other.
  - intros pr.
    split_and!; [|by apply store_inv_addTunnelToMap | by apply hosts_wf_addTunnelToMap].
    destruct Hinv as [Hheld _]. destruct Hwf as [Halloc Hown].
    destruct (addTunnelToMap_spec h q pr st) as (m & Ht & Hp & Hrec & Hm & _).
    assert (stored_ref (addTunnelToMap h q pr st) h' q' = stored_ref st h' q') as Href.
    { unfold stored_ref, portMap. rewrite Ht, Hp.
      destruct (decide (h' = h)) as [->|Hh].
      - rewrite lookup_insert_eq. cbn. rewrite lookup_insert_eq. cbn.
        rewrite lookup_insert_ne by (intros ->; by apply Hne).
        destruct Hm as [->|[-> ->]]; [done|]. cbn.
        fold (portMap st (fresh (dom (portMaps st)))). by rewrite portMap_fresh.
      - rewrite lookup_insert_ne by done.
        destruct (_tunnels st !! h') as [m'|] eqn:Hm'; [|done]. cbn.
        rewrite lookup_insert_ne; [done|]. intros <-.
        destruct Hm as [Hm|[_ ->]].
        + by apply Hh, (Hown h' h m).
        + apply (is_fresh (dom (portMaps st))). apply elem_of_dom. by apply (Halloc h'). }
    unfold stored_record. rewrite Href.
    destruct (stored_ref st h' q') as [r'|] eqn:Hr'; [|done]. cbn. rewrite Hrec.
    apply lookup_insert_ne. intros <-.
    unfold stored_ref in Hr'. destruct (_tunnels st !! h') as [m'|]; [|done]. cbn in Hr'.
    destruct (Hheld _ _ _ Hr') as (rec & Hrec' & _). by apply (fresh_record_unused st rec).
Qed.

(** X7. In every configuration that the operations can reach from the
    empty service, the store is well formed: each entry of an inner map
    leads to a record with a refcount of at least 1, no record sits under two
    keys, each host has an inner map of its own.  And a record
    whose disposal is waiting is found under no host and port, neither by a
    direct lookup nor by [getTunnelFromMap], so that a later [openTunnel]
    cannot take it up again. *)
Theorem reachable_store_shape (c : Config) :
  reachable isWindows c →
  store_inv (service c) ∧ hosts_wf (service c) ∧
  (∀ h q rec, stored_record (service c) h q = Some rec → 1 ≤ refcount rec) ∧
  (∀ r p, KTryDispose r p ∈ pending c →
     ∀ h q, stored_ref (service c) h q ≠ Some r ∧ getTunnelFromMap h q (service c) ≠ Some r).
Proof.
  intros Hreach. pose proof (hosts_wf_reachable c Hreach) as Hwf.
  destruct (config_inv_reachable isWindows c Hreach) as [[Hheld Hinj] Hpend].
  split_and!; [done | done | |].
  - intros h q rec (m & r & _ & Hs & Hr)%stored_record_slot.
    destruct (Hheld _ _ _ Hs) as (rec' & Hr' & Hge). by simplify_eq.
  - intros r p Hin h q. destruct (Hpend r p Hin) as [_ Hno]. split.
    + unfold stored_ref. destruct (_tunnels (service c) !! h) as [m|]; [|done]. cbn.
      apply Hno.
    + intros [m Hs]%slot_of_getTunnelFromMap. by apply (Hno m q).
Qed.

(** *** The provider *)

Lemma same_provider_addTunnelToMap h q pr st : same_provider st (addTunnelToMap h q pr st).
Proof.
  unfold addTunnelToMap. case_bool_decide as Hh; simpl.
  - destruct Hh as [m ->]. done.
  - rewrite lookup_insert_eq. done.
Qed.

Lemma same_provider_trans st1 st2 st3 :
  same_provider st1 st2 → same_provider st2 st3 → same_provider st1 st3.
Proof. intros (H1 & H2 & H3) (H4 & H5 & H6). split_and!; congruence. Qed.

Lemma same_provider_tryDisposeTunnel h q r st st0 :
  same_provider st0 st → same_provider st0 (tryDisposeTunnel h q r st).2.
Proof.
  intros Hs. unfold tryDisposeTunnel. destruct (records st !! r) as [rec|]; [|done].
  case_bool_decide; [|done]. cbn [snd emit _tunnels]. by destruct (_tunnels st !! h).
Qed.

Lemma same_provider_createWithProvider provider h q lp e pub st :
  same_provider st (createWithProvider isWindows provider h q lp e pub st).2.
Proof.
  unfold createWithProvider. destruct (forwardPort provider _ _) as [pr|]; [|done].
  cbn [snd]. eapply same_provider_trans; [|apply same_provider_addTunnelToMap]. done.
Qed.

Lemma same_provider_step c c' :
  step isWindows c c' →
  same_provider (service c) (service c') ∨
  (∃ prov feat, service c' = (setTunnelProvider prov feat (service c)).2) ∨
  service c' = setTunnelProvider_dispose (service c).
Proof.
  intros Hstep.
  destruct Hstep; unfold call_openTunnel, call_dispose, call_closeTunnel; cbn [service].
  - left. unfold openTunnel. destruct ap as [ap|]; [|done].
    unfold retainOrCreateTunnel. destruct (getTunnelFromMap _ _ _) as [r|].
    + by destruct (value <$> records _ !! r).
    + cbn [_tunnelProvider emit]. destruct (_tunnelProvider (service c)) as [provider|];
        [|done].
      match goal with
      | |- same_provider _ (let '(_, _) := ?x in _).2 =>
          pose proof (same_provider_createWithProvider provider (default_host h) q lp
                        (default false e) (default false pub)
                        (emit (LogTrace ("openTunnel request for " +:+ show_string h +:+
                                 ":" +:+ pretty q +:+ " on local port " +:+
                                 show_number lp +:+ ".")) (service c))) as Hs;
          destruct x as [[p|] st']
      end; exact Hs.
  - left. unfold makeTunnel_dispose. destruct (_tunnels (service c) !! _); [|done].
    destruct (portMap (service c) _ !! _); [|done]. by apply same_provider_tryDisposeTunnel.
  - left. unfold closeTunnel. destruct (_tunnels (service c) !! _); [|done].
    destruct (portMap (service c) _ !! _); [|done]. by apply same_provider_tryDisposeTunnel.
  - right. left. by exists prov, feat.
  - by right; right.
  - by left.
  - left. unfold openTunnel_then. by destruct v as [t|]; [destruct (_ || _)|].
  - left. unfold removeEmptyTunnelFromMap_resume. by repeat case_bool_decide.
  - left. by destruct v.
  - by left.
Qed.

Lemma flags_wf_reachable c : reachable isWindows c → flags_wf (service c).
Proof.
  revert c. apply (rtc_ind_r (R := step isWindows) (λ c, flags_wf (service c)) initial).
  - done.
  - intros c1 c2 _ Hstep IH.
    destruct (same_provider_step c1 c2 Hstep) as [(H1 & H2 & H3)|[(prov & feat & ->)| ->]].
    + unfold flags_wf, canElevate, canMakePublic in *. rewrite H1, H2, H3. exact IH.
    + by destruct prov.
    + done.
Qed.

(** X8. Only [setTunnelProvider] and the disposable it hands back write
    the provider and the two flags: no other step of the service changes
    them, and in every configuration that can be reached the flags are off
    where no provider is set.  The disposable of a call with a provider
    clears whatever provider is set when it is disposed, a provider of a
    later call included; the disposable of a call without a provider is
    empty and leaves a later provider in place.  Neither touches the stored
    tunnels. *)
Theorem provider_disposable_is_not_tied_to_its_provider :
  (∀ c, reachable isWindows c → flags_wf (service c)) ∧
  (∀ c c', step isWindows c c' →
     same_provider (service c) (service c') ∨
     (∃ prov feat, service c' = (setTunnelProvider prov feat (service c)).2) ∨
     service c' = setTunnelProvider_dispose (service c)) ∧
  (∀ st prov feat prov2 feat2,
     let r1 := setTunnelProvider prov feat st in
     let r2 := setTunnelProvider prov2 feat2 r1.2 in
     let st3 := disposable_dispose r1.1 r2.2 in
     _tunnelProvider r2.2 = prov2 ∧
     canElevate r2.2 = (bool_decide (is_Some prov2) && elevation feat2) ∧
     canMakePublic r2.2 = (bool_decide (is_Some prov2) && feat_public feat2) ∧
     (is_Some prov →
      _tunnelProvider st3 = None ∧ canElevate st3 = false ∧ canMakePublic st3 = false) ∧
     (prov = None → st3 = r2.2) ∧
     disposable_dispose r1.1 st3 = st3 ∧
     stored_record st3 = stored_record st ∧ effects st3 = effects st).
Proof.
  split_and!.
  - apply flags_wf_reachable.
  - apply same_provider_step.
  - intros st prov feat prov2 feat2. cbv zeta.
    destruct prov as [p1|], prov2 as [p2|]; cbn;
      (split_and!; [done..| | |done|done|done]); try done; by intros [? [=]].
Qed.

(** *** [createWithProvider] *)

(** X9. [createWithProvider] asks the provider once, and asks for
    elevation only where the caller wants it, the platform is not Windows and
    the local port (the remote port where none is given) is below 1024; it
    disposes nothing.  An answer of undefined stores nothing.  A promise is
    stored under the host and port with a refcount of 1, whatever was stored
    there, and a search that found nothing before finds the new record. *)
Theorem createWithProvider_stores (provider : ITunnelProvider) (h : string) (q : Z)
    (lp : option Z) (e pub : bool) (st : TunnelService) :
  let opts := {| remoteAddress := {| host := h; port := q |}; localAddressPort := lp;
                 label := None; opt_public := Some pub |} in
  let info := {| elevationRequired :=
                   Some (e && negb isWindows && bool_decide (default q lp < 1024)) |} in
  let res := createWithProvider isWindows provider h q lp e pub st in
  res.1 = forwardPort provider opts info ∧
  forwardPort_calls (effects res.2) = forwardPort_calls (effects st) ++ [(opts, info)] ∧
  disposed_tunnels (effects res.2) = disposed_tunnels (effects st) ∧
  closed_events (effects res.2) = closed_events (effects st) ∧
  (res.1 = None →
   _tunnels res.2 = _tunnels st ∧ portMaps res.2 = portMaps st ∧ records res.2 = records st) ∧
  (∀ pr, res.1 = Some pr →
     stored_record res.2 h q = Some {| refcount := 1; value := pr |} ∧
     (getTunnelFromMap h q st = None →
      ∃ r, getTunnelFromMap h q res.2 = Some r ∧
           records res.2 !! r = Some {| refcount := 1; value := pr |}) ∧
     (∀ r, is_Some (records st !! r) → records res.2 !! r = records st !! r)).
Proof.
  cbv zeta. unfold createWithProvider.
  assert ((if e then isPortPrivileged isWindows
                       match lp with Some l => l | None => q end None else false) =
          e && negb isWindows && bool_decide (default q lp < 1024)) as ->.
  { destruct e; [|done]. unfold isPortPrivileged. by destruct lp. }
  set (opts := {| remoteAddress := _ |}). set (info := {| elevationRequired := _ |}).
  set (st1 := emit (LogTrace "Tunnel created by provider.") _).
  assert (forwardPort_calls (effects st1) = forwardPort_calls (effects st) ++ [(opts, info)])
    as Hcalls.
  { unfold st1, forwardPort_calls. cbn [effects emit]. by rewrite !omap_app, !app_nil_r. }
  assert (disposed_tunnels (effects st1) = disposed_tunnels (effects st)) as Hdisp.
  { unfold st1, disposed_tunnels. cbn [effects emit]. by rewrite !omap_app, !app_nil_r. }
  assert (closed_events (effects st1) = closed_events (effects st)) as Hclosed.
  { unfold st1, closed_events. cbn [effects emit]. by rewrite !omap_app, !app_nil_r. }
  destruct (forwardPort provider opts info) as [pr|] eqn:Hf; cbn [fst snd].
  - rewrite effects_addTunnelToMap. split_and!; [done..|].
    intros pr' [= <-]. split_and!.
    + unfold stored_record. rewrite stored_ref_addTunnelToMap. cbn.
      destruct (addTunnelToMap_spec h q pr st1) as (m & _ & _ & -> & _).
      by rewrite lookup_insert_eq.
    + intros Hnone. exists (fresh (dom (records st1))). split.
      * apply getTunnelFromMap_addTunnelToMap.
        by rewrite (getTunnelFromMap_ext _ _ st1 st).
      * destruct (addTunnelToMap_spec h q pr st1) as (m & _ & _ & -> & _).
        by rewrite lookup_insert_eq.
    + intros r [rec Hr].
      destruct (addTunnelToMap_spec h q pr st1) as (m & _ & _ & -> & _).
      apply lookup_insert_ne. intros <-. by apply (fresh_record_unused st1 rec).
  - split_and!; done.
Qed.

(** *** The handle of a tunnel that is not the one asked for *)

Lemma makeTunnel_id t : makeTunnel t = t.
Proof. by destruct t. Qed.

Lemma dispose_times_other k t st h q :
  store_inv st → hosts_wf st →
  (h, q) ≠ (tunnelRemoteHost t, tunnelRemotePort t) →
  store_inv (dispose_times k t st) ∧ hosts_wf (dispose_times k t st) ∧
  stored_record (dispose_times k t st) h q = stored_record st h q.
Proof.
  intros Hinv Hwf Hne. induction k as [|k (IH1 & IH2 & IH3)]; [done|].
  unfold dispose_times in *. cbn [Nat.iter]. split_and!.
  - by apply makeTunnel_dispose_inv.
  - by apply hosts_wf_makeTunnel_dispose.
  - rewrite <-IH3. by apply stored_record_makeTunnel_dispose_other.
Qed.

(** X10. The handle that [openTunnel] resolves to disposes by the host
    and port that the tunnel of the provider reports, not by those that were
    asked for.  Where the two differ, which the callback only warns about, no
    number of calls of [dispose] on the handle changes what is stored for the
    host and port asked for; where they agree, one call lowers the refcount of
    that record by one. *)
Theorem handle_disposes_by_tunnel_key (st : TunnelService) (h : string) (q : Z)
    (t : RemoteTunnel) :
  store_inv st → hosts_wf st →
  let res := openTunnel_then h q (Some t) st in
  let mismatch := bool_decide ((tunnelRemoteHost t, tunnelRemotePort t) ≠ (h, q)) in
  res.1 = (Some (makeTunnel t), None) ∧
  stored_record res.2 = stored_record st ∧
  effects res.2 =
    effects st ++ [LogTrace "New tunnel established."] ++
    (if mismatch
     then [LogWarn "Created tunnel does not match requirements of requested tunnel. Host or port mismatch."]
     else []) ++
    [TunnelOpened (makeTunnel t)] ∧
  (mismatch = true →
   ∀ k, stored_record (dispose_times k (makeTunnel t) res.2) h q = stored_record st h q) ∧
  (mismatch = false →
   ∀ r rec, stored_ref st h q = Some r → records st !! r = Some rec →
     records (makeTunnel_dispose (makeTunnel t) res.2).2 !! r =
       Some {| refcount := refcount rec - 1; value := value rec |}).
Proof.
  intros Hinv Hwf. cbv zeta. unfold openTunnel_then. rewrite makeTunnel_id.
  set (st1 := emit (LogTrace "New tunnel established.") st).
  set (w := bool_decide (tunnelRemoteHost t ≠ h) || bool_decide (tunnelRemotePort t ≠ q)).
  assert (bool_decide ((tunnelRemoteHost t, tunnelRemotePort t) ≠ (h, q)) = w) as ->.
  { unfold w. rewrite <-bool_decide_or. apply bool_decide_ext. split.
    - intros Hne. destruct (decide (tunnelRemoteHost t = h)) as [<-|]; [|by left].
      right. intros <-. by apply Hne.
    - intros [Hne|Hne] [= ? ?]; by apply Hne. }
  set (st2 := if w then emit (LogWarn _) st1 else st1).
  set (st3 := emit (TunnelOpened t) st2). cbn [fst snd].
  assert (_tunnels st3 = _tunnels st ∧ portMaps st3 = portMaps st ∧ records st3 = records st)
    as (Ht & Hp & Hr).
  { unfold st3, st2. by destruct w. }
  assert (stored_record st3 = stored_record st) as Hsame.
  { unfold stored_record, stored_ref, portMap. by rewrite Ht, Hp, Hr. }
  split_and!; [done | done | | |].
  - unfold st3, st2, st1. destruct w; cbn [effects emit]; by rewrite <-!app_assoc.
  - intros Hw k. rewrite <-Hsame.
    apply dispose_times_other.
    + by apply (store_inv_frame st).
    + by apply (hosts_wf_frame st).
    + intros [= Eh Eq]. unfold w in Hw.
      apply orb_true_iff in Hw as [Hw|Hw]; apply bool_decide_eq_true_1 in Hw; by apply Hw.
  - intros Hw r rec Href Hrec. unfold w in Hw.
    apply orb_false_iff in Hw as [Hh Hq].
    apply bool_decide_eq_false_1 in Hh. apply bool_decide_eq_false_1 in Hq.
    apply dec_stable in Hh. apply dec_stable in Hq. subst h q.
    unfold stored_ref in Href.
    destruct (_tunnels st !! tunnelRemoteHost t) as [m|] eqn:Hm; [|done]. cbn in Href.
    unfold makeTunnel_dispose. rewrite Ht, Hm.
    replace (portMap st3 m) with (portMap st m) by (unfold portMap; by rewrite Hp).
    rewrite Href.
    assert (records (update_refcount r (λ n, n - 1) st3) !! r =
              Some {| refcount := refcount rec - 1; value := value rec |}) as Hr1.
    { apply (records_update_refcount r (λ n, n - 1) st3 rec). by rewrite Hr. }
    unfold tryDisposeTunnel. rewrite Hr1. case_bool_decide; [|done].
    cbn [snd emit _tunnels update_refcount set_records]. rewrite Ht, Hm. exact Hr1.
Qed.

(** *** The other name of a loopback host, and closing *)

(** X16. The two names of the loopback host stand for each other in
    [getTunnelFromMap] only.  Where a record is stored under one name and
    nothing under the other, a search under the other name finds the record,
    but [closeTunnel] and the [dispose] of a handle under that other name do
    nothing: the tunnel is closed under the name it was stored with. *)
Theorem alias_is_for_lookup_only (st : TunnelService) (h o : string) (q : Z) (r : nat) :
  getOtherLocalhost h = Some o →
  stored_ref st o q = Some r →
  stored_ref st h q = None →
  getTunnelFromMap h q st = Some r ∧
  getTunnelFromMap o q st = Some r ∧
  closeTunnel h q st = (None, st) ∧
  (∀ t, tunnelRemoteHost t = h → tunnelRemotePort t = q →
        makeTunnel_dispose t st = (None, st)) ∧
  (∀ rec, records st !! r = Some rec →
     (closeTunnel o q st).1 = Some (r, value rec) ∧
     getTunnelFromMap h q (closeTunnel o q st).2 = None).
Proof.
  intros Ho Hr Hnone.
  assert (getOtherLocalhost o = Some h) as Hback.
  { unfold getOtherLocalhost in Ho |- *. repeat case_decide; simplify_eq; done. }
  assert (stored_record st h q = None) as Hrec by (unfold stored_record; by rewrite Hnone).
  split_and!.
  - by rewrite (getTunnelFromMap_alias h o q st Ho), Hr.
  - by rewrite (getTunnelFromMap_alias o h q st Hback), Hnone.
  - by apply closeTunnel_nothing.
  - intros t <- <-. by apply makeTunnel_dispose_nothing.
  - intros rec Hrec'. unfold stored_ref in Hr.
    destruct (_tunnels st !! o) as [m|] eqn:Hm; [|done]. cbn in Hr.
    assert (closeTunnel o q st =
              (Some (r, value rec),
               Map_delete m q
                 (emit (LogTrace ("Tunnel is being disposed " +:+ o +:+ ":" +:+ pretty q +:+ "."))
                    (update_refcount r (λ _, 0) st)))) as Hclose.
    { unfold closeTunnel. rewrite Hm, Hr.
      exact (tryDisposeTunnel_released o q r _ _ m
               (records_update_refcount r (λ _, 0) st rec Hrec') (Z.le_refl 0) Hm). }
    rewrite Hclose. cbn [fst snd]. split; [done|].
    rewrite (getTunnelFromMap_alias h o q _ Ho).
    rewrite stored_ref_Map_delete by exact Hm.
    unfold stored_ref in Hnone |- *.
    cbn [_tunnels Map_delete set_portMaps emit update_refcount set_records].
    destruct (_tunnels st !! h) as [m'|] eqn:Hm'; [|done]. cbn in Hnone |- *.
    rewrite portMap_Map_delete. case_decide; [|done]. apply lookup_delete_eq.
Qed.

End TunnelMore.

(** ** Sample runs for the store *)

Section TunnelMoreRuns.
Import Tunnel TunnelRuns Examples.

Lemma store_inv_new_service : store_inv new_service.
Proof. split; intros *; unfold slot, portMap; simpl; by rewrite ?lookup_empty. Qed.

Lemma hosts_wf_new_service : hosts_wf new_service.
Proof. split; intros *; simpl; by rewrite lookup_empty. Qed.

Lemma store_inv_created : store_inv created.2.
Proof. apply store_inv_addTunnelToMap, store_inv_new_service. Qed.

Lemma hosts_wf_created : hosts_wf created.2.
Proof. apply hosts_wf_addTunnelToMap, hosts_wf_new_service. Qed.

Lemma other_tunnels_untouched_witness :
  stored_record (closeTunnel "localhost" 4000 created.2).2 "localhost" 3000 =
    Some {| refcount := 1; value := 7 |} ∧
  stored_record (addTunnelToMap "127.0.0.1" 3000 8 created.2) "localhost" 3000 =
    Some {| refcount := 1; value := 7 |}.
Proof.
  destruct (other_tunnels_untouched created.2 "localhost" "localhost" 4000 3000
              store_inv_created hosts_wf_created) as ((Hc & _) & _); [discriminate|].
  destruct (other_tunnels_untouched created.2 "127.0.0.1" "localhost" 3000 3000
              store_inv_created hosts_wf_created) as (_ & _ & Ha); [discriminate|].
  split.
  - rewrite Hc. reflexivity.
  - rewrite (proj1 (Ha 8%nat)). reflexivity.
Defined.

Lemma reachable_store_shape_witness :
  pending c_closed = [KOpenTunnel 7 "localhost" 3000; KTryDispose 0 7] ∧
  getTunnelFromMap "localhost" 3000 (service c_closed) ≠ Some 0%nat ∧
  getTunnelFromMap "127.0.0.1" 3000 (service c_closed) ≠ Some 0%nat.
Proof.
  split; [reflexivity|].
  destruct (reachable_store_shape false c_closed) as (_ & _ & _ & Hgone).
  - eapply rtc_l; [apply (step_setTunnelProvider false initial (Some provider7) features)|].
    eapply rtc_l;
      [apply (step_openTunnel false c_provider (Some caller) (Some "localhost") 3000
                None None None)|].
    eapply rtc_l; [apply (step_closeTunnel false c_opened "localhost" 3000)|].
    apply rtc_refl.
  - assert (KTryDispose 0 7 ∈ pending c_closed) as Hin.
    { apply list_elem_of_further, list_elem_of_here. }
    split; apply (Hgone 0%nat 7%nat Hin).
Defined.

(** A tunnel for [localhost:3000] that reports port 3001. *)
Lemma handle_disposes_by_tunnel_key_witness :
  let t := {| tunnelRemotePort := 3001; tunnelRemoteHost := "localhost";
              tunnelLocalPort := Some 3001; localAddress := "localhost:3001";
              public := false |} in
  stored_record
    (dispose_times 3 (makeTunnel t) (openTunnel_then "localhost" 3000 (Some t) created.2).2)
    "localhost" 3000 = Some {| refcount := 1; value := 7 |}.
Proof.
  intros t.
  destruct (handle_disposes_by_tunnel_key created.2 "localhost" 3000 t
              store_inv_created hosts_wf_created) as (_ & _ & _ & Hkeep & _).
  rewrite (Hkeep eq_refl 3%nat). reflexivity.
Defined.

Lemma alias_is_for_lookup_only_witness :
  getTunnelFromMap "127.0.0.1" 3000 created.2 = Some 0%nat ∧
  closeTunnel "127.0.0.1" 3000 created.2 = (None, created.2).
Proof.
  destruct (alias_is_for_lookup_only created.2 "127.0.0.1" "localhost" 3000 0)
    as (Hfound & _ & Hclose & _); [reflexivity..|].
  split; [exact Hfound | exact Hclose].
Defined.

(** A first provider, then [provider7]; the disposable of the first call
    is disposed, and that of a call without a provider. *)
Lemma provider_disposable_is_not_tied_to_its_provider_witness :
  _tunnelProvider
    (disposable_dispose
       (setTunnelProvider (Some {| forwardPort := λ _ _, None |}) features new_service).1
       (setTunnelProvider (Some provider7) features
          (setTunnelProvider (Some {| forwardPort := λ _ _, None |}) features
             new_service).2).2) = None ∧
  _tunnelProvider
    (disposable_dispose (setTunnelProvider None features new_service).1
       (setTunnelProvider (Some provider7) features
          (setTunnelProvider None features new_service).2).2) = Some provider7 ∧
  flags_wf (service c_closed).
Proof.
  destruct provider_disposable_is_not_tied_to_its_provider with (isWindows := false)
    as (Hflags & _ & Hcomp).
  destruct (Hcomp new_service (Some {| forwardPort := λ _ _, None |}) features
              (Some provider7) features) as (_ & _ & _ & Hclear & _).
  destruct (Hcomp new_service None features (Some provider7) features)
    as (Hset & _ & _ & _ & Hempty & _).
  split_and!.
  - apply Hclear. by eexists.
  - rewrite (Hempty eq_refl). exact Hset.
  - apply Hflags.
    eapply rtc_l; [apply (step_setTunnelProvider false initial (Some provider7) features)|].
    eapply rtc_l;
      [apply (step_openTunnel false c_provider (Some caller) (Some "localhost") 3000
                None None None)|].
    eapply rtc_l; [apply (step_closeTunnel false c_opened "localhost" 3000)|].
    apply rtc_refl.
Defined.

End TunnelMoreRuns.

(** ** More of the terminal bridge *)

Section TerminalMore.
Import Terminal TerminalRuns.

(** X11. [$sendProcessExit] hands the exit code to the proxy of the
    terminal and forgets the proxy.  After it, whether a proxy was there or
    not, every [$sendProcess...] call for that terminal does nothing, a second
    [$sendProcessExit] included, so a proxy gets at most one exit; the proxies
    of other terminals and the ids of the extension host stay. *)
Theorem sendProcessExit_forgets (st : MainThreadTerminalService) (id : Z)
    (exitCode : option Z) :
  let r := sendProcessExit id exitCode st in
  r.2 = from_option (λ p, [emitExit p exitCode]) [] (_terminalProcessProxies st !! id) ∧
  _terminalProcessProxies r.1 = delete id (_terminalProcessProxies st) ∧
  _extHostTerminalIds r.1 = _extHostTerminalIds st ∧
  (∀ code, sendProcessExit id code r.1 = (r.1, [])) ∧
  (∀ data, sendProcessData id data r.1 = (r.1, [])) ∧
  (∀ title, sendProcessTitle id title r.1 = (r.1, [])) ∧
  (∀ pid cwd, sendProcessReady id pid cwd r.1 = (r.1, [])) ∧
  (∀ d, sendOverrideDimensions id d r.1 = (r.1, [])) ∧
  (∀ cwd, sendProcessInitialCwd id cwd r.1 = (r.1, []) ∧ sendProcessCwd id cwd r.1 = (r.1, [])) ∧
  _getTerminalProcess id r.1 = (None, [logError ("Unknown terminal: " +:+ pretty id)]) ∧
  (∀ j data, j ≠ id → (sendProcessData j data r.1).2 = (sendProcessData j data st).2).
Proof.
  cbv zeta.
  assert (_terminalProcessProxies (sendProcessExit id exitCode st).1 !! id = None) as Hgone.
  { unfold sendProcessExit. destruct (_terminalProcessProxies st !! id) eqn:E; [|done].
    cbn. apply lookup_delete_eq. }
  assert (_terminalProcessProxies (sendProcessExit id exitCode st).1 =
            delete id (_terminalProcessProxies st)) as Hdel.
  { unfold sendProcessExit. destruct (_terminalProcessProxies st !! id) eqn:E; [done|].
    cbn. by rewrite delete_id. }
  split_and!.
  - unfold sendProcessExit. by destruct (_terminalProcessProxies st !! id).
  - done.
  - unfold sendProcessExit. by destruct (_terminalProcessProxies st !! id).
  - intros code. unfold sendProcessExit at 1. by rewrite Hgone.
  - intros data. unfold sendProcessData. by rewrite Hgone.
  - intros title. unfold sendProcessTitle. by rewrite Hgone.
  - intros pid cwd. unfold sendProcessReady. by rewrite Hgone.
  - intros d. unfold sendOverrideDimensions. by rewrite Hgone.
  - intros cwd. unfold sendProcessInitialCwd, sendProcessCwd. by rewrite Hgone.
  - unfold _getTerminalProcess. by rewrite Hgone.
  - intros j data Hj. unfold sendProcessData. rewrite Hdel, lookup_delete_ne by done.
    by destruct (_terminalProcessProxies st !! j).
Qed.

Section WithTypes.

Context {ShellArgs Env UriComponents URI : Type}.
Variable URI_revive : option UriComponents → option URI.

(** X12. [$createTerminal] makes the id of the extension host lead to the
    terminal that was created: [_getTerminalId] answers with its number, and
    [$show], [$sendText] and [$dispose] with that id reach the instance that
    the terminal service has under the number.  Other ids lead where they
    did, a second creation under the same id takes the id over, and the
    launch configuration always carries the id and asks to ignore the
    configured working directory. *)
Theorem createTerminal_id_leads_to_terminal (st : MainThreadTerminalService)
    (extHostTerminalId : string)
    (launchConfig : TerminalLaunchConfig ShellArgs Env UriComponents)
    (terminal : ITerminalInstance) :
  let r := createTerminal URI_revive extHostTerminalId launchConfig terminal st in
  _getTerminalId (StringId extHostTerminalId) r.1 = Some (instance_id terminal) ∧
  (∀ other, other ≠ extHostTerminalId →
     _getTerminalId (StringId other) r.1 = _getTerminalId (StringId other) st) ∧
  (∀ ts, getInstanceFromId ts (instance_id terminal) = Some terminal →
     (∀ preserveFocus,
        show ts (StringId extHostTerminalId) preserveFocus r.1 =
          (r.1, [setActiveInstance terminal; showPanel (negb preserveFocus)])) ∧
     (∀ text addNewLine,
        sendText ts (StringId extHostTerminalId) text addNewLine r.1 =
          (r.1, [instance_sendText terminal text addNewLine])) ∧
     dispose ts (StringId extHostTerminalId) r.1 = (r.1, [instance_dispose terminal])) ∧
  (∃ c, r.2 = [createTerminal_call c] ∧
        slc_extHostTerminalId c = Some extHostTerminalId ∧
        slc_ignoreConfigurationCwd c = Some true ∧
        slc_name c = lc_name launchConfig ∧ slc_executable c = shellPath launchConfig) ∧
  _terminalProcessProxies r.1 = _terminalProcessProxies st ∧
  (∀ (launchConfig2 : TerminalLaunchConfig ShellArgs Env UriComponents) terminal2,
     _getTerminalId (StringId extHostTerminalId)
       (createTerminal URI_revive extHostTerminalId launchConfig2 terminal2 r.1).1 =
       Some (instance_id terminal2)).
Proof.
  cbv zeta. unfold createTerminal. cbn [fst snd].
  set (st1 := set_extHostTerminalIds _ st).
  assert (_extHostTerminalIds st1 !! extHostTerminalId = Some (instance_id terminal)) as Hid.
  { apply lookup_insert_eq. }
  split_and!.
  - exact Hid.
  - intros other Hne. cbn. by apply lookup_insert_ne.
  - intros ts Hts. unfold show, sendText, dispose, _getTerminalInstance, _getTerminalId.
    by rewrite Hid, Hts.
  - by eexists.
  - done.
  - intros launchConfig2 terminal2. apply lookup_insert_eq.
Qed.

(** X13. A request to spawn a process is dropped where the extension host
    has no remote authority ([null] or the empty string): nothing is
    registered and nothing is called.  Otherwise, and always for a request to
    start an extension terminal, the proxy of the request is registered under
    its terminal id in place of any other, so that [$sendProcessData] for that
    id reaches this proxy, and [$sendProcessExit] takes it away again; the
    proxies of other terminals stay.  An extension terminal gets initial
    dimensions only where columns and rows are both not 0. *)
Theorem process_requests_register_proxy (st : MainThreadTerminalService)
    (remoteAuthority : option string) (flowControl : option bool)
    (spawn : ISpawnExtHostProcessRequest ShellArgs Env URI)
    (start : IStartExtensionTerminalRequest) :
  let r1 := _onRequestSpawnExtHostProcess remoteAuthority flowControl spawn st in
  let r2 := _onRequestStartExtensionTerminal (ShellArgs := ShellArgs) (Env := Env)
              (URI := URI) start st in
  let p1 := spawn_proxy spawn in
  let p2 := start_proxy start in
  (remoteAuthority = None ∨ remoteAuthority = Some "" → r1 = (st, [])) ∧
  (remoteAuthority ≠ None → remoteAuthority ≠ Some "" →
     _terminalProcessProxies r1.1 = <[terminalId p1 := p1]> (_terminalProcessProxies st) ∧
     (∀ data, sendProcessData (terminalId p1) data r1.1 = (r1.1, [emitData p1 data])) ∧
     (∀ code, (sendProcessExit (terminalId p1) code r1.1).2 = [emitExit p1 code] ∧
              _terminalProcessProxies (sendProcessExit (terminalId p1) code r1.1).1 =
                delete (terminalId p1) (_terminalProcessProxies st)) ∧
     spawnExtHostProcess (terminalId p1)
       {| dto_name := slc_name (spawn_shellLaunchConfig spawn);
          dto_executable := slc_executable (spawn_shellLaunchConfig spawn);
          dto_args := slc_args (spawn_shellLaunchConfig spawn);
          dto_cwd := slc_cwd (spawn_shellLaunchConfig spawn);
          dto_env := slc_env (spawn_shellLaunchConfig spawn);
          dto_flowControl := flowControl |}
       (activeWorkspaceRootUri spawn) (spawn_cols spawn) (spawn_rows spawn)
       (isWorkspaceShellAllowed spawn) ∈ r1.2) ∧
  _terminalProcessProxies r2.1 = <[terminalId p2 := p2]> (_terminalProcessProxies st) ∧
  (∀ data, sendProcessData (terminalId p2) data r2.1 = (r2.1, [emitData p2 data])) ∧
  (∀ j data, j ≠ terminalId p2 → (sendProcessData j data r2.1).2 = (sendProcessData j data st).2) ∧
  (head r2.2 =
     Some (startExtensionTerminal (terminalId p2)
             (if bool_decide (start_cols start = 0 ∨ start_rows start = 0) then None
              else Some {| dto_columns := start_cols start; dto_rows := start_rows start |}))).
Proof.
  cbv zeta. split_and!.
  - unfold _onRequestSpawnExtHostProcess. by intros [-> | ->].
  - intros H1 H2. unfold _onRequestSpawnExtHostProcess.
    assert (no_authority remoteAuthority = false) as ->.
    { destruct remoteAuthority as [[|a s]|]; done. }
    cbn [fst snd]. set (p := spawn_proxy spawn).
    set (st1 := set_terminalProcessProxies _ st).
    assert (_terminalProcessProxies st1 !! terminalId p = Some p) as Hp.
    { apply lookup_insert_eq. }
    split_and!.
    + done.
    + intros data. unfold sendProcessData. by rewrite Hp.
    + intros code. unfold sendProcessExit. rewrite Hp. cbn. split; [done|].
      apply delete_insert_eq.
    + apply list_elem_of_further, list_elem_of_here.
  - done.
  - intros data. unfold sendProcessData, _onRequestStartExtensionTerminal. cbn [fst].
    unfold set_terminalProcessProxies at 1. cbn. by rewrite lookup_insert_eq.
  - intros j data Hj. unfold sendProcessData, _onRequestStartExtensionTerminal. cbn.
    rewrite lookup_insert_ne by done. by destruct (_terminalProcessProxies st !! j).
  - unfold _onRequestStartExtensionTerminal. cbn. do 2 f_equal.
    repeat case_bool_decide; cbn; try done; tauto.
Qed.

End WithTypes.

End TerminalMore.

(** ** The link provider of the terminal bridge *)

Section LinkProviderFacts.
Import LinkProvider.

Lemma disposed_link_app c1 c2 : disposed (c1 ++ c2) = disposed c1 ++ disposed c2.
Proof. apply omap_app. Qed.

Lemma disposed_dispose_current lp : disposed (dispose_current lp) = option_list lp.
Proof. by destruct lp. Qed.

Lemma registered_run ops lp : registered (run ops lp).2 = handles ops.
Proof.
  revert lp. induction ops as [|op ops IH]; intros lp; [done|].
  cbn [run]. destruct (apply_op op lp) as [lp1 c1] eqn:E1.
  specialize (IH lp1). destruct (run ops lp1) as [lp2 c2]. cbn [snd] in *.
  unfold registered in *. rewrite omap_app, IH.
  destruct op; injection E1 as <- <-; [|by destruct lp..].
  unfold handles. cbn. rewrite omap_app. cbn. by destruct lp.
Qed.

Lemma disposed_run_all ops lp h :
  h ∈ option_list lp ++ handles ops →
  h ∈ disposed (run ops lp).2 ++ option_list (run ops lp).1.
Proof.
  revert lp. induction ops as [|op ops IH]; intros lp Hin.
  { cbn in *. by rewrite app_nil_r in Hin. }
  cbn [run]. destruct (apply_op op lp) as [lp1 c1] eqn:E1.
  specialize (IH lp1). destruct (run ops lp1) as [lp2 c2]. cbn [fst snd] in *.
  rewrite disposed_link_app, <-app_assoc.
  destruct op; injection E1 as <- <-.
  - rewrite disposed_link_app, disposed_dispose_current. cbn. rewrite app_nil_r.
    apply elem_of_app in Hin as [Hin|Hin]; [apply elem_of_app; by left|].
    apply elem_of_app. right. apply IH. exact Hin.
  - rewrite disposed_dispose_current.
    apply elem_of_app in Hin as [Hin|Hin]; [apply elem_of_app; by left|].
    apply elem_of_app. right. apply IH. exact Hin.
  - apply elem_of_app. right. by apply IH.
Qed.

Lemma disposed_run_once ops lp :
  Dispose ∉ ops →
  option_list lp ++ handles ops ≡ₚ disposed (run ops lp).2 ++ option_list (run ops lp).1.
Proof.
  revert lp. induction ops as [|op ops IH]; intros lp Hno.
  { cbn. by rewrite app_nil_r. }
  apply not_elem_of_cons in Hno as [Hop Hno].
  cbn [run]. destruct (apply_op op lp) as [lp1 c1] eqn:E1.
  specialize (IH lp1 Hno). destruct (run ops lp1) as [lp2 c2]. cbn [fst snd] in *.
  rewrite disposed_link_app, <-app_assoc.
  destruct op; [| |done]; injection E1 as <- <-.
  - rewrite disposed_link_app, disposed_dispose_current. cbn. rewrite app_nil_r.
    by f_equiv.
  - rewrite disposed_dispose_current. by f_equiv.
Qed.

(** X14. Over any sequence of [$startLinkProvider], [$stopLinkProvider]
    and [dispose] of the bridge, the disposables of all registrations but the
    one in [_linkProvider] have had their [dispose] called; without a
    [dispose] of the bridge each of them exactly once and the one in
    [_linkProvider] not at all, and after [$stopLinkProvider] none is left.
    [dispose] of the bridge keeps the field, so that a [$stopLinkProvider]
    after it calls [dispose] of the same registration a second time. *)
Theorem link_provider_registrations (ops : list Op) (linkProvider : option nat) :
  let r := run ops linkProvider in
  registered r.2 = handles ops ∧
  (∀ h, h ∈ option_list linkProvider ++ handles ops → h ∈ disposed r.2 ++ option_list r.1) ∧
  (Dispose ∉ ops →
   option_list linkProvider ++ handles ops ≡ₚ disposed r.2 ++ option_list r.1) ∧
  (Dispose ∉ ops →
   option_list linkProvider ++ handles ops ≡ₚ
     disposed (run (ops ++ [StopLinkProvider]) linkProvider).2) ∧
  (∀ h, r.1 = Some h →
     disposed (run (ops ++ [Dispose; StopLinkProvider]) linkProvider).2 =
       disposed r.2 ++ [h; h]).
Proof.
  cbv zeta.
  assert (∀ ops2, run (ops ++ ops2) linkProvider =
            ((run ops2 (run ops linkProvider).1).1,
             (run ops linkProvider).2 ++ (run ops2 (run ops linkProvider).1).2)) as Happ.
  { intros ops2. revert linkProvider. induction ops as [|op ops IH]; intros lp.
    - cbn. by destruct (run ops2 lp).
    - cbn [app run]. destruct (apply_op op lp) as [lp1 c1]. rewrite IH.
      destruct (run ops lp1) as [lp2 c2]. cbn [fst snd]. by rewrite app_assoc. }
  split_and!.
  - apply registered_run.
  - intros h. apply disposed_run_all.
  - apply disposed_run_once.
  - intros Hno. rewrite Happ. cbn [snd]. rewrite disposed_link_app.
    rewrite (disposed_run_once ops linkProvider Hno). f_equiv.
    cbn. by rewrite app_nil_r, disposed_dispose_current.
  - intros h Hh. rewrite Happ. cbn [snd]. rewrite disposed_link_app. f_equal.
    rewrite Hh. reflexivity.
Qed.

End LinkProviderFacts.

(** ** The subscriptions of [MainThreadTesting] *)

Section TestingFacts.
Import Testing.

Context {ExtHostTestingResource UriComponents URI : Type}.
Variable URI_revive : UriComponents → URI.
Variable getTestSubscriptionKey : ExtHostTestingResource → URI → string.

Lemma Map_get_delete {V} k (m : JSMap V) d :
  Map_get k m = Some d → Map_values m ≡ₚ d :: Map_values (Map_delete k m).
Proof.
  induction m as [|e m IH]; [done|]. cbn. case_decide.
  - by intros [= <-].
  - intros Hg. cbn. rewrite (IH Hg). apply Permutation_swap.
Qed.

Lemma Map_get_None_delete {V} k (m : JSMap V) : Map_get k m = None → Map_delete k m = m.
Proof.
  induction m as [|e m IH]; [done|]. cbn. case_decide; [done|]. intros Hg. by rewrite IH.
Qed.

Lemma Map_values_set_new {V} k (v : V) (m : JSMap V) :
  Map_get k m = None → Map_values (Map_set k v m) = Map_values m ++ [v].
Proof.
  induction m as [|e m IH]; [done|]. cbn. case_decide; [done|]. intros Hg.
  cbn. f_equal. by apply IH.
Qed.

Lemma Map_values_set_old {V} k (v : V) (m : JSMap V) d :
  Map_get k m = Some d → Map_values (Map_set k v m) ≡ₚ v :: Map_values (Map_delete k m).
Proof.
  induction m as [|e m IH]; [done|]. cbn. case_decide; [done|]. intros Hg.
  cbn. rewrite (IH Hg). apply Permutation_swap.
Qed.

Lemma Map_get_set {V} k (v : V) (m : JSMap V) : Map_get k (Map_set k v m) = Some v.
Proof.
  induction m as [|e m IH]; cbn.
  - by rewrite decide_True.
  - case_decide; cbn; [by rewrite decide_True | by rewrite decide_False].
Qed.

Lemma Map_keys_set {V} k (v : V) (m : JSMap V) :
  Map_keys (Map_set k v m) =
    if decide (k ∈ Map_keys m) then Map_keys m else Map_keys m ++ [k].
Proof.
  induction m as [|e m IH]; [done|]. cbn. destruct (decide (e.1 = k)) as [He|He].
  - cbn. rewrite decide_True by (rewrite He; apply list_elem_of_here). by rewrite He.
  - cbn. fold (Map_keys m). fold (Map_keys (Map_set k v m)). rewrite IH.
    destruct (decide (k ∈ Map_keys m)) as [Hin|Hin].
    + by rewrite decide_True by by apply list_elem_of_further.
    + rewrite decide_False; [done|]. intros [->|Hin']%elem_of_cons; done.
Qed.

Lemma Map_keys_delete {V} k (m : JSMap V) : sublist (Map_keys (Map_delete k m)) (Map_keys m).
Proof.
  induction m as [|e m IH]; [done|]. cbn. case_decide.
  - by apply sublist_cons.
  - cbn. by apply sublist_skip.
Qed.

Lemma NoDup_keys_apply_op op (m : JSMap nat) :
  NoDup (Map_keys m) → NoDup (Map_keys (apply_op URI_revive getTestSubscriptionKey op m).1).
Proof.
  intros Hnd.
  destruct op; unfold apply_op, subscribeToDiffs, unsubscribeFromDiffs, dispose; cbn [fst].
  - rewrite Map_keys_set. case_decide as Hin; [done|].
    apply NoDup_app. split_and!; [done | | apply NoDup_singleton].
    intros x Hx ->%list_elem_of_singleton. done.
  - eapply sublist_NoDup; [done | apply Map_keys_delete].
  - apply NoDup_nil_2.
Qed.

Lemma disposed_test_app (c1 c2 : list (TestCall ExtHostTestingResource URI)) :
  disposed (c1 ++ c2) = disposed c1 ++ disposed c2.
Proof. apply omap_app. Qed.

Lemma disposed_dispose (m : JSMap nat) :
  disposed (dispose (ExtHostTestingResource := ExtHostTestingResource) (URI := URI) m).2 =
    Map_values m.
Proof.
  unfold dispose. cbn. unfold Map_values. induction m as [|e m IH]; [done|].
  cbn. by rewrite IH.
Qed.

Lemma run_test_app ops1 ops2 (m : JSMap nat) :
  run URI_revive getTestSubscriptionKey (ops1 ++ ops2) m =
    ((run URI_revive getTestSubscriptionKey ops2
        (run URI_revive getTestSubscriptionKey ops1 m).1).1,
     (run URI_revive getTestSubscriptionKey ops1 m).2 ++
       (run URI_revive getTestSubscriptionKey ops2
          (run URI_revive getTestSubscriptionKey ops1 m).1).2).
Proof.
  revert m. induction ops1 as [|op ops IH]; intros m.
  - cbn. by destruct (run _ _ ops2 m).
  - cbn [app run]. destruct (apply_op _ _ op m) as [m1 c1]. rewrite IH.
    destruct (run _ _ ops m1) as [m2 c2]. cbn [fst snd]. by rewrite app_assoc.
Qed.

Lemma run_accounted ops (m : JSMap nat) :
  Map_values m ++ disposables ops ≡ₚ
    replaced URI_revive getTestSubscriptionKey ops m ++
    Map_values (run URI_revive getTestSubscriptionKey ops m).1 ++
    disposed (run URI_revive getTestSubscriptionKey ops m).2.
Proof.
  revert m. induction ops as [|op ops IH]; intros m.
  { cbn. by rewrite !app_nil_r. }
  cbn [run replaced]. specialize (IH (apply_op URI_revive getTestSubscriptionKey op m).1).
  destruct (apply_op _ _ op m) as [m1 c1] eqn:E1. cbn [fst snd] in *.
  destruct (run _ _ ops m1) as [m2 c2]. cbn [fst snd] in *.
  rewrite disposed_test_app, <-app_assoc, (app_assoc (Map_values m2)).
  rewrite (Permutation_app_comm (Map_values m2) (disposed c1)), <-app_assoc.
  rewrite (app_assoc (replaced _ _ ops m1)), (Permutation_app_comm (replaced _ _ ops m1)).
  rewrite <-app_assoc, <-IH.
  destruct op as [r u d|r u|]; cbn in E1; injection E1 as <- <-; cbn.
  - destruct (Map_get _ m) as [d0|] eqn:Hg; cbn.
    + rewrite (Map_values_set_old _ d m d0 Hg), (Map_get_delete _ m d0 Hg). cbn.
      f_equiv. symmetry. apply Permutation_middle.
    + rewrite (Map_values_set_new _ d m Hg), <-app_assoc. done.
  - destruct (Map_get _ m) as [d0|] eqn:Hg; cbn.
    + by rewrite (Map_get_delete _ m d0 Hg).
    + by rewrite (Map_get_None_delete _ m Hg).
  - pose proof (disposed_dispose m) as Hd. unfold dispose, disposed in Hd. cbn in Hd.
    unfold disposables. by rewrite Hd.
Qed.

Lemma NoDup_keys_run ops (m : JSMap nat) :
  NoDup (Map_keys m) → NoDup (Map_keys (run URI_revive getTestSubscriptionKey ops m).1).
Proof.
  revert m. induction ops as [|op ops IH]; intros m Hm; [done|].
  cbn [run]. pose proof (NoDup_keys_apply_op op m Hm) as Hm1.
  destruct (apply_op _ _ op m) as [m1 c1]. specialize (IH m1 Hm1).
  by destruct (run _ _ ops m1).
Qed.

(** X15. Of the subscriptions that [$subscribeToDiffs] put into the map
    during a run, each is in exactly one place at its end: still in the map,
    disposed, or written over by a later [$subscribeToDiffs] with the same
    key.  One that was written over is never disposed, not by
    [$unsubscribeFromDiffs] and not by [dispose] at the end, and none is
    disposed twice; [dispose] disposes what the map holds, in the order of the
    keys, and leaves it empty. *)
Theorem subscriptions_accounted (ops : list (Op ExtHostTestingResource UriComponents)) :
  let r := run URI_revive getTestSubscriptionKey ops [] in
  let lost := replaced URI_revive getTestSubscriptionKey ops [] in
  let final := run URI_revive getTestSubscriptionKey (ops ++ [Dispose]) [] in
  disposables ops ≡ₚ lost ++ Map_values r.1 ++ disposed r.2 ∧
  NoDup (Map_keys r.1) ∧
  final.1 = [] ∧
  disposed final.2 = disposed r.2 ++ Map_values r.1 ∧
  (NoDup (disposables ops) →
   NoDup (disposed final.2) ∧ ∀ d, d ∈ lost → d ∉ disposed final.2).
Proof.
  cbv zeta. pose proof (run_accounted ops []) as Hacc. cbn [Map_values fmap list_fmap app] in Hacc.
  assert (disposed (run URI_revive getTestSubscriptionKey (ops ++ [Dispose]) []).2 =
            disposed (run URI_revive getTestSubscriptionKey ops []).2 ++
            Map_values (run URI_revive getTestSubscriptionKey ops []).1) as Hfinal.
  { rewrite run_test_app. cbn [snd]. rewrite disposed_test_app. f_equal.
    change (run URI_revive getTestSubscriptionKey [Dispose]
              (run URI_revive getTestSubscriptionKey ops []).1).2
      with ((dispose (ExtHostTestingResource := ExtHostTestingResource) (URI := URI)
               (run URI_revive getTestSubscriptionKey ops []).1).2 ++ []).
    by rewrite app_nil_r, disposed_dispose. }
  split_and!.
  - exact Hacc.
  - apply NoDup_keys_run, NoDup_nil_2.
  - by rewrite run_test_app.
  - exact Hfinal.
  - intros Hnd. rewrite Hfinal. rewrite Hacc in Hnd.
    apply NoDup_app in Hnd as (_ & Hdisj & Hnd). split.
    + by rewrite Permutation_app_comm.
    + intros d Hd Hin. apply (Hdisj d Hd). by rewrite Permutation_app_comm.
Qed.

End TestingFacts.

(** ** Sample runs of the bridge and of the test subscriptions *)

Section BridgeRuns.
Import Terminal TerminalRuns.

(** The provider of the sample runs answers with promise 7, which is then
    stored for [localhost:3000]. *)
Lemma createWithProvider_stores_witness :
  Tunnel.stored_record Examples.created.2 "localhost" 3000 =
    Some {| Tunnel.refcount := 1; Tunnel.value := 7 |}.
Proof.
  destruct (createWithProvider_stores false Examples.provider7 "localhost" 3000 None false
              false Examples.with_provider) as (_ & _ & _ & _ & _ & Hstored).
  apply (Hstored 7%nat). reflexivity.
Defined.

(** A request to spawn a process for terminal 5 on a remote extension
    host. *)
Lemma process_requests_register_proxy_witness :
  let request : ISpawnExtHostProcessRequest (list string) (list (string * string)) string :=
    {| spawn_proxy := {| terminalId := 5 |};
       spawn_shellLaunchConfig :=
         {| slc_name := Some "remote"; slc_executable := Some "/bin/sh"; slc_args := None;
            slc_cwd := None; slc_waitOnExit := None; slc_ignoreConfigurationCwd := None;
            slc_env := None; slc_strictEnv := None; slc_hideFromUser := None;
            slc_isExtensionTerminal := None; slc_extHostTerminalId := None;
            slc_isFeatureTerminal := None |};
       activeWorkspaceRootUri := None; spawn_cols := 80; spawn_rows := 24;
       isWorkspaceShellAllowed := true |} in
  let st := (_onRequestSpawnExtHostProcess (Some "ssh-remote+box") (Some true) request
               Examples.bridge).1 in
  sendProcessData 5 "ls" st = (st, [emitData {| terminalId := 5 |} "ls"]) ∧
  _onRequestSpawnExtHostProcess None (Some true) request Examples.bridge =
    (Examples.bridge, []).
Proof.
  intros request st.
  destruct (process_requests_register_proxy Examples.bridge (Some "ssh-remote+box")
              (Some true) request {| start_proxy := {| terminalId := 5 |};
                                     start_cols := 80; start_rows := 0 |})
    as (_ & Hreg & _).
  destruct (process_requests_register_proxy Examples.bridge None
              (Some true) request {| start_proxy := {| terminalId := 5 |};
                                     start_cols := 80; start_rows := 0 |})
    as (Hdrop & _).
  split.
  - destruct Hreg as (_ & Hdata & _); [discriminate | discriminate|]. apply (Hdata "ls").
  - apply Hdrop. by left.
Defined.

(** Two registrations and a stop: both are disposed, each once. *)
Lemma link_provider_registrations_witness :
  [1; 2]%nat ≡ₚ
    LinkProvider.disposed
      (LinkProvider.run
         [LinkProvider.StartLinkProvider 1; LinkProvider.StartLinkProvider 2;
          LinkProvider.StopLinkProvider] None).2.
Proof.
  destruct (link_provider_registrations
              [LinkProvider.StartLinkProvider 1; LinkProvider.StartLinkProvider 2] None)
    as (_ & _ & _ & Hstop & _).
  apply Hstop. intros Hin.
  apply elem_of_cons in Hin as [Hin|Hin]; [discriminate|].
  apply elem_of_cons in Hin as [Hin|Hin]; [discriminate|].
  by apply elem_of_nil in Hin.
Defined.

(** Two subscriptions under one key, then [$unsubscribeFromDiffs] and
    [dispose]: the first subscription is never disposed. *)
Lemma subscriptions_accounted_witness :
  let ops : list (Testing.Op unit string) :=
    [Testing.SubscribeToDiffs () "file:///a" 1; Testing.SubscribeToDiffs () "file:///a" 2;
     Testing.UnsubscribeFromDiffs () "file:///a"] in
  Testing.replaced id (λ _ uri, uri) ops [] = [1%nat] ∧
  1%nat ∉ Testing.disposed (Testing.run id (λ _ uri, uri) (ops ++ [Testing.Dispose]) []).2.
Proof.
  intros ops. split; [reflexivity|].
  destruct (subscriptions_accounted id (λ _ uri, uri) ops) as (_ & _ & _ & _ & Hnd).
  destruct Hnd as [_ Hlost].
  - apply NoDup_cons. split; [|apply NoDup_singleton].
    intros Hin%list_elem_of_singleton. discriminate.
  - apply Hlost. apply list_elem_of_here.
Defined.

End BridgeRuns.
